(** * parser_maps_pro: job store, organisation-id parsing and link harvesting

    A shallow embedding of the scraping pipeline's core:
    - [core/utils.py]        : [org_id_from_url] (three regular expressions);
    - [core/db_sqlite.py]    : the SQLite job store;
    - [core/db_pg.py]        : the PostgreSQL job store;
    - [providers/yandex/link_collector.py] : [is_captcha],
      [_normalize_org_url], [collect_links_from_list], [map_scan],
      [collect_task_links];
    - [providers/yandex/info_collector.py] : [parse_org_page];
    - [core/pipeline.py]     : the two worker loops;
    - [core/config_loader.py] : [build_tasks];
    - [app/main.py]          : the [/api/task_requeue] endpoint and the
      callbacks given to the pipeline.

    Conventions.  Python [str] values are Rocq [string]s holding the UTF-8
    bytes of the text.  SQL tables are lists of rows in insertion order;
    every SQL statement is one function on the store.  [datetime('now')] /
    [NOW()] is an explicit [now] argument. *)

From Stdlib Require Import NArith ZArith Ascii String List Bool Lia.
From stdpp Require Import base tactics option list strings pretty gmap sorting.

Local Open Scope string_scope.
Local Open Scope Z_scope.

(** ** Python string primitives *)

Module PyStr.

(** [s.startswith(p)] *)
Fixpoint starts_with (p s : string) : bool :=
  match p with
  | EmptyString => true
  | String a p' =>
      match s with
      | EmptyString => false
      | String b s' => if Ascii.eqb a b then starts_with p' s' else false
      end
  end.

(** [needle in hay] *)
Fixpoint contains (needle hay : string) : bool :=
  if starts_with needle hay then true
  else match hay with
       | EmptyString => false
       | String _ hay' => contains needle hay'
       end.

(** [not s] for a [str]: true exactly on the empty string. *)
Definition is_empty (s : string) : bool :=
  match s with EmptyString => true | _ => false end.

(** Upper-casing of the 26 ASCII letters only; every other byte is kept.
    This is the case folding SQLite's built-in [LIKE] applies. *)
Definition ascii_upper_char (a : ascii) : ascii :=
  let n := nat_of_ascii a in
  if (Nat.leb 97 n && Nat.leb n 122)%bool then ascii_of_nat (n - 32) else a.

Fixpoint ascii_upper (s : string) : string :=
  match s with
  | EmptyString => EmptyString
  | String a s' => String (ascii_upper_char a) (ascii_upper s')
  end.

(** Lower-casing of the 26 ASCII letters only (used to instantiate
    [str.lower] on ASCII text). *)
Definition ascii_lower_char (a : ascii) : ascii :=
  let n := nat_of_ascii a in
  if (Nat.leb 65 n && Nat.leb n 90)%bool then ascii_of_nat (n + 32) else a.

Fixpoint ascii_lower (s : string) : string :=
  match s with
  | EmptyString => EmptyString
  | String a s' => String (ascii_lower_char a) (ascii_lower s')
  end.

(** A UTF-8 continuation byte, [10xxxxxx]: it does not start a character. *)
Definition is_continuation (a : ascii) : bool :=
  let n := nat_of_ascii a in (Nat.leb 128 n && Nat.ltb n 192)%bool.

(** [s[:n]] for [n >= 0]: the first [n] characters.  On the UTF-8 bytes
    this keeps [n] leading bytes together with their continuation
    bytes. *)
Fixpoint take_chars (n : nat) (s : string) : string :=
  match s with
  | EmptyString => EmptyString
  | String a s' =>
      if is_continuation a then String a (take_chars n s')
      else match n with
           | O => EmptyString
           | S n' => String a (take_chars n' s')
           end
  end.

(** [s.split(sep, 1)[0]] for a one-character separator: the text before
    the first occurrence of [sep], or all of [s] when there is none. *)
Fixpoint before_first (sep : ascii) (s : string) : string :=
  match s with
  | EmptyString => EmptyString
  | String a s' =>
      if Ascii.eqb a sep then EmptyString else String a (before_first sep s')
  end.

(** *** The characters of a [str]

    A [str] is held as its UTF-8 bytes; a character is one to four of
    them. *)

Definition byte (a : ascii) : N := N_of_ascii a.

(** A continuation byte, [10xxxxxx]. *)
Definition cont (a : ascii) : bool := ((128 <=? byte a) && (byte a <? 192))%N.

(** The code point that the given bytes encode, when they are the UTF-8
    encoding of one: the shortest form only, and no surrogate. *)
Definition cp1 (a : ascii) : option N :=
  if (byte a <? 128)%N then Some (byte a) else None.

Definition cp2 (a b : ascii) : option N :=
  if cont b && ((194 <=? byte a) && (byte a <? 224))%N
  then Some ((byte a - 192) * 64 + (byte b - 128))%N
  else None.

Definition cp3 (a b c : ascii) : option N :=
  if cont c && cont b && ((224 <=? byte a) && (byte a <? 240))%N then
    let n := ((byte a - 224) * 4096 + (byte b - 128) * 64 + (byte c - 128))%N in
    if ((2048 <=? n) && negb ((55296 <=? n) && (n <? 57344)))%N then Some n else None
  else None.

Definition cp4 (a b c d : ascii) : option N :=
  if cont d && cont c && cont b && ((240 <=? byte a) && (byte a <? 245))%N then
    let n := ((byte a - 240) * 262144 + (byte b - 128) * 4096
              + (byte c - 128) * 64 + (byte d - 128))%N in
    if ((65536 <=? n) && (n <? 1114112))%N then Some n else None
  else None.

(** The first character of [s]: its code point, its bytes, and what
    follows it.  [None] at the end of the text (and on bytes that encode
    nothing, which no [str] holds). *)
Definition first_char (s : string) : option (N * string * string) :=
  match s with
  | EmptyString => None
  | String a s1 =>
      match cp1 a with
      | Some n => Some (n, String a "", s1)
      | None =>
          match s1 with
          | EmptyString => None
          | String b s2 =>
              match cp2 a b with
              | Some n => Some (n, String a (String b ""), s2)
              | None =>
                  match s2 with
                  | EmptyString => None
                  | String c s3 =>
                      match cp3 a b c with
                      | Some n => Some (n, String a (String b (String c "")), s3)
                      | None =>
                          match s3 with
                          | EmptyString => None
                          | String d s4 =>
                              match cp4 a b c d with
                              | Some n =>
                                  Some (n, String a (String b (String c (String d ""))), s4)
                              | None => None
                              end
                          end
                      end
                  end
              end
          end
      end
  end.

(** The characters with the property [Nd] (decimal digit), by the code
    point of the zero of each run of ten: Unicode 14.0, the character
    database of CPython 3.11. *)
Definition decimal_zeros : list N :=
  [48; 1632; 1776; 1984; 2406; 2534; 2662; 2790;
   2918; 3046; 3174; 3302; 3430; 3558; 3664; 3792;
   3872; 4160; 4240; 6112; 6160; 6470; 6608; 6784;
   6800; 6992; 7088; 7232; 7248; 42528; 43216; 43264;
   43472; 43504; 43600; 44016; 65296; 66720; 68912; 69734;
   69872; 69942; 70096; 70384; 70736; 70864; 71248; 71360;
   71472; 71904; 72016; 72784; 73040; 73120; 92768; 92864;
   93008; 120782; 120792; 120802; 120812; 120822; 123200; 123632;
   125264; 130032]%N.

(** [c.isdecimal()] for the character with code point [n]. *)
Definition is_decimal (n : N) : bool :=
  existsb (fun z => ((z <=? n) && (n <? z + 10))%N) decimal_zeros.

End PyStr.

(** ** A backtracking matcher for the regular expressions of [core/utils.py]

    The three patterns use literal characters, the classes [[^/]] and [\d],
    the greedy quantifiers [+] and [?] on a single character or class, one
    capturing group and [$].  The patterns are [str] patterns compiled
    without [re.ASCII]: a class reads one character of the text, and [\d]
    is any Unicode decimal digit.  The literals of the patterns are ASCII
    characters. *)

Module Re.

Inductive cls : Type :=
| CChar (c : ascii)        (* the character itself *)
| CNot (c : ascii)         (* [^c] *)
| CDigit.                  (* \d *)

Inductive atom : Type :=
| AOne (k : cls)           (* k *)
| APlus (k : cls)          (* k+ , greedy *)
| AOpt (k : cls)           (* k? , greedy *)
| AOpen                    (* ( *)
| AClose                   (* ) *)
| AEnd.                    (* $ *)

(** [\d]: the character with code point [n] is a decimal digit. *)
Definition is_digit (n : N) : bool := PyStr.is_decimal n.

Definition in_cls (k : cls) (n : N) : bool :=
  match k with
  | CChar c => N.eqb n (PyStr.byte c)
  | CNot c => negb (N.eqb n (PyStr.byte c))
  | CDigit => is_digit n
  end.

(** One character of the class [k] at the start of [s]: the character and
    the rest of [s]. *)
Definition take (k : cls) (s : string) : option (string * string) :=
  match PyStr.first_char s with
  | Some (n, c, s') => if in_cls k n then Some (c, s') else None
  | None => None
  end.

(** The state of capturing group 1 while matching. *)
Record gstate : Type := GState { g_open : bool; g_text : string }.

Definition g0 : gstate := GState false "".

Definition push (g : gstate) (w : string) : gstate :=
  if g_open g then GState true (g_text g +:+ w) else g.

(** [$] without [re.MULTILINE]: the end of the string, or just before a
    newline that is the last character. *)
Definition at_end (s : string) : bool :=
  match s with
  | EmptyString => true
  | String a EmptyString => Ascii.eqb a "010"%char
  | _ => false
  end.

(** [k+] after its first character: take one more character of the class
    while there is one, and only when the rest of the match fails from
    there go on with what follows the quantifier ([cont]) from here.
    [fuel] bounds the number of characters taken; the length of the text
    is enough. *)
Fixpoint more (fuel : nat) (k : cls) (cont : string -> gstate -> option string)
    (s : string) (g : gstate) : option string :=
  match fuel with
  | O => cont s g
  | S fuel' =>
      match take k s with
      | Some (c, s') =>
          match more fuel' k cont s' (push g c) with
          | Some r => Some r
          | None => cont s g
          end
      | None => cont s g
      end
  end.

(** [match_here p s g]: match all of [p] at the start of [s]; the result
    is the text of group 1.  Alternatives are tried in Python's order:
    a greedy quantifier first takes as much as it can and gives back one
    character at a time. *)
Fixpoint match_here (p : list atom) (s : string) (g : gstate) : option string :=
  match p with
  | [] => Some (g_text g)
  | AOne k :: p' =>
      match take k s with
      | Some (c, s') => match_here p' s' (push g c)
      | None => None
      end
  | APlus k :: p' =>
      match take k s with
      | Some (c, s') => more (String.length s') k (match_here p') s' (push g c)
      | None => None
      end
  | AOpt k :: p' =>
      match take k s with
      | Some (c, s') =>
          match match_here p' s' (push g c) with
          | Some r => Some r
          | None => match_here p' s g
          end
      | None => match_here p' s g
      end
  | AOpen :: p' => match_here p' s (GState true "")
  | AClose :: p' => match_here p' s (GState false (g_text g))
  | AEnd :: p' => if at_end s then match_here p' s g else None
  end.

(** [re.search(p, s)]: the match at the leftmost position that has one;
    [m.group(1)] of it.  The positions are tried byte by byte: a pattern
    that starts with a character, as the three patterns do, matches at no
    byte inside a character, where [take] finds none. *)
Fixpoint search (p : list atom) (s : string) : option string :=
  match match_here p s g0 with
  | Some r => Some r
  | None =>
      match s with
      | EmptyString => None
      | String _ s' => search p s'
      end
  end.

(** Reading a pattern from its source text. *)
Definition quantify (k : cls) (rest : string) : atom * string :=
  match rest with
  | String "+"%char rest' => (APlus k, rest')
  | String "?"%char rest' => (AOpt k, rest')
  | _ => (AOne k, rest)
  end.

Fixpoint compile_go (fuel : nat) (src : string) : option (list atom) :=
  match fuel with
  | O => None
  | S fuel' =>
      match src with
      | EmptyString => Some []
      | String "("%char rest => cons AOpen <$> compile_go fuel' rest
      | String ")"%char rest => cons AClose <$> compile_go fuel' rest
      | String "$"%char rest => cons AEnd <$> compile_go fuel' rest
      | String "\"%char (String "d"%char rest) =>
          let '(a, rest') := quantify CDigit rest in
          cons a <$> compile_go fuel' rest'
      | String "["%char (String "^"%char (String c (String "]"%char rest))) =>
          let '(a, rest') := quantify (CNot c) rest in
          cons a <$> compile_go fuel' rest'
      | String c rest =>
          let '(a, rest') := quantify (CChar c) rest in
          cons a <$> compile_go fuel' rest'
      end
  end.

Definition compile (src : string) : list atom :=
  default [] (compile_go (S (String.length src)) src).

End Re.

(** ** [core/utils.py] *)

Module Utils.

Definition pat_org_slug : list Re.atom := Re.compile "/org/[^/]+/(\d+)/".
Definition pat_org : list Re.atom := Re.compile "/org/(\d+)/".
Definition pat_tail : list Re.atom := Re.compile "/(\d+)/?$".

Definition org_id_from_url (url : string) : string :=
  if PyStr.is_empty url then ""
  else
    match Re.search pat_org_slug url with
    | Some d => d
    | None =>
        match Re.search pat_org url with
        | Some d => d
        | None =>
            match Re.search pat_tail url with
            | Some d => d
            | None => ""
            end
        end
    end.

End Utils.

(** ** The job store: rows, tables and SQL statements *)

Module Store.

(** [datetime('now')] / [NOW()]: the clock reading a statement runs at. *)
Definition timestamp : Type := Z.

(** A Python [dict] with string keys and string values, and [d.get(k, dflt)]. *)
Definition dict_get (d : gmap string string) (k dflt : string) : string :=
  default dflt (d !! k).

Record task_row : Type := TaskRow {
  t_id : Z;
  t_manager : string;
  t_region : string;
  t_city : string;
  t_mode : string;
  t_query_key : string;
  t_query_ru : string;
  t_category_path : string;
  t_domain_pref : string;
  t_status : string;
  t_attempts : Z;
  t_last_error : option string;     (* [None] is SQL NULL *)
  t_created_at : timestamp;
  t_updated_at : timestamp
}.

Record link_row : Type := LinkRow {
  l_id : Z;
  l_task_id : Z;
  l_org_id : string;
  l_url : string;
  l_source_mode : string;
  l_city : string;
  l_region : string;
  l_manager : string;
  l_query_ru : string;
  l_category_path : string;
  l_created_at : timestamp
}.

Record org_row : Type := OrgRow {
  o_org_id : string;
  o_name : string;
  o_address : string;
  o_website : string;
  o_ypage : string;
  o_phone : string;
  o_social : string;
  o_updated_at : timestamp
}.

Record source_row : Type := SourceRow {
  s_id : Z;
  s_org_id : string;
  s_task_id : Z;
  s_manager : string;
  s_region : string;
  s_city : string;
  s_mode : string;
  s_query_ru : string;
  s_category_path : string;
  s_created_at : timestamp
}.

(** The database: four tables, rows in insertion order, and the last value
    handed out by each id generator (AUTOINCREMENT / BIGSERIAL). *)
Record store : Type := MkStore {
  tasks : list task_row;
  links : list link_row;
  orgs : list org_row;
  org_sources : list source_row;
  seq_tasks : Z;
  seq_links : Z;
  seq_sources : Z
}.

Definition empty : store := MkStore [] [] [] [] 0 0 0.

Definition with_tasks (s : store) (ts : list task_row) : store :=
  MkStore ts (links s) (orgs s) (org_sources s) (seq_tasks s) (seq_links s) (seq_sources s).

Definition with_orgs (s : store) (os : list org_row) : store :=
  MkStore (tasks s) (links s) os (org_sources s) (seq_tasks s) (seq_links s) (seq_sources s).

(** *** [tasks] *)

(** The row that [INSERT INTO tasks(manager, ..., domain_pref, status)
    VALUES(..., 'PENDING')] stores for the dict [t]: [attempts] takes its
    default 0, [last_error] is NULL, both time stamps take their default,
    the current time. *)
Definition new_task (id : Z) (now : timestamp) (t : gmap string string) : task_row :=
  {| t_id := id;
     t_manager := dict_get t "manager" "";
     t_region := dict_get t "region" "";
     t_city := dict_get t "city" "";
     t_mode := dict_get t "mode" "";
     t_query_key := dict_get t "query_key" "";
     t_query_ru := dict_get t "query_ru" "";
     t_category_path := dict_get t "category_path" "";
     t_domain_pref := dict_get t "domain_pref" "auto";
     t_status := "PENDING";
     t_attempts := 0;
     t_last_error := None;
     t_created_at := now;
     t_updated_at := now |}.

Definition insert_task (now : timestamp) (t : gmap string string) (s : store) : store :=
  let id := seq_tasks s + 1 in
  MkStore (tasks s ++ [new_task id now t]) (links s) (orgs s) (org_sources s)
          id (seq_links s) (seq_sources s).

(** [status IN ('PENDING','RETRY') AND attempts < ?] *)
Definition claimable (max_attempts : Z) (r : task_row) : bool :=
  (String.eqb (t_status r) "PENDING" || String.eqb (t_status r) "RETRY")
  && (t_attempts r <? max_attempts).

(** [ORDER BY id ASC LIMIT 1] over the rows that passed the WHERE clause. *)
Fixpoint lowest_id (rows : list task_row) : option task_row :=
  match rows with
  | [] => None
  | r :: rows' =>
      match lowest_id rows' with
      | None => Some r
      | Some r' => if t_id r <=? t_id r' then Some r else Some r'
      end
  end.

Definition select_first_task (where_ : task_row -> bool) (s : store) : option task_row :=
  lowest_id (List.filter where_ (tasks s)).

(** [SELECT * FROM tasks WHERE id=?] followed by [fetchone()]. *)
Definition select_task_by_id (id : Z) (s : store) : option task_row :=
  List.find (fun r => t_id r =? id) (tasks s).

(** [UPDATE tasks SET ... WHERE id=?]: [set] is the SET clause. *)
Definition update_task_where_id (id : Z) (set : task_row -> task_row) (s : store) : store :=
  with_tasks s (List.map (fun r => if t_id r =? id then set r else r) (tasks s)).

(** [UPDATE tasks SET ... WHERE <cond>] *)
Definition update_tasks_where (cond : task_row -> bool) (set : task_row -> task_row)
    (s : store) : store :=
  with_tasks s (List.map (fun r => if cond r then set r else r) (tasks s)).

(** SET clauses. *)
Definition set_running (now : timestamp) (r : task_row) : task_row :=
  {| t_id := t_id r; t_manager := t_manager r; t_region := t_region r;
     t_city := t_city r; t_mode := t_mode r; t_query_key := t_query_key r;
     t_query_ru := t_query_ru r; t_category_path := t_category_path r;
     t_domain_pref := t_domain_pref r;
     t_status := "RUNNING";
     t_attempts := t_attempts r + 1;
     t_last_error := t_last_error r;
     t_created_at := t_created_at r;
     t_updated_at := now |}.

Definition set_status_error (status : string) (err : option string)
    (now : timestamp) (r : task_row) : task_row :=
  {| t_id := t_id r; t_manager := t_manager r; t_region := t_region r;
     t_city := t_city r; t_mode := t_mode r; t_query_key := t_query_key r;
     t_query_ru := t_query_ru r; t_category_path := t_category_path r;
     t_domain_pref := t_domain_pref r;
     t_status := status;
     t_attempts := t_attempts r;
     t_last_error := err;
     t_created_at := t_created_at r;
     t_updated_at := now |}.

Definition set_status_attempts_error (status : string) (attempts : Z)
    (err : option string) (now : timestamp) (r : task_row) : task_row :=
  {| t_id := t_id r; t_manager := t_manager r; t_region := t_region r;
     t_city := t_city r; t_mode := t_mode r; t_query_key := t_query_key r;
     t_query_ru := t_query_ru r; t_category_path := t_category_path r;
     t_domain_pref := t_domain_pref r;
     t_status := status;
     t_attempts := attempts;
     t_last_error := err;
     t_created_at := t_created_at r;
     t_updated_at := now |}.

(** *** [links] *)

Definition has_org_id (oid : string) (ls : list link_row) : bool :=
  existsb (fun l => String.eqb (l_org_id l) oid) ls.

Definition new_link (id : Z) (now : timestamp) (task : task_row)
    (oid url source_mode : string) : link_row :=
  {| l_id := id;
     l_task_id := t_id task;
     l_org_id := oid;
     l_url := url;
     l_source_mode := source_mode;
     l_city := t_city task;
     l_region := t_region task;
     l_manager := t_manager task;
     l_query_ru := t_query_ru task;
     l_category_path := t_category_path task;
     l_created_at := now |}.

(** SQLite, [INSERT OR IGNORE INTO links ...] against [UNIQUE(org_id)]: a
    row whose [org_id] is already present is dropped.  The AUTOINCREMENT
    id is allocated, and recorded in [sqlite_sequence], before the
    conflict is detected, so a dropped row still consumes an id.  The
    second component is [cur.rowcount]. *)
Definition insert_or_ignore_link (now : timestamp) (task : task_row)
    (oid url source_mode : string) (s : store) : store * Z :=
  let id := seq_links s + 1 in
  if has_org_id oid (links s) then
    (MkStore (tasks s) (links s) (orgs s) (org_sources s)
             (seq_tasks s) id (seq_sources s), 0)
  else
    (MkStore (tasks s) (links s ++ [new_link id now task oid url source_mode])
             (orgs s) (org_sources s) (seq_tasks s) id (seq_sources s), 1).

(** PostgreSQL, [INSERT INTO links ... ON CONFLICT(org_id) DO NOTHING]:
    the BIGSERIAL default is evaluated before the conflict is detected,
    so a dropped row still consumes an id. *)
Definition insert_on_conflict_do_nothing (now : timestamp) (task : task_row)
    (oid url source_mode : string) (s : store) : store * Z :=
  let id := seq_links s + 1 in
  if has_org_id oid (links s) then
    (MkStore (tasks s) (links s) (orgs s) (org_sources s)
             (seq_tasks s) id (seq_sources s), 0)
  else
    (MkStore (tasks s) (links s ++ [new_link id now task oid url source_mode])
             (orgs s) (org_sources s) (seq_tasks s) id (seq_sources s), 1).

(** *** [orgs] *)

Definition has_org (oid : string) (os : list org_row) : bool :=
  existsb (fun o => String.eqb (o_org_id o) oid) os.

Definition org_of_dict (now : timestamp) (org : gmap string string) : org_row :=
  {| o_org_id := dict_get org "org_id" "";
     o_name := dict_get org "name" "";
     o_address := dict_get org "address" "";
     o_website := dict_get org "website" "";
     o_ypage := dict_get org "ypage" "";
     o_phone := dict_get org "phone" "";
     o_social := dict_get org "social" "";
     o_updated_at := now |}.

(** [DO UPDATE SET name=excluded.name, ..., updated_at=now] on the
    conflicting row; [org_id] is kept. *)
Definition overwrite_org (excluded : org_row) (o : org_row) : org_row :=
  {| o_org_id := o_org_id o;
     o_name := o_name excluded;
     o_address := o_address excluded;
     o_website := o_website excluded;
     o_ypage := o_ypage excluded;
     o_phone := o_phone excluded;
     o_social := o_social excluded;
     o_updated_at := o_updated_at excluded |}.

(** [INSERT INTO orgs ... ON CONFLICT(org_id) DO UPDATE SET ...] *)
Definition insert_or_update_org (excluded : org_row) (s : store) : store :=
  if has_org (o_org_id excluded) (orgs s) then
    with_orgs s
      (List.map (fun o => if String.eqb (o_org_id o) (o_org_id excluded)
                          then overwrite_org excluded o else o) (orgs s))
  else with_orgs s (orgs s ++ [excluded]).

(** *** Integrity constraints of the schema *)

(** [tasks.id] is a primary key drawn from the id generator. *)
Definition tasks_keyed (s : store) : Prop :=
  NoDup (List.map t_id (tasks s))
  /\ Forall (fun r => t_id r <= seq_tasks s) (tasks s).

(** [links.org_id] is UNIQUE. *)
Definition links_unique (s : store) : Prop := NoDup (List.map l_org_id (links s)).


(** *** [org_sources], deletes and read-only queries *)

(** The row that [INSERT INTO org_sources(org_id, task_id, manager, region,
    city, mode, query_ru, category_path)] stores for a link row. *)
Definition new_source (id : Z) (now : timestamp) (org_id : string)
    (link_row : link_row) (mode : string) : source_row :=
  {| s_id := id;
     s_org_id := org_id;
     s_task_id := l_task_id link_row;
     s_manager := l_manager link_row;
     s_region := l_region link_row;
     s_city := l_city link_row;
     s_mode := mode;
     s_query_ru := l_query_ru link_row;
     s_category_path := l_category_path link_row;
     s_created_at := now |}.

Definition insert_source (now : timestamp) (org_id : string) (link_row : link_row)
    (mode : string) (s : store) : store :=
  let id := seq_sources s + 1 in
  MkStore (tasks s) (links s) (orgs s)
          (org_sources s ++ [new_source id now org_id link_row mode])
          (seq_tasks s) (seq_links s) id.

(** [DELETE FROM org_sources WHERE task_id=?] *)
Definition delete_sources_where_task (id : Z) (s : store) : store :=
  MkStore (tasks s) (links s) (orgs s)
          (List.filter (fun r => negb (s_task_id r =? id)) (org_sources s))
          (seq_tasks s) (seq_links s) (seq_sources s).

(** [DELETE FROM links WHERE task_id=?] *)
Definition delete_links_where_task (id : Z) (s : store) : store :=
  MkStore (tasks s)
          (List.filter (fun l => negb (l_task_id l =? id)) (links s))
          (orgs s) (org_sources s) (seq_tasks s) (seq_links s) (seq_sources s).

(** [DELETE FROM tasks WHERE id=?] *)
Definition delete_task_where_id (id : Z) (s : store) : store :=
  with_tasks s (List.filter (fun r => negb (t_id r =? id)) (tasks s)).

(** [links l LEFT JOIN orgs o ON o.org_id = l.org_id WHERE o.org_id IS
    NULL]: the links that no organisation row matches. *)
Definition unresolved (s : store) (l : link_row) : bool :=
  negb (has_org (l_org_id l) (orgs s)).

Definition unresolved_links (s : store) : list link_row :=
  List.filter (unresolved s) (links s).

(** [ORDER BY l.id ASC LIMIT 1] *)
Fixpoint lowest_link_id (rows : list link_row) : option link_row :=
  match rows with
  | [] => None
  | l :: rows' =>
      match lowest_link_id rows' with
      | None => Some l
      | Some l' => if l_id l <=? l_id l' then Some l else Some l'
      end
  end.

(** [SELECT status, COUNT( * ) c FROM tasks GROUP BY status], read into a
    dict from status to count. *)
Definition count_by_status (rows : list task_row) : gmap string Z :=
  fold_left (fun m r => <[t_status r := default 0 (m !! t_status r) + 1]> m) rows ∅.

(** The dict [stats()] returns. *)
Record stats_row : Type := Stats {
  st_tasks : gmap string Z;
  st_total_links : Z;
  st_total_orgs : Z;
  st_pending_orgs : Z
}.

Definition stats_of (s : store) : stats_row :=
  {| st_tasks := count_by_status (tasks s);
     st_total_links := Z.of_nat (length (links s));
     st_total_orgs := Z.of_nat (length (orgs s));
     st_pending_orgs := Z.of_nat (length (unresolved_links s)) |}.

(** The columns [list_tasks] selects. *)
Record task_listing : Type := Listing {
  li_id : Z;
  li_manager : string;
  li_region : string;
  li_city : string;
  li_mode : string;
  li_query_ru : string;
  li_category_path : string;
  li_status : string;
  li_attempts : Z;
  li_last_error : option string;
  li_updated_at : timestamp
}.

Definition listing_of (r : task_row) : task_listing :=
  {| li_id := t_id r; li_manager := t_manager r; li_region := t_region r;
     li_city := t_city r; li_mode := t_mode r; li_query_ru := t_query_ru r;
     li_category_path := t_category_path r; li_status := t_status r;
     li_attempts := t_attempts r; li_last_error := t_last_error r;
     li_updated_at := t_updated_at r |}.

(** [ORDER BY id DESC] *)
Fixpoint insert_by_id_desc (r : task_row) (sorted : list task_row) : list task_row :=
  match sorted with
  | [] => [r]
  | x :: sorted' =>
      if t_id x <=? t_id r then r :: sorted else x :: insert_by_id_desc r sorted'
  end.

Definition order_by_id_desc (rows : list task_row) : list task_row :=
  fold_right insert_by_id_desc [] rows.

End Store.

(** ** [core/db_sqlite.py]: [class SQLiteDB] *)

Module SQLiteDB.
Import Store.

(** [x LIKE '%pat%'] in SQLite: substring test that ignores the case of
    ASCII letters. *)
Definition like_infix (pat x : string) : bool :=
  PyStr.contains (PyStr.ascii_upper pat) (PyStr.ascii_upper x).

(** The WHERE clause of [pick_next_task_for_links]. *)
Definition where_pick (max_attempts : Z) (r : task_row) : bool :=
  (like_infix "LINKS" (t_mode r) || like_infix "MAPSCAN" (t_mode r))
  && claimable max_attempts r.

Definition add_tasks (now : timestamp) (ts : list (gmap string string))
    (s : store) : store * Z :=
  match ts with
  | [] => (s, 0)
  | _ => (fold_left (fun s t => insert_task now t s) ts s, Z.of_nat (length ts))
  end.

(** The three statements of [pick_next_task_for_links], in program order. *)
Definition stmt_select (max_attempts : Z) (s : store) : option task_row :=
  select_first_task (where_pick max_attempts) s.

Definition stmt_update (id : Z) (now : timestamp) (s : store) : store :=
  update_task_where_id id (set_running now) s.

Definition stmt_reselect (id : Z) (s : store) : option task_row :=
  select_task_by_id id s.

Definition pick_next_task_for_links (max_attempts : Z) (now : timestamp)
    (s : store) : store * option task_row :=
  match stmt_select max_attempts s with
  | None => (s, None)
  | Some row =>
      let s1 := stmt_update (t_id row) now s in
      (s1, stmt_reselect (t_id row) s1)
  end.

(** [f"{worker}: {err}" if worker else (err or "")] *)
Definition error_message (err worker : string) : string :=
  if PyStr.is_empty worker then err else worker +:+ ": " +:+ err.

Definition set_task_links_done (task_id : Z) (inserted : Z) (now : timestamp)
    (s : store) : store :=
  update_task_where_id task_id
    (set_status_error "DONE" (Some ("inserted_links=" +:+ pretty inserted)) now) s.

Definition set_task_waitcaptcha (task_id : Z) (err worker : string)
    (now : timestamp) (s : store) : store :=
  update_task_where_id task_id
    (set_status_error "WAITCAPTCHA"
       (Some (PyStr.take_chars 2000 (error_message err worker))) now) s.

Definition set_task_error (task_id : Z) (err worker : string)
    (now : timestamp) (s : store) : store :=
  update_task_where_id task_id
    (set_status_error "ERROR"
       (Some (PyStr.take_chars 2000 (error_message err worker))) now) s.

(** [UPDATE tasks SET status='RETRY', last_error=NULL, updated_at=... WHERE id=?] *)
Definition retry_task (task_id : Z) (now : timestamp) (s : store) : store :=
  update_task_where_id task_id (set_status_error "RETRY" None now) s.

(** [UPDATE tasks SET status='RETRY', attempts=0, last_error=NULL, ...
    WHERE status != 'RUNNING'] *)
Definition requeue_all_tasks (now : timestamp) (s : store) : store :=
  update_tasks_where (fun r => negb (String.eqb (t_status r) "RUNNING"))
    (set_status_attempts_error "RETRY" 0 None now) s.

Fixpoint insert_links_loop (now : timestamp) (task_row : task_row)
    (urls : list string) (source_mode : string) (s : store) (inserted : Z)
    : store * Z :=
  match urls with
  | [] => (s, inserted)
  | u :: urls' =>
      let oid := Utils.org_id_from_url u in
      if PyStr.is_empty oid then
        insert_links_loop now task_row urls' source_mode s inserted
      else
        let '(s', rowcount) := insert_or_ignore_link now task_row oid u source_mode s in
        insert_links_loop now task_row urls' source_mode s'
          (if rowcount =? 1 then inserted + 1 else inserted)
  end.

Definition insert_links (now : timestamp) (task_row : task_row)
    (urls : list string) (source_mode : string) (s : store) : store * Z :=
  match urls with
  | [] => (s, 0)
  | _ => insert_links_loop now task_row urls source_mode s 0
  end.

Definition upsert_org (now : timestamp) (org : gmap string string) (s : store) : store :=
  insert_or_update_org (org_of_dict now org) s.

(** [DELETE FROM org_sources WHERE task_id=?], then links, then the task. *)
Definition delete_task (task_id : Z) (s : store) : store :=
  delete_task_where_id task_id
    (delete_links_where_task task_id (delete_sources_where_task task_id s)).

(** Four [DELETE FROM] without WHERE; the AUTOINCREMENT counters are kept. *)
Definition clear_tasks (s : store) : store :=
  MkStore [] [] [] [] (seq_tasks s) (seq_links s) (seq_sources s).

Definition fetch_next_link (s : store) : option link_row :=
  lowest_link_id (unresolved_links s).

Definition add_source (now : timestamp) (org_id : string) (link_row : link_row)
    (mode : string) (s : store) : store :=
  insert_source now org_id link_row mode s.

Definition stats (s : store) : stats_row := stats_of s.

(** [LIMIT n] in SQLite: a negative [n] means no limit. *)
Definition limit_rows {A : Type} (n : Z) (rows : list A) : list A :=
  if n <? 0 then rows else firstn (Z.to_nat n) rows.

(** [LIMIT ?] with [int(limit or 200)]: a limit of 0 becomes 200. *)
Definition list_tasks (limit : Z) (s : store) : list task_listing :=
  limit_rows (if limit =? 0 then 200 else limit)
    (List.map listing_of (order_by_id_desc (tasks s))).

(** The names bound in the class body. *)
Definition attributes : list string :=
  ["__init__"; "connect"; "init"; "add_tasks"; "pick_next_task_for_links";
   "set_task_links_done"; "set_task_waitcaptcha"; "set_task_error";
   "retry_task"; "requeue_all_tasks"; "delete_task"; "clear_tasks";
   "insert_links"; "fetch_next_link"; "upsert_org"; "add_source"; "stats";
   "list_tasks"; "templates"; "get_template_sql"].

End SQLiteDB.

(** ** [core/db_pg.py]: [class PostgresDB] *)

Module PostgresDB.
Import Store.

(** [mode LIKE 'LINKS%'] in PostgreSQL: a case-sensitive prefix test. *)
Definition where_pick (max_attempts : Z) (r : task_row) : bool :=
  PyStr.starts_with "LINKS" (t_mode r) && claimable max_attempts r.

Definition add_tasks (now : timestamp) (ts : list (gmap string string))
    (s : store) : store * Z :=
  (fold_left (fun s t => insert_task now t s) ts s, Z.of_nat (length ts)).

(** [SELECT ... ORDER BY id ASC LIMIT 1 FOR UPDATE SKIP LOCKED]: rows whose
    lock another open transaction holds ([locked], by id) are passed
    over; the selected row is locked until this transaction ends. *)
Definition stmt_select_for_update (locked : list Z) (max_attempts : Z)
    (s : store) : option task_row :=
  select_first_task
    (fun r => where_pick max_attempts r
              && negb (existsb (Z.eqb (t_id r)) locked)) s.

Definition stmt_update (id : Z) (now : timestamp) (s : store) : store :=
  update_task_where_id id (set_running now) s.

(** One caller at a time: no other transaction holds a lock. *)
Definition pick_next_task_for_links (max_attempts : Z) (now : timestamp)
    (s : store) : store * option task_row :=
  match stmt_select_for_update [] max_attempts s with
  | None => (s, None)
  | Some row => (stmt_update (t_id row) now s, Some row)
  end.

(** [(f"[{worker}] " if worker else "") + (err or "")] *)
Definition error_message (err worker : string) : string :=
  (if PyStr.is_empty worker then "" else "[" +:+ worker +:+ "] ") +:+ err.

Definition set_task_links_done (task_id : Z) (inserted : Z) (now : timestamp)
    (s : store) : store :=
  update_task_where_id task_id
    (set_status_error "DONE" (Some ("inserted_links=" +:+ pretty inserted)) now) s.

Definition set_task_waitcaptcha (task_id : Z) (err worker : string)
    (now : timestamp) (s : store) : store :=
  update_task_where_id task_id
    (set_status_error "WAITCAPTCHA"
       (Some (PyStr.take_chars 2000 (error_message err worker))) now) s.

Definition set_task_error (task_id : Z) (err worker : string)
    (now : timestamp) (s : store) : store :=
  update_task_where_id task_id
    (set_status_error "ERROR"
       (Some (PyStr.take_chars 2000 (error_message err worker))) now) s.

(** [UPDATE tasks SET status='RETRY', attempts=0, last_error=NULL,
    updated_at=NOW() WHERE id=%s] *)
Definition retry_task (task_id : Z) (now : timestamp) (s : store) : store :=
  update_task_where_id task_id (set_status_attempts_error "RETRY" 0 None now) s.

Fixpoint insert_links_loop (now : timestamp) (task_row : task_row)
    (urls : list string) (source_mode : string) (s : store) (inserted : Z)
    : store * Z :=
  match urls with
  | [] => (s, inserted)
  | u :: urls' =>
      let oid := Utils.org_id_from_url u in
      if PyStr.is_empty oid then
        insert_links_loop now task_row urls' source_mode s inserted
      else
        let '(s', rowcount) :=
          insert_on_conflict_do_nothing now task_row oid u source_mode s in
        insert_links_loop now task_row urls' source_mode s'
          (if rowcount =? 1 then inserted + 1 else inserted)
  end.

Definition insert_links (now : timestamp) (task_row : task_row)
    (urls : list string) (source_mode : string) (s : store) : store * Z :=
  insert_links_loop now task_row urls source_mode s 0.

Definition upsert_org (now : timestamp) (org : gmap string string) (s : store) : store :=
  insert_or_update_org (org_of_dict now org) s.

(** [DELETE FROM org_sources], [DELETE FROM links], then every task is
    set to RETRY with no attempts, RUNNING ones included. *)
Definition requeue_all_tasks (now : timestamp) (s : store) : store :=
  update_tasks_where (fun _ => true) (set_status_attempts_error "RETRY" 0 None now)
    (MkStore (tasks s) [] (orgs s) [] (seq_tasks s) (seq_links s) (seq_sources s)).

Definition delete_task (task_id : Z) (s : store) : store :=
  delete_task_where_id task_id
    (delete_links_where_task task_id (delete_sources_where_task task_id s)).

(** Four [TRUNCATE TABLE ... RESTART IDENTITY]: the sequences start over. *)
Definition clear_tasks (s : store) : store := MkStore [] [] [] [] 0 0 0.

Definition fetch_next_link (s : store) : option link_row :=
  lowest_link_id (unresolved_links s).

Definition add_source (now : timestamp) (org_id : string) (link_row : link_row)
    (mode : string) (s : store) : store :=
  insert_source now org_id link_row mode s.

Definition stats (s : store) : stats_row := stats_of s.

(** [LIMIT %s]: PostgreSQL rejects a negative limit, and the call raises. *)
Definition list_tasks (limit : Z) (s : store) : option (list task_listing) :=
  if limit <? 0 then None
  else Some (firstn (Z.to_nat limit) (List.map listing_of (order_by_id_desc (tasks s)))).

(** The names bound in the class body. *)
Definition attributes : list string :=
  ["__init__"; "connect"; "init"; "add_tasks"; "pick_next_task_for_links";
   "set_task_links_done"; "set_task_waitcaptcha"; "set_task_error";
   "retry_task"; "requeue_all_tasks"; "delete_task"; "clear_tasks";
   "insert_links"; "fetch_next_link"; "upsert_org"; "add_source"; "stats";
   "list_tasks"; "templates"; "get_template_sql"].

End PostgresDB.

(** ** [app/main.py]: the requeue endpoint *)

Module App.

(** [db = make_db()] is an instance of one of the two classes. *)
Inductive backend : Type := UseSQLite | UsePostgres.

Definition class_attributes (b : backend) : list string :=
  match b with
  | UseSQLite => SQLiteDB.attributes
  | UsePostgres => PostgresDB.attributes
  end.

Inductive lookup : Type :=
| BoundMethod (name : string)
| AttributeError (name : string).

(** [db.<name>]: attribute lookup on an instance whose [__init__] only
    sets [path] (SQLite) or [dsn] (PostgreSQL). *)
Definition getattr (b : backend) (name : string) : lookup :=
  if existsb (String.eqb name) (class_attributes b ++
                                match b with UseSQLite => ["path"] | UsePostgres => ["dsn"] end)
  then BoundMethod name else AttributeError name.

Inductive response : Type :=
| Calls (method : string)          (* the handler goes on to call the method *)
| Unhandled (e : lookup).          (* the handler raises; no [{"ok": true}] *)

(** [api_task_requeue(id)]: the handler first evaluates [db.requeue_task]. *)
Definition api_task_requeue (b : backend) (id : Z) : response :=
  match getattr b "requeue_task" with
  | BoundMethod m => Calls m
  | AttributeError m => Unhandled (AttributeError m)
  end.

End App.

(** ** [providers/yandex/link_collector.py] *)

Module LinkCollector.

(** What a call into the browser driver does: it returns or it raises. *)
Inductive reply (A : Type) : Type :=
| Returns (a : A)
| Raises.
Arguments Returns {A} a.
Arguments Raises {A}.

(** One [a.link-overlay] element as the loop sees it:
    [it.get_attribute("href")] and the [driver.current_url] read next. *)
Record anchor : Type := Anchor {
  a_href : reply (option string);
  a_current_url : reply (option string)
}.

(** What the page shows on one pass of the loop. *)
Record page : Type := Page {
  p_current_url : reply (option string);
  p_title : reply (option string);
  p_anchors : reply (list anchor)       (* [driver.find_elements(...)] *)
}.

(** The browser session: the page shown on pass 0, 1, 2, ...  Scrolling
    and sleeping only move the session on to its next page. *)
Definition session : Type := nat -> page.

Inductive exn : Type :=
| CaptchaError
| DriverError.          (* an exception of the driver outside any [try] *)

Inductive outcome : Type :=
| Returned (links : list string)
| Raised (e : exn).

Section Collector.

(** [str.lower], and the two [urllib.parse] steps of
    [_normalize_org_url]: the [scheme://netloc/] base of the current
    page and [urljoin]; [None] is a [ValueError]. *)
Variable str_lower : string -> string.
Variable url_base : string -> option string.
Variable urljoin : string -> string -> option string.

(** [x or ""] *)
Definition or_empty (x : option string) : string := default "" x.

Definition captcha_marks (url title : string) : bool :=
  if PyStr.contains "showcaptcha" url then true
  else if PyStr.contains "captcha.yandex" url then true
  else if (PyStr.contains "captcha" title
           || PyStr.contains "smartcaptcha" title
           || PyStr.contains "капча" title)%bool then true
  else false.

Definition is_captcha (p : page) : reply bool :=
  match p_current_url p with
  | Raises => Raises
  | Returns u =>
      match p_title p with
      | Raises => Raises
      | Returns t =>
          Returns (captcha_marks (str_lower (or_empty u)) (str_lower (or_empty t)))
      end
  end.

Definition _normalize_org_url (current_page_url href : string) : reply (option string) :=
  if PyStr.is_empty href then Returns None
  else
    match url_base current_page_url with
    | None => Raises
    | Some base =>
        match urljoin base href with
        | None => Raises
        | Some abs_url =>
            if negb (PyStr.contains "/maps/org/" abs_url) then Returns None
            else Returns (Some (PyStr.before_first "?" abs_url))
        end
    end.

(** The body of [for it in items]: everything sits in [try/except: pass]. *)
Definition add_anchor (links : gset string) (it : anchor) : gset string :=
  match a_href it with
  | Raises => links
  | Returns href =>
      match a_current_url it with
      | Raises => links
      | Returns cur =>
          match _normalize_org_url (or_empty cur) (or_empty href) with
          | Returns (Some norm) =>
              if PyStr.is_empty norm then links else {[norm]} ∪ links
          | _ => links
          end
      end
  end.

Definition add_anchors (links : gset string) (items : list anchor) : gset string :=
  fold_left add_anchor items links.

(** The loop variables. *)
Record vars : Type := Vars {
  v_links : gset string;
  v_idle : Z;
  v_last_cnt : Z
}.

Definition vars0 : vars := Vars ∅ 0 0.

Inductive control : Type :=
| Continue (v : vars)
| Break (v : vars)
| Raise (e : exn).

(** One pass of [for _ in range(4000)]. *)
Definition pass (max_idle : Z) (p : page) (v : vars) : control :=
  match is_captcha p with
  | Raises => Raise DriverError
  | Returns true => Raise CaptchaError
  | Returns false =>
      match p_anchors p with
      | Raises => Raise DriverError
      | Returns items =>
          let links := add_anchors (v_links v) items in
          let len := Z.of_nat (size links) in
          let v' := if len =? v_last_cnt v
                    then Vars links (v_idle v + 1) (v_last_cnt v)
                    else Vars links 0 len in
          if v_idle v' >=? max_idle then Break v' else Continue v'
      end
  end.

(** [range(4000)]: the hard cap on the number of passes. *)
Definition pass_cap : nat := 4000.

(** [loop n i v]: up to [n] more passes, the next one being number [i]
    (from 0).  The result comes with the number of passes started. *)
Fixpoint loop (n : nat) (max_idle : Z) (d : session) (i : nat) (v : vars)
    : outcome * nat :=
  match n with
  | O => (Returned (elements (v_links v)), i)
  | S n' =>
      match pass max_idle (d i) v with
      | Raise e => (Raised e, S i)
      | Break v' => (Returned (elements (v_links v')), S i)
      | Continue v' => loop n' max_idle d (S i) v'
      end
  end.

Definition collect_links_from_list (d : session) (max_idle : Z) : outcome * nat :=
  loop pass_cap max_idle d 0 vars0.

(** The loop variables after the first [k] passes, when each of them
    ended in [continue]. *)
Fixpoint vars_after (max_idle : Z) (d : session) (k : nat) : option vars :=
  match k with
  | O => Some vars0
  | S k' =>
      match vars_after max_idle d k' with
      | Some v =>
          match pass max_idle (d k') v with
          | Continue v' => Some v'
          | _ => None
          end
      | None => None
      end
  end.

(** The anchors accumulated over passes [0 .. k-1], with no regard to
    control flow. *)
Fixpoint seen (d : session) (k : nat) : gset string :=
  match k with
  | O => ∅
  | S k' =>
      match p_anchors (d k') with
      | Returns items => add_anchors (seen d k') items
      | Raises => seen d k'
      end
  end.

(** *** [map_scan] and [collect_task_links] *)

(** A gesture sent to the browser through [ActionChains]. *)
Inductive gesture : Type :=
| Click (x y : Z)                  (* move to (x, y) of the container, click *)
| Drag (x y dx dy : Z).            (* press at (x, y), move by (dx, dy), release *)

(** [for _ in range(n)]: the gestures of [n] horizontal drags. *)
Definition row_drags (cx cy dx : Z) (n : nat) : list gesture :=
  repeat (Drag cx cy dx 0) n.

(** The body of [for row in range(grid)], for rows [row, row+1, ...]
    ([rows] of them). *)
Fixpoint scan_rows (grid step_px cx cy : Z) (row : Z) (rows : nat) : list gesture :=
  match rows with
  | O => []
  | S rows' =>
      let direction := if row mod 2 =? 0 then 1 else -1 in
      (row_drags cx cy (- direction * step_px) (Z.to_nat (grid - 1))
       ++ (if row <? grid - 1 then [Drag cx cy 0 (- step_px)] else [])
       ++ scan_rows grid step_px cx cy (row + 1) rows')%list
  end.

(** [map_scan(driver, grid, step_px)]: the gestures it sends.  [container]
    is the size of the displayed map container, if there is one; a
    gesture that fails is skipped by its [try/except]. *)
Definition map_scan (container : option (Z * Z)) (grid step_px : Z) : list gesture :=
  if grid <=? 1 then []
  else
    match container with
    | None => []
    | Some (w, h) =>
        if (w <? 200) || (h <? 200) then []
        else
          let cx := w / 2 in
          let cy := h / 2 in
          Click cx cy :: scan_rows grid step_px cx cy 0 (Z.to_nat grid)
    end.

(** The inner loop of the filter in [collect_task_links]: [h] is dropped
    when some non-empty exclude text occurs in it, case ignored. *)
Definition is_bad (excludes : list string) (h : string) : bool :=
  existsb (fun ex => negb (PyStr.is_empty (str_lower ex))
                     && PyStr.contains (str_lower ex) (str_lower h)) excludes.

Definition exclude_filter (excludes hrefs : list string) : list string :=
  List.filter (fun h => negb (is_bad excludes h)) hrefs.

(** How [collect_task_links] can fail. *)
Inductive failure : Type :=
| CaptchaFailure            (* CaptchaError *)
| PageStructureFailure      (* PageStructureError *)
| DriverFailure.            (* anything the driver raises *)

Inductive attempt (A : Type) : Type :=
| Done (a : A)
| Failed (f : failure).
Arguments Done {A} a.
Arguments Failed {A} f.

(** [collect_task_links]: [city_base] is how [open_city_base] ended,
    [build_category_url] and [build_search_url] stand for the two URL
    builders, [target] is the page shown after [driver.get(url)] (or its
    failure), and [d] the session the harvesting loop then sees.  The map
    scan is inside [try/except: pass] and has no part in the result. *)
Definition collect_task_links
    (build_category_url build_search_url : string -> string -> attempt string)
    (city_base : attempt string) (target : attempt page) (d : session)
    (mode category_path query_ru : string) (excludes : list string)
    : attempt (list string) :=
  match city_base with
  | Failed f => Failed f
  | Done base =>
      match (if PyStr.contains "CATEGORY" mode
             then build_category_url base category_path
             else build_search_url base query_ru) with
      | Failed f => Failed f
      | Done _ =>
          match target with
          | Failed f => Failed f
          | Done p =>
              match p_title p with
              | Raises => Failed DriverFailure
              | Returns title =>
                  if PyStr.contains "404" (str_lower (or_empty title))
                  then Failed PageStructureFailure
                  else
                    match is_captcha p with
                    | Raises => Failed DriverFailure
                    | Returns true => Failed CaptchaFailure
                    | Returns false =>
                        match fst (collect_links_from_list d 12) with
                        | Raised CaptchaError => Failed CaptchaFailure
                        | Raised DriverError => Failed DriverFailure
                        | Returned hrefs => Done (exclude_filter excludes hrefs)
                        end
                    end
              end
          end
      end
  end.

End Collector.

Arguments Done {A} a.
Arguments Failed {A} f.

End LinkCollector.

(** ** Two callers of [pick_next_task_for_links] at once

    Each caller runs the statements of the function in program order on its
    own connection; the database runs one statement at a time, in the order
    a schedule gives. *)

Module Concurrent.
Import Store.

Inductive caller : Type := A | B.

(** *** SQLite *)

Inductive sq_pc : Type :=
| SqStart
| SqSelected (row : task_row)            (* after the first SELECT *)
| SqUpdated (row : task_row)             (* after UPDATE and commit *)
| SqReturned (r : option task_row).

Definition sq_step (max_attempts : Z) (now : timestamp) (s : store) (pc : sq_pc)
    : store * sq_pc :=
  match pc with
  | SqStart =>
      match SQLiteDB.stmt_select max_attempts s with
      | None => (s, SqReturned None)
      | Some row => (s, SqSelected row)
      end
  | SqSelected row => (SQLiteDB.stmt_update (t_id row) now s, SqUpdated row)
  | SqUpdated row => (s, SqReturned (SQLiteDB.stmt_reselect (t_id row) s))
  | SqReturned r => (s, SqReturned r)
  end.

Definition sq_system : Type := store * sq_pc * sq_pc.

Definition sq_sched_step (max_attempts : Z) (sys : sq_system)
    (ev : caller * timestamp) : sq_system :=
  let '(s, a, b) := sys in
  match fst ev with
  | A => let '(s', a') := sq_step max_attempts (snd ev) s a in (s', a', b)
  | B => let '(s', b') := sq_step max_attempts (snd ev) s b in (s', a, b')
  end.

Definition sq_run (max_attempts : Z) (sched : list (caller * timestamp))
    (s : store) : sq_system :=
  fold_left (sq_sched_step max_attempts) sched (s, SqStart, SqStart).

(** *** PostgreSQL *)

Inductive pg_pc : Type :=
| PgStart
| PgLocked (row : task_row)              (* after SELECT ... FOR UPDATE *)
| PgReturned (r : option task_row).      (* after commit or rollback *)

(** The row locks an open transaction holds. *)
Definition pg_locks (pc : pg_pc) : list Z :=
  match pc with
  | PgLocked row => [t_id row]
  | _ => []
  end.

Definition pg_step (max_attempts : Z) (now : timestamp) (others : list Z)
    (s : store) (pc : pg_pc) : store * pg_pc :=
  match pc with
  | PgStart =>
      match PostgresDB.stmt_select_for_update others max_attempts s with
      | None => (s, PgReturned None)
      | Some row => (s, PgLocked row)
      end
  | PgLocked row => (PostgresDB.stmt_update (t_id row) now s, PgReturned (Some row))
  | PgReturned r => (s, PgReturned r)
  end.

Definition pg_system : Type := store * pg_pc * pg_pc.

Definition pg_sched_step (max_attempts : Z) (sys : pg_system)
    (ev : caller * timestamp) : pg_system :=
  let '(s, a, b) := sys in
  match fst ev with
  | A => let '(s', a') := pg_step max_attempts (snd ev) (pg_locks b) s a in (s', a', b)
  | B => let '(s', b') := pg_step max_attempts (snd ev) (pg_locks a) s b in (s', a, b')
  end.

Definition pg_run (max_attempts : Z) (sched : list (caller * timestamp))
    (s : store) : pg_system :=
  fold_left (pg_sched_step max_attempts) sched (s, PgStart, PgStart).

(** The id a caller was handed, once its call has returned a task. *)
Definition sq_claimed (pc : sq_pc) : option Z :=
  match pc with SqReturned (Some r) => Some (t_id r) | _ => None end.

Definition pg_claimed (pc : pg_pc) : option Z :=
  match pc with PgReturned (Some r) => Some (t_id r) | _ => None end.

End Concurrent.

(** ** [core/pipeline.py]: one iteration of each worker loop *)

Module Pipeline.
Import Store.

(** The classes the [except] clauses of the workers tell apart. *)
Inductive exn_class : Type :=
| IsCaptchaError
| IsTimeoutException
| IsOtherException.

(** An exception: its class, [f"{e}"] and [traceback.format_exc()]. *)
Record exn : Type := Exn {
  e_class : exn_class;
  e_str : string;
  e_traceback : string
}.

Inductive result (A : Type) : Type :=
| Ok (a : A)
| Err (e : exn).
Arguments Ok {A} a.
Arguments Err {A} e.

(** The store object the pipeline is given: the methods it calls. *)
Record db_api : Type := DbApi {
  db_pick_next_task_for_links : Z -> timestamp -> store -> store * option task_row;
  db_set_task_links_done : Z -> Z -> timestamp -> store -> store;
  db_set_task_waitcaptcha : Z -> string -> string -> timestamp -> store -> store;
  db_set_task_error : Z -> string -> string -> timestamp -> store -> store;
  db_fetch_next_link : store -> option link_row;
  db_upsert_org : timestamp -> gmap string string -> store -> store;
  db_add_source : timestamp -> string -> link_row -> string -> store -> store
}.

Definition sqlite_db : db_api :=
  {| db_pick_next_task_for_links := SQLiteDB.pick_next_task_for_links;
     db_set_task_links_done := SQLiteDB.set_task_links_done;
     db_set_task_waitcaptcha := SQLiteDB.set_task_waitcaptcha;
     db_set_task_error := SQLiteDB.set_task_error;
     db_fetch_next_link := SQLiteDB.fetch_next_link;
     db_upsert_org := SQLiteDB.upsert_org;
     db_add_source := SQLiteDB.add_source |}.

Definition postgres_db : db_api :=
  {| db_pick_next_task_for_links := PostgresDB.pick_next_task_for_links;
     db_set_task_links_done := PostgresDB.set_task_links_done;
     db_set_task_waitcaptcha := PostgresDB.set_task_waitcaptcha;
     db_set_task_error := PostgresDB.set_task_error;
     db_fetch_next_link := PostgresDB.fetch_next_link;
     db_upsert_org := PostgresDB.upsert_org;
     db_add_source := PostgresDB.add_source |}.

(** A browser session, by the number [make_driver] gave it. *)
Definition handle : Type := nat.

(** What a worker owns: the store it talks to and its browser session
    ([self._links_driver] / [self._info_driver]). *)
Record worker : Type := Worker {
  w_store : store;
  w_driver : option handle
}.

(** What one iteration did: the task or link it took, if any, and the
    [time.sleep] at its end, in seconds. *)
Record event : Type := Event {
  ev_taken : option Z;
  ev_sleep : Z
}.

(** The browser session of the iteration: the one already open, or a new
    one from [make_driver], which can raise. *)
Definition ensure_driver (make_driver : result handle) (w : worker) : result handle :=
  match w_driver w with
  | Some h => Ok h
  | None => make_driver
  end.

(** The three [except] clauses of [_links_worker]. *)
Definition links_except (db : db_api) (task_id : Z) (e : exn) (now : timestamp)
    (s : store) (driver : option handle) : worker * event :=
  match e_class e with
  | IsCaptchaError =>
      (Worker (db_set_task_waitcaptcha db task_id (e_str e) "links" now s) driver,
       Event (Some task_id) 8)
  | IsTimeoutException =>
      (Worker (db_set_task_error db task_id
                 (e_str e +:+ String "010" "" +:+ e_traceback e) "links" now s) driver,
       Event (Some task_id) 2)
  | IsOtherException =>
      (Worker (db_set_task_error db task_id
                 (e_str e +:+ String "010" "" +:+ e_traceback e) "links" now s) None,
       Event (Some task_id) 2)
  end.

(** One iteration of [while not self._stop.is_set()] in [_links_worker].
    [links_fn] is the callback given to the pipeline; it may write to the
    store.  [t_pick] and [t_end] are the clock at the claim and at the
    final status update. *)
Definition links_iteration (db : db_api) (max_attempts : Z)
    (links_fn : handle -> task_row -> store -> result Z * store)
    (make_driver : result handle) (t_pick t_end : timestamp) (w : worker)
    : worker * event :=
  let '(s1, picked) := db_pick_next_task_for_links db max_attempts t_pick (w_store w) in
  match picked with
  | None => (Worker s1 (w_driver w), Event None 1)
  | Some task =>
      let task_id := t_id task in
      match ensure_driver make_driver w with
      | Err e => links_except db task_id e t_end s1 (w_driver w)
      | Ok h =>
          let '(r, s2) := links_fn h task s1 in
          match r with
          | Ok inserted =>
              (Worker (db_set_task_links_done db task_id inserted t_end s2) (Some h),
               Event (Some task_id) 0)
          | Err e => links_except db task_id e t_end s2 (Some h)
          end
      end
  end.

(** What the environment supplies to one iteration. *)
Record tick : Type := Tick {
  k_make_driver : result handle;
  k_pick : timestamp;
  k_end : timestamp
}.

(** The loop, for as many iterations as the stop flag stays clear. *)
Fixpoint links_worker (db : db_api) (max_attempts : Z)
    (links_fn : handle -> task_row -> store -> result Z * store)
    (ticks : list tick) (w : worker) : worker * list event :=
  match ticks with
  | [] => (w, [])
  | k :: ticks' =>
      let '(w1, ev) :=
        links_iteration db max_attempts links_fn (k_make_driver k) (k_pick k) (k_end k) w in
      let '(w2, evs) := links_worker db max_attempts links_fn ticks' w1 in
      (w2, ev :: evs)
  end.

(** One iteration of [_info_worker].  [info_fn] has no access to the
    store; it returns a dict, or [None], or raises.  [t_org] and
    [t_source] are the clock at the two writes. *)
Definition info_iteration (db : db_api)
    (info_fn : handle -> link_row -> result (option (gmap string string)))
    (make_driver : result handle) (t_org t_source : timestamp) (w : worker)
    : worker * event :=
  match db_fetch_next_link db (w_store w) with
  | None => (w, Event None 1)
  | Some link_row =>
      let taken := Some (l_id link_row) in
      let on_error (e : exn) (driver : option handle) :=
        match e_class e with
        | IsCaptchaError => (Worker (w_store w) driver, Event taken 8)
        | _ => (Worker (w_store w) None, Event taken 2)
        end in
      match ensure_driver make_driver w with
      | Err e => on_error e (w_driver w)
      | Ok h =>
          match info_fn h link_row with
          | Err e => on_error e (Some h)
          | Ok None => (Worker (w_store w) (Some h), Event taken 0)
          | Ok (Some org) =>
              if PyStr.is_empty (dict_get org "org_id" "") then
                (Worker (w_store w) (Some h), Event taken 0)
              else
                (Worker
                   (db_add_source db t_source (dict_get org "org_id" "") link_row
                      (l_source_mode link_row)
                      (db_upsert_org db t_org org (w_store w)))
                   (Some h),
                 Event taken 0)
          end
      end
  end.

End Pipeline.

(** ** [app/main.py]: the callbacks [api_start] gives to the pipeline *)

Module AppStart.
Import Store Pipeline.

(** [links_fn(driver, task_row)]: [collect_task_links] harvests the URLs
    (or raises), [db.insert_links] stores them under the task's mode and
    its count is the result. *)
Definition links_fn
    (insert_links : timestamp -> task_row -> list string -> string -> store -> store * Z)
    (collect_task_links : handle -> task_row -> result (list string))
    (now : timestamp) (driver : handle) (task_row : task_row) (s : store)
    : result Z * store :=
  match collect_task_links driver task_row with
  | Err e => (Err e, s)
  | Ok urls =>
      let '(s', inserted) := insert_links now task_row urls (t_mode task_row) s in
      (Ok inserted, s')
  end.

(** What the card of an organisation shows: the five extracted texts,
    after [strip_brackets_keep_apostrophe]. *)
Record card : Type := Card {
  c_name : string;
  c_address : string;
  c_website : string;
  c_phone : string;
  c_social : string
}.

(** [parse_org_page(driver, url, ...)] of [providers/yandex/info_collector.py].
    [visit] stands for the browser: loading [url], the captcha test (which
    raises [CaptchaError]) and the extraction from the page source.  The
    organisation id comes from the URL alone. *)
Definition parse_org_page (visit : handle -> string -> result card)
    (driver : handle) (url : string) : result (gmap string string) :=
  match visit driver url with
  | Err e => Err e
  | Ok c =>
      Ok (list_to_map
            [("org_id", Utils.org_id_from_url url);
             ("name", c_name c);
             ("address", c_address c);
             ("website", c_website c);
             ("ypage", PyStr.before_first "?" url);
             ("phone", c_phone c);
             ("social", c_social c)])
  end.

(** [info_fn(driver, link_row)] *)
Definition info_fn (visit : handle -> string -> result card)
    (driver : handle) (link_row : link_row) : result (option (gmap string string)) :=
  match parse_org_page visit driver (l_url link_row) with
  | Err e => Err e
  | Ok org => Ok (Some org)
  end.

End AppStart.

(** ** [core/config_loader.py]: [build_tasks] *)

Module ConfigLoader.
Import Store.

(** [s.lstrip(c)] and [s.rstrip(c)] for a one-character [c]. *)
Fixpoint lstrip_char (c : ascii) (s : string) : string :=
  match s with
  | EmptyString => EmptyString
  | String a s' => if Ascii.eqb a c then lstrip_char c s' else s
  end.

Fixpoint rstrip_char (c : ascii) (s : string) : string :=
  match s with
  | EmptyString => EmptyString
  | String a s' =>
      let r := rstrip_char c s' in
      if PyStr.is_empty r && Ascii.eqb a c then EmptyString else String a r
  end.

(** [s.strip(c)] *)
Definition strip_char (c : ascii) (s : string) : string :=
  rstrip_char c (lstrip_char c s).

(** An entry of [cfg["categories"]]; [None] is a missing key. *)
Record category : Type := Category {
  cat_category_path : option string;
  cat_enabled : option bool
}.

Section BuildTasks.

(** [str.strip()] *)
Variable str_strip : string -> string.

Definition search_mode (mapscan_always : bool) : string :=
  if mapscan_always then "LINKS_MAPSCAN_SEARCH" else "LINKS_SEARCH".

Definition category_mode (mapscan_always : bool) : string :=
  if mapscan_always then "LINKS_MAPSCAN_CATEGORY" else "LINKS_CATEGORY".

(** The body of [for r in reqs]: [None] is [continue]. *)
Definition search_task (domain_pref : string) (mapscan_always : bool)
    (c r : gmap string string) : option (gmap string string) :=
  let q := str_strip (dict_get r "query_ru" "") in
  if PyStr.is_empty q then None
  else Some (list_to_map
               [("manager", dict_get c "manager" "");
                ("region", dict_get c "region" "");
                ("city", dict_get c "city" "");
                ("mode", search_mode mapscan_always);
                ("query_key", "A");
                ("query_ru", q);
                ("category_path", "");
                ("domain_pref", domain_pref)]).

(** The body of [for cat in cats]. *)
Definition category_task (domain_pref : string) (mapscan_always : bool)
    (c : gmap string string) (cat : category) : option (gmap string string) :=
  if negb (default true (cat_enabled cat)) then None
  else
    let p := strip_char "/" (str_strip (default "" (cat_category_path cat))) in
    if PyStr.is_empty p then None
    else Some (list_to_map
                 [("manager", dict_get c "manager" "");
                  ("region", dict_get c "region" "");
                  ("city", dict_get c "city" "");
                  ("mode", category_mode mapscan_always);
                  ("query_key", "B");
                  ("query_ru", "");
                  ("category_path", p);
                  ("domain_pref", domain_pref)]).

(** [build_tasks(cfg, domain_pref, mapscan_always)], on the three lists
    read from [cfg]: the search tasks of every city, then the category
    tasks of every city. *)
Definition build_tasks (cities reqs : list (gmap string string))
    (cats : list category) (domain_pref : string) (mapscan_always : bool)
    : list (gmap string string) :=
  (List.flat_map (fun c => omap (search_task domain_pref mapscan_always c) reqs) cities
   ++ List.flat_map (fun c => omap (category_task domain_pref mapscan_always c) cats)
        cities)%list.

End BuildTasks.

End ConfigLoader.

(** * Specifications *)

Module Spec.

(** ** Shapes of URLs, for [org_id_from_url] *)

(** [c] is one character, and it is in the class [k]. *)
Definition is_char (k : Re.cls) (c : string) : Prop := Re.take k c = Some (c, "").

(** [w] is a sequence of characters of the class [k]. *)
Inductive word (k : Re.cls) : string -> Prop :=
| word_nil : word k ""
| word_cons (c w : string) : is_char k c -> word k w -> word k (c +:+ w).

(** [<digits>]: one or more decimal digits. *)
Definition digits (d : string) : Prop := d <> "" /\ word Re.CDigit d.

(** [<slug>]: one or more characters other than [/]. *)
Definition slug (w : string) : Prop := w <> "" /\ word (Re.CNot "/") w.

(** [/org/<slug>/<digits>/] somewhere in the URL. *)
Definition org_slug_form (url d : string) : Prop :=
exists pre w post,
  url = pre +:+ "/org/" +:+ w +:+ "/" +:+ d +:+ "/" +:+ post /\ slug w /\ digits d.

(** [/org/<digits>/] somewhere in the URL. *)
Definition org_form (url d : string) : Prop :=
exists pre post, url = pre +:+ "/org/" +:+ d +:+ "/" +:+ post /\ digits d.

(** [/<digits>] at the very end of the URL. *)
Definition tail_form_strict (url d : string) : Prop :=
exists pre, url = pre +:+ "/" +:+ d /\ digits d.

(** [/<digits>], then an optional [/], then the end of the URL or a
  newline that ends it. *)
Definition tail_form (url d : string) : Prop :=
exists pre sl nl,
  url = pre +:+ "/" +:+ d +:+ sl +:+ nl /\ digits d
  /\ (sl = "" \/ sl = "/") /\ (nl = "" \/ nl = String "010" "").

(** The last byte of [s] is [/]. *)
Fixpoint ends_with_slash (s : string) : bool :=
match s with
| EmptyString => false
| String a EmptyString => Ascii.eqb a "/"
| String _ s' => ends_with_slash s'
end.

(** The derivation rule with a given third shape: the first shape, in
  priority order, that the URL has decides the result, which is then a
  digit string in that shape; with none of them the result is empty. *)
Definition derives_by_priority (third : string -> string -> Prop)
  (f : string -> string) : Prop :=
forall url,
  ((exists d, org_slug_form url d) -> org_slug_form url (f url))
  /\ (~ (exists d, org_slug_form url d) ->
      (exists d, org_form url d) -> org_form url (f url))
  /\ (~ (exists d, org_slug_form url d) -> ~ (exists d, org_form url d) ->
      (exists d, third url d) -> third url (f url))
  /\ (~ (exists d, org_slug_form url d) -> ~ (exists d, org_form url d) ->
      ~ (exists d, third url d) -> f url = "").

(** The four URLs of the scenario. *)
Definition scenario_ids (f : string -> string) : Prop :=
f "https://example/maps/org/some-name/123456/" = "123456"
/\ f "https://example/maps/org/123456/" = "123456"
/\ f "https://example/maps/123456" = "123456"
/\ f "https://example/maps/org/some-name/" = "".

(** ** Declarative reading of a pattern

  [matches p s g r]: some way of matching [p] at the start of [s],
  entered with group state [g], ends with group text [r]. *)
Fixpoint matches (p : list Re.atom) (s : string) (g : Re.gstate) (r : string) : Prop :=
match p with
| [] => r = Re.g_text g
| Re.AOne k :: p' =>
    exists c s', s = c +:+ s' /\ is_char k c /\ matches p' s' (Re.push g c) r
| Re.APlus k :: p' =>
    exists w s', w <> "" /\ s = w +:+ s' /\ word k w /\ matches p' s' (Re.push g w) r
| Re.AOpt k :: p' =>
    matches p' s g r
    \/ exists c s', s = c +:+ s' /\ is_char k c /\ matches p' s' (Re.push g c) r
| Re.AOpen :: p' => matches p' s (Re.GState true "") r
| Re.AClose :: p' => matches p' s (Re.GState false (Re.g_text g)) r
| Re.AEnd :: p' => Re.at_end s = true /\ matches p' s g r
end.

End Spec.

(** * Specifications of the job store *)

Module StoreSpec.
Import Store.

(** Every column of a task other than [status], [last_error] and
  [updated_at] is the same in [r'] as in [r]. *)
Definition same_other_columns (r r' : task_row) : Prop :=
t_id r' = t_id r /\ t_manager r' = t_manager r /\ t_region r' = t_region r
/\ t_city r' = t_city r /\ t_mode r' = t_mode r
/\ t_query_key r' = t_query_key r /\ t_query_ru r' = t_query_ru r
/\ t_category_path r' = t_category_path r /\ t_domain_pref r' = t_domain_pref r
/\ t_attempts r' = t_attempts r /\ t_created_at r' = t_created_at r.

(** Nothing but the [tasks] table differs between [s] and [s']. *)
Definition only_tasks_differ (s s' : store) : Prop :=
links s' = links s /\ orgs s' = orgs s /\ org_sources s' = org_sources s
/\ seq_tasks s' = seq_tasks s /\ seq_links s' = seq_links s
/\ seq_sources s' = seq_sources s.

(** [op] overwrites [status], [last_error] and [updated_at] of the task
  [id], whatever they were, and nothing else anywhere. *)
Definition overwrites_status (op : store -> store) (id : Z) (status msg : string)
  (now : timestamp) : Prop :=
forall s,
  only_tasks_differ s (op s)
  /\ length (tasks (op s)) = length (tasks s)
  /\ forall (i : nat) (r : task_row), tasks s !! i = Some r ->
       exists r', tasks (op s) !! i = Some r'
         /\ (t_id r = id ->
               t_status r' = status /\ t_last_error r' = Some msg
               /\ t_updated_at r' = now /\ same_other_columns r r')
         /\ (t_id r <> id -> r' = r).




(** Nothing but the [orgs] table differs between [s] and [s']. *)
Definition only_orgs_differ (s s' : store) : Prop :=
  tasks s' = tasks s /\ links s' = links s /\ org_sources s' = org_sources s
  /\ seq_tasks s' = seq_tasks s /\ seq_links s' = seq_links s
  /\ seq_sources s' = seq_sources s.




(** The link rows with a given organisation id. *)
Definition links_with_org_id (oid : string) (ls : list link_row) : list link_row :=
  List.filter (fun l => String.eqb (l_org_id l) oid) ls.

(** Nothing but the [links] table and its id generator differs. *)
Definition only_links_differ (s s' : store) : Prop :=
  tasks s' = tasks s /\ orgs s' = orgs s /\ org_sources s' = org_sources s
  /\ seq_tasks s' = seq_tasks s /\ seq_sources s' = seq_sources s.

(** [l] was inserted for one of [urls], whose organisation id could be
    derived. *)
Definition inserted_from (task : task_row) (urls : list string) (mode : string)
    (l : link_row) : Prop :=
  exists u, In u urls /\ l_url l = u
    /\ l_org_id l = Utils.org_id_from_url u /\ l_org_id l <> ""
    /\ l_task_id l = t_id task /\ l_source_mode l = mode.

Definition insert_links_correct
    (insert_links : timestamp -> task_row -> list string -> string -> store -> store * Z)
    : Prop :=
  forall (now : timestamp) (task : task_row) (urls : list string) (mode : string)
         (s : store),
    links_unique s ->
    let s' := fst (insert_links now task urls mode s) in
    let n := snd (insert_links now task urls mode s) in
    exists added,
      links s' = (links s ++ added)%list
      /\ n = Z.of_nat (length added)
      /\ Forall (inserted_from task urls mode) added
      /\ links_unique s'
      /\ (forall u, In u urls -> Utils.org_id_from_url u <> "" ->
            length (links_with_org_id (Utils.org_id_from_url u) (links s')) = 1%nat)
      /\ (forall oid, has_org_id oid (links s) = true ->
            links_with_org_id oid (links s') = links_with_org_id oid (links s))
      /\ only_links_differ s s'.

(** The loop of [insert_links], over the INSERT statement it runs. *)
Fixpoint insert_loop
    (ins : timestamp -> task_row -> string -> string -> string -> store -> store * Z)
    (now : timestamp) (task_row : task_row) (urls : list string)
    (source_mode : string) (s : store) (inserted : Z) : store * Z :=
  match urls with
  | [] => (s, inserted)
  | u :: urls' =>
      let oid := Utils.org_id_from_url u in
      if PyStr.is_empty oid then
        insert_loop ins now task_row urls' source_mode s inserted
      else
        let '(s', rowcount) := ins now task_row oid u source_mode s in
        insert_loop ins now task_row urls' source_mode s'
          (if rowcount =? 1 then inserted + 1 else inserted)
  end.

(** What both INSERT statements do to [links]. *)
Definition insert_unless_present
    (ins : timestamp -> task_row -> string -> string -> string -> store -> store * Z)
    : Prop :=
  forall now task oid u mode s,
    only_links_differ s (fst (ins now task oid u mode s))
    /\ ((has_org_id oid (links s) = true
         /\ links (fst (ins now task oid u mode s)) = links s
         /\ snd (ins now task oid u mode s) = 0)
        \/ (has_org_id oid (links s) = false
            /\ links (fst (ins now task oid u mode s))
               = (links s ++ [new_link (seq_links s + 1) now task oid u mode])%list
            /\ snd (ins now task oid u mode s) = 1)).

(** A task row as [pick_next_task_for_links] hands it to the worker, and
    an organisation as the enrichment step produces it. *)
Definition claimed_task : task_row :=
  {| t_id := 7; t_manager := "m"; t_region := "r"; t_city := "Minsk";
     t_mode := "LINKS_MAPSCAN_SEARCH"; t_query_key := "A"; t_query_ru := "cafe";
     t_category_path := ""; t_domain_pref := "auto";
     t_status := "RUNNING"; t_attempts := 1; t_last_error := None;
     t_created_at := 100; t_updated_at := 110 |}.

Definition cafe_org : gmap string string :=
  list_to_map [("org_id", "123456"); ("name", "Cafe"); ("phone", "+375 17 000")].

(** A task as [build_tasks] produces it. *)
Definition cafe_task : gmap string string :=
  list_to_map [("manager", "m"); ("region", "r"); ("city", "Minsk");
               ("mode", "LINKS_MAPSCAN_SEARCH"); ("query_key", "A");
               ("query_ru", "cafe"); ("category_path", "");
               ("domain_pref", "auto")].

(** A task that failed three times. *)
Definition failed_task : task_row :=
{| t_id := 1; t_manager := "m"; t_region := "r"; t_city := "Minsk";
   t_mode := "LINKS_SEARCH"; t_query_key := "A"; t_query_ru := "cafe";
   t_category_path := ""; t_domain_pref := "auto";
   t_status := "ERROR"; t_attempts := 3; t_last_error := Some "links: boom";
   t_created_at := 100; t_updated_at := 130 |}.

Definition store_with_failed_task : store := MkStore [failed_task] [] [] [] 1 0 0.

End StoreSpec.

(** * Specifications of the harvesting loop *)

Module CollectorSpec.
Import LinkCollector.

Section Spec.

Variable str_lower : string -> string.
Variable url_base : string -> option string.
Variable urljoin : string -> string -> option string.

(** Passes [0 .. n-1] show no captcha and the driver raises nothing outside
    the [try] blocks. *)
Definition quiet (d : session) (n : nat) : Prop :=
  forall i, (i < n)%nat ->
    is_captcha str_lower (d i) = Returns false
    /\ exists items, p_anchors (d i) = Returns items.

(** The number of passes, counted back from pass [k], over which the
    accumulated set did not grow. *)
Fixpoint idle_run (d : session) (k : nat) : Z :=
  match k with
  | O => 0
  | S k' =>
      if Z.of_nat (size (seen url_base urljoin d (S k')))
         =? Z.of_nat (size (seen url_base urljoin d k'))
      then idle_run d k' + 1 else 0
  end.

(** The loop variables after [k] passes. *)
Definition vars_at (d : session) (k : nat) : vars :=
  Vars (seen url_base urljoin d k) (idle_run d k)
       (Z.of_nat (size (seen url_base urljoin d k))).

End Spec.

(** A mocked session: the result list shows one more organisation on each
    of the first three passes and nothing new afterwards. *)
Definition mock_anchor (href : string) : anchor :=
  Anchor (Returns (Some href)) (Returns (Some "https://yandex.by/maps/157/minsk/search/cafe/")).

Definition mock_hrefs : list string :=
  ["https://yandex.by/maps/org/a/101/?from=list";
   "https://yandex.by/maps/org/b/102/";
   "https://yandex.by/maps/org/c/103/"].

Definition mock_session : session :=
  fun i =>
    Page (Returns (Some "https://yandex.by/maps/157/minsk/search/cafe/"))
         (Returns (Some "Cafe in Minsk"))
         (Returns (List.map mock_anchor (firstn (S i) mock_hrefs))).

(** The same session, with a captcha page from the third pass on. *)
Definition mock_captcha_session : session :=
  fun i =>
    if (i <? 2)%nat then mock_session i
    else Page (Returns (Some "https://yandex.by/showcaptcha?retpath=x"))
              (Returns (Some "Are you a robot?"))
              (Returns []).

(** Stand-ins for [urllib.parse] on absolute [http(s)] URLs. *)
Definition mock_url_base (u : string) : option string := Some "https://yandex.by/".
Definition mock_urljoin (base href : string) : option string := Some href.

End CollectorSpec.

(** * Two concurrent callers: what each one holds *)

Module ConcurrentSpec.
Import Store Concurrent.

(** The task a PostgreSQL caller has locked or has been handed. *)
Definition pg_held (pc : pg_pc) : option Z :=
  match pc with
  | PgLocked r => Some (t_id r)
  | PgReturned (Some r) => Some (t_id r)
  | _ => None
  end.

(** Every row of a task that was handed out is RUNNING. *)
Definition pg_settled (s : store) (pc : pg_pc) : Prop :=
  match pc with
  | PgReturned (Some r) =>
      forall row, In row (tasks s) -> t_id row = t_id r -> t_status row = "RUNNING"
  | _ => True
  end.

(** The invariant of the two-caller system. *)
Definition pg_inv (sys : pg_system) : Prop :=
  let '(s, a, b) := sys in
  pg_settled s a /\ pg_settled s b
  /\ forall i j, pg_held a = Some i -> pg_held b = Some j -> i <> j.

End ConcurrentSpec.

(** * Further specifications of the job store *)

Module StoreSpec2.
Import Store.

(** The rows [add_tasks] appends for the dicts [ts], ids counted up from
    [id]. *)
Fixpoint new_tasks_from (id : Z) (now : timestamp) (ts : list (gmap string string))
    : list task_row :=
  match ts with
  | [] => []
  | t :: ts' => new_task id now t :: new_tasks_from (id + 1) now ts'
  end.

(** Nothing but [tasks] and its id generator differs. *)
Definition only_tasks_grow (s s' : store) : Prop :=
  links s' = links s /\ orgs s' = orgs s /\ org_sources s' = org_sources s
  /\ seq_links s' = seq_links s /\ seq_sources s' = seq_sources s.


(** The status lets the task be claimed. *)
Definition open_status (r : task_row) : bool :=
  String.eqb (t_status r) "PENDING" || String.eqb (t_status r) "RETRY".

(** A task none of whose rows is open with attempts left is not handed
    out. *)
Definition never_returns
    (pick : Z -> timestamp -> store -> store * option task_row) : Prop :=
  forall (max : Z) (now : timestamp) (s : store) (id : Z),
    (forall x, In x (tasks s) -> t_id x = id ->
       open_status x = false \/ max <= t_attempts x) ->
    forall r, snd (pick max now s) = Some r -> t_id r <> id.

(** Once handed out, a task is not handed out again: neither right away
    nor after the worker has recorded its outcome. *)
Definition stays_claimed
    (pick : Z -> timestamp -> store -> store * option task_row)
    (done : Z -> Z -> timestamp -> store -> store)
    (waitcaptcha error : Z -> string -> string -> timestamp -> store -> store) : Prop :=
  forall (max : Z) (now : timestamp) (s s1 : store) (r : task_row),
    pick max now s = (s1, Some r) ->
    (forall max' now' r', snd (pick max' now' s1) = Some r' -> t_id r' <> t_id r)
    /\ (forall inserted t max' now' r',
          snd (pick max' now' (done (t_id r) inserted t s1)) = Some r' ->
          t_id r' <> t_id r)
    /\ (forall err worker t max' now' r',
          snd (pick max' now' (waitcaptcha (t_id r) err worker t s1)) = Some r' ->
          t_id r' <> t_id r)
    /\ (forall err worker t max' now' r',
          snd (pick max' now' (error (t_id r) err worker t s1)) = Some r' ->
          t_id r' <> t_id r).

(** A retried task can be claimed again: some task with an id not above
    its id is handed out. *)
Definition reclaimable_after_retry
    (pick : Z -> timestamp -> store -> store * option task_row)
    (retry : Z -> timestamp -> store -> store)
    (eligible : Z -> task_row -> Prop) : Prop :=
  forall (max : Z) (now now' : timestamp) (s : store) (x : task_row),
    In x (tasks s) -> eligible max x ->
    exists r, snd (pick max now' (retry (t_id x) now s)) = Some r /\ t_id r <= t_id x.

(** What [add_tasks] does. *)
Definition appends_tasks
    (add_tasks : timestamp -> list (gmap string string) -> store -> store * Z) : Prop :=
  forall (now : timestamp) (ts : list (gmap string string)) (s : store),
    let s' := fst (add_tasks now ts s) in
    snd (add_tasks now ts s) = Z.of_nat (length ts)
    /\ tasks s' = (tasks s ++ new_tasks_from (seq_tasks s + 1) now ts)%list
    /\ seq_tasks s' = seq_tasks s + Z.of_nat (length ts)
    /\ only_tasks_grow s s'
    /\ (tasks_keyed s -> tasks_keyed s').

(** What [delete_task] does. *)
Definition deletes_task (delete_task : Z -> store -> store) : Prop :=
  forall (id : Z) (s : store),
    let s' := delete_task id s in
    (* nothing refers to the task any more *)
    (forall r, In r (tasks s') -> t_id r <> id)
    /\ (forall l, In l (links s') -> l_task_id l <> id)
    /\ (forall x, In x (org_sources s') -> s_task_id x <> id)
    (* the rows of other tasks are exactly the ones kept *)
    /\ (forall r, In r (tasks s') <-> In r (tasks s) /\ t_id r <> id)
    /\ (forall l, In l (links s') <-> In l (links s) /\ l_task_id l <> id)
    /\ (forall x, In x (org_sources s') <-> In x (org_sources s) /\ s_task_id x <> id)
    (* organisations and id generators are not touched *)
    /\ orgs s' = orgs s
    /\ seq_tasks s' = seq_tasks s /\ seq_links s' = seq_links s
    /\ seq_sources s' = seq_sources s
    (* an id nothing refers to: no change *)
    /\ ((forall r, In r (tasks s) -> t_id r <> id) ->
        (forall l, In l (links s) -> l_task_id l <> id) ->
        (forall x, In x (org_sources s) -> s_task_id x <> id) ->
        s' = s)
    /\ delete_task id s' = s'
    /\ (tasks_keyed s -> tasks_keyed s')
    /\ (links_unique s -> links_unique s').

(** The number of tasks with a given status. *)
Definition count_status (st : string) (rows : list task_row) : Z :=
  Z.of_nat (length (List.filter (fun r => String.eqb (t_status r) st) rows)).

(** What [fetch_next_link] returns. *)
Definition fetches_oldest_unresolved (fetch : store -> option link_row) : Prop :=
  forall s : store,
    match fetch s with
    | Some l =>
        In l (links s) /\ has_org (l_org_id l) (orgs s) = false
        /\ forall l', In l' (links s) -> has_org (l_org_id l') (orgs s) = false ->
              l_id l <= l_id l'
    | None => forall l, In l (links s) -> has_org (l_org_id l) (orgs s) = true
    end.

(** Resolving a link: an upsert of the organisation of an unresolved link
    takes that link, and no other, out of the pending ones. *)
Definition upsert_resolves
    (upsert : timestamp -> gmap string string -> store -> store)
    (fetch : store -> option link_row) (stats : store -> stats_row) : Prop :=
  forall (now : timestamp) (org : gmap string string) (s : store) (l : link_row),
    links_unique s ->
    In l (links s) -> has_org (l_org_id l) (orgs s) = false ->
    dict_get org "org_id" "" = l_org_id l ->
    let s' := upsert now org s in
    st_pending_orgs (stats s') = st_pending_orgs (stats s) - 1
    /\ st_total_links (stats s') = st_total_links (stats s)
    /\ st_total_orgs (stats s') = st_total_orgs (stats s) + 1
    /\ fetch s' <> Some l
    /\ (forall l', In l' (links s) -> l' <> l ->
          has_org (l_org_id l') (orgs s') = has_org (l_org_id l') (orgs s)).

(** A store with one unresolved link of the claimed task. *)
Definition store_with_link : store :=
  MkStore [StoreSpec.claimed_task]
    [new_link 1 120 StoreSpec.claimed_task "123456"
       "https://yandex.by/maps/org/cafe/123456/" "LINKS_MAPSCAN_SEARCH"]
    [] [] 7 1 0.

(** What [stats] reports. *)
Definition reports_counts (stats : store -> stats_row)
    (fetch : store -> option link_row) : Prop :=
  forall (s : store),
    (forall st : string,
       st_tasks (stats s) !! st
       = if count_status st (tasks s) =? 0 then None
         else Some (count_status st (tasks s)))
    /\ st_total_links (stats s) = Z.of_nat (length (links s))
    /\ st_total_orgs (stats s) = Z.of_nat (length (orgs s))
    /\ 0 <= st_pending_orgs (stats s) <= st_total_links (stats s)
    /\ (st_pending_orgs (stats s) = 0 <-> fetch s = None).

(** Newest first: ids do not increase along the list. *)
Definition newest_first (rows : list task_listing) : Prop :=
  StronglySorted (fun a b => li_id b <= li_id a) rows.

(** [rows] are the [n] newest tasks of [s] (all of them when there are
    fewer), newest first: together with some older rows [rest] they are
    the listings of all tasks. *)
Definition newest_tasks (n : nat) (s : store) (rows : list task_listing) : Prop :=
  newest_first rows
  /\ length rows = Nat.min n (length (tasks s))
  /\ exists rest,
       Permutation (List.map listing_of (tasks s)) (rows ++ rest)
       /\ forall x y, In x rows -> In y rest -> li_id y <= li_id x.

End StoreSpec2.

(** * Specifications of the worker loops *)

Module PipelineSpec.
Import Store Pipeline.

(** A [links_fn] that writes no task row (the one of [app/main.py] only
    inserts links). *)
Definition leaves_tasks
    (links_fn : handle -> task_row -> store -> result Z * store) : Prop :=
  forall h t s, tasks (snd (links_fn h t s)) = tasks s.

(** The rows of task [id] were claimed at [t_pick] and closed with
    [status] at [t_end]; every other row is as it was. *)
Definition ended (id : Z) (status : string) (t_pick t_end : timestamp)
    (s s' : store) : Prop :=
  exists msg,
    tasks s'
    = List.map (fun x => if t_id x =? id
                         then set_status_error status msg t_end (set_running t_pick x)
                         else x) (tasks s).

(** How an iteration that took a task can end: the status it leaves and
    the seconds it sleeps. *)
Definition outcomes : list (string * Z) :=
  [("DONE", 0); ("WAITCAPTCHA", 8); ("ERROR", 2)].

(** What one iteration of the links worker does. *)
Definition links_iteration_outcome (db : db_api) (where_ : Z -> task_row -> bool) : Prop :=
  forall max links_fn make_driver t_pick t_end w w' ev,
    leaves_tasks links_fn ->
    links_iteration db max links_fn make_driver t_pick t_end w = (w', ev) ->
    match ev_taken ev with
    | None =>
        w' = w /\ ev_sleep ev = 1
        /\ forall r, In r (tasks (w_store w)) -> where_ max r = false
    | Some id =>
        (exists r0, In r0 (tasks (w_store w)) /\ t_id r0 = id /\ where_ max r0 = true)
        /\ (forall r, In r (tasks (w_store w)) -> where_ max r = true -> id <= t_id r)
        /\ exists status,
             In (status, ev_sleep ev) outcomes
             /\ ended id status t_pick t_end (w_store w) (w_store w')
             /\ forall h, w_driver w = Some h ->
                  w_driver w' = Some h \/ (w_driver w' = None /\ status = "ERROR")
    end.

(** The ids of the tasks a run took, in the order it took them. *)
Definition taken (evs : list event) : list Z := omap ev_taken evs.

Definition final_status (st : string) : Prop :=
  st = "DONE" \/ st = "WAITCAPTCHA" \/ st = "ERROR".

(** What a run of the links worker does to the tasks. *)
Definition links_worker_outcome (db : db_api) : Prop :=
  forall max links_fn ticks w w' evs,
    leaves_tasks links_fn ->
    links_worker db max links_fn ticks w = (w', evs) ->
    StronglySorted Z.lt (taken evs)
    /\ forall (i : nat) (x : task_row), tasks (w_store w) !! i = Some x ->
         exists x', tasks (w_store w') !! i = Some x'
           /\ t_id x' = t_id x
           /\ if bool_decide (t_id x ∈ taken evs)
              then final_status (t_status x') /\ t_attempts x' = t_attempts x + 1
              else x' = x.

(** Two pending tasks, a worker with no browser session yet, and a
    [links_fn] whose harvest is one organisation URL. *)
Definition two_tasks : store :=
  MkStore [new_task 1 100 StoreSpec.cafe_task; new_task 2 100 StoreSpec.cafe_task]
    [] [] [] 2 0 0.

Definition idle_worker : worker := Worker two_tasks None.

Definition cafe_links_fn : handle -> task_row -> store -> result Z * store :=
  AppStart.links_fn SQLiteDB.insert_links
    (fun _ _ => Ok ["https://yandex.by/maps/org/cafe/123456/"]) 115.

(** Every link row carries the organisation id of its own URL, and that id
    is not empty: what [insert_links] writes. *)
Definition links_derived (s : store) : Prop :=
  forall l, In l (links s) ->
    l_org_id l = Utils.org_id_from_url (l_url l) /\ l_org_id l <> "".

(** The iteration wrote nothing after the exception [e], so the same link
    comes next.  After a captcha the worker keeps the session [kept] and
    sleeps 8 s; after any other exception it drops its session and sleeps
    2 s. *)
Definition retries (db : db_api) (l : link_row) (e : exn) (kept : option handle)
    (w w' : worker) (ev : event) : Prop :=
  w_store w' = w_store w
  /\ db_fetch_next_link db (w_store w') = Some l
  /\ match e_class e with
     | IsCaptchaError => ev_sleep ev = 8 /\ w_driver w' = kept
     | _ => ev_sleep ev = 2 /\ w_driver w' = None
     end.

(** The organisation row for the card [c] read at the URL of [l]. *)
Definition card_row (l : link_row) (c : AppStart.card) (t : timestamp) : org_row :=
  {| o_org_id := l_org_id l;
     o_name := AppStart.c_name c;
     o_address := AppStart.c_address c;
     o_website := AppStart.c_website c;
     o_ypage := PyStr.before_first "?" (l_url l);
     o_phone := AppStart.c_phone c;
     o_social := AppStart.c_social c;
     o_updated_at := t |}.

(** The card [c] was read in session [h]: its row is stored, one
    provenance row for the link is appended, the link is pending no more,
    the session is kept and the worker does not sleep. *)
Definition resolves (db : db_api) (stats : store -> stats_row) (l : link_row)
    (c : AppStart.card) (h : handle) (t_org t_source : timestamp)
    (w w' : worker) (ev : event) : Prop :=
  ev_sleep ev = 0
  /\ w_driver w' = Some h
  /\ orgs (w_store w') = (orgs (w_store w) ++ [card_row l c t_org])%list
  /\ org_sources (w_store w')
     = (org_sources (w_store w)
        ++ [new_source (seq_sources (w_store w) + 1) t_source (l_org_id l) l
              (l_source_mode l)])%list
  /\ tasks (w_store w') = tasks (w_store w)
  /\ links (w_store w') = links (w_store w)
  /\ st_pending_orgs (stats (w_store w')) = st_pending_orgs (stats (w_store w)) - 1
  /\ db_fetch_next_link db (w_store w') <> Some l.

(** What one iteration of the info worker does with the pending link [l],
    for the [info_fn] of [app/main.py]: which of the three ways it ends is
    decided by [make_driver] and by the browser. *)
Definition info_iteration_outcome (db : db_api) (stats : store -> stats_row) : Prop :=
  forall visit make_driver t_org t_source w w' ev l,
    links_unique (w_store w) -> links_derived (w_store w) ->
    db_fetch_next_link db (w_store w) = Some l ->
    info_iteration db (AppStart.info_fn visit) make_driver t_org t_source w = (w', ev) ->
    ev_taken ev = Some (l_id l)
    /\ (forall e,
          ensure_driver make_driver w = Err e ->
          retries db l e (w_driver w) w w' ev)
    /\ (forall h e,
          ensure_driver make_driver w = Ok h -> visit h (l_url l) = Err e ->
          retries db l e (Some h) w w' ev)
    /\ (forall h c,
          ensure_driver make_driver w = Ok h -> visit h (l_url l) = Ok c ->
          resolves db stats l c h t_org t_source w w' ev).

(** A worker whose store holds one pending link, and a browser that shows
    a card. *)
Definition link_worker : worker := Worker StoreSpec2.store_with_link None.

Definition cafe_card : AppStart.card :=
  AppStart.Card "Cafe" "Minsk" "" "+375 17 000" "".

Definition cafe_visit : handle -> string -> result AppStart.card :=
  fun _ _ => Ok cafe_card.

Definition cafe_link : link_row :=
  new_link 1 120 StoreSpec.claimed_task "123456"
    "https://yandex.by/maps/org/cafe/123456/" "LINKS_MAPSCAN_SEARCH".

End PipelineSpec.

(** * Specifications of the map scan and of the harvest of one task *)

Module CollectorSpec2.
Import LinkCollector.

(** The gesture presses at the point [(cx, cy)] of the container. *)
Definition starts_at (cx cy : Z) (g : gesture) : Prop :=
  match g with
  | Click x y => x = cx /\ y = cy
  | Drag x y _ _ => x = cx /\ y = cy
  end.

Definition is_drag (g : gesture) : bool :=
  match g with Drag _ _ _ _ => true | Click _ _ => false end.

(** The offsets of the map, in pixels, at which the gestures leave it:
    the offset [p] it starts from, then the one after each drag. *)
Fixpoint track (p : Z * Z) (gs : list gesture) : list (Z * Z) :=
  match gs with
  | [] => [p]
  | Click _ _ :: gs' => track p gs'
  | Drag _ _ dx dy :: gs' => p :: track (fst p + dx, snd p + dy) gs'
  end.

(** The offset of the cell in column [c] and row [r] of the scanned
    grid. *)
Definition cell (step_px c r : Z) : Z * Z := (- c * step_px, - r * step_px).

(** The cells of a [grid] x [grid] scan, row by row. *)
Definition grid_cells (step_px grid : Z) : list (Z * Z) :=
  seqZ 0 grid ≫= (fun r => (fun c => cell step_px c r) <$> seqZ 0 grid).

(** A harvested URL: not empty, and cut before any query string. *)
Definition clean_url (u : string) : Prop :=
  u <> "" /\ PyStr.contains "?" u = false.

(** Some non-empty exclude text occurs in [u], case ignored. *)
Definition excluded_by (str_lower : string -> string) (excludes : list string)
    (u : string) : Prop :=
  exists ex, In ex excludes /\ str_lower ex <> ""
             /\ PyStr.contains (str_lower ex) (str_lower u) = true.

End CollectorSpec2.

(** * Specifications of the task list built from the configuration *)

Module ConfigSpec.
Import Store.

(** A search task: no category, a query; a category task: the reverse.
    The harvest opens the category URL exactly for the second kind. *)
Definition well_formed_task (t : gmap string string) : Prop :=
  (PyStr.contains "CATEGORY" (dict_get t "mode" "") = false
   /\ dict_get t "query_key" "" = "A"
   /\ dict_get t "query_ru" "" <> "" /\ dict_get t "category_path" "" = "")
  \/ (PyStr.contains "CATEGORY" (dict_get t "mode" "") = true
      /\ dict_get t "query_key" "" = "B"
      /\ dict_get t "query_ru" "" = "" /\ dict_get t "category_path" "" <> "").

(** Once stored, the task passes the WHERE clause of both backends. *)
Definition claimable_when_stored (t : gmap string string) : Prop :=
  forall id now max, 0 < max ->
    SQLiteDB.where_pick max (new_task id now t) = true
    /\ PostgresDB.where_pick max (new_task id now t) = true.

(** A configuration of one city, two requests (one blank) and two
    categories (one disabled). *)
Definition minsk : gmap string string :=
  list_to_map [("manager", "m"); ("region", "r"); ("city", "Minsk")].

Definition sample_requests : list (gmap string string) :=
  [list_to_map [("query_ru", "cafe")]; list_to_map [("query_ru", "")]].

Definition sample_categories : list ConfigLoader.category :=
  [ConfigLoader.Category (Some "/cafe/") (Some true);
   ConfigLoader.Category (Some "bars") (Some false)].

(** A pending task whose mode holds MAPSCAN but does not start with
    LINKS. *)
Definition mapscan_only_task : task_row :=
  new_task 1 100 (<["mode" := "MAPSCAN_SEARCH"]> StoreSpec.cafe_task).

End ConfigSpec.

(** * Strings *)

Section StringFacts.

Lemma app_nil_l (s : string) : "" +:+ s = s.
Proof. reflexivity. Qed.

Lemma app_cons (a : ascii) (s t : string) : String a s +:+ t = String a (s +:+ t).
Proof. reflexivity. Qed.

Lemma app_nil_r (s : string) : s +:+ "" = s.
Proof. induction s as [|a s IH]; [reflexivity|]. rewrite app_cons, IH. reflexivity. Qed.

Lemma app_assoc (s t u : string) : (s +:+ t) +:+ u = s +:+ t +:+ u.
Proof.
  induction s as [|a s IH]; [reflexivity|].
  rewrite !app_cons, IH. reflexivity.
Qed.

Lemma app_eq_nil (s t : string) : s +:+ t = "" -> s = "" /\ t = "".
Proof. destruct s; [rewrite app_nil_l; auto | rewrite app_cons; discriminate]. Qed.

End StringFacts.


(** * The characters of a text *)

Section Characters.
Import PyStr Re Spec.

Lemma app_length (s t : string) :
  String.length (s +:+ t) = (String.length s + String.length t)%nat.
Proof.
  induction s as [|a s IH]; [reflexivity|]. rewrite app_cons. simpl. rewrite IH. reflexivity.
Qed.

(** What [first_char] returns is a prefix of the text, and a character
    on its own. *)
Lemma first_char_sound s n c s' :
  first_char s = Some (n, c, s') ->
  s = c +:+ s' /\ first_char c = Some (n, c, "") /\ c <> "".
Proof.
  unfold first_char. intros H.
  destruct s as [|a s1]; [discriminate|].
  destruct (cp1 a) as [n1|] eqn:E1.
  { inversion H; subst. cbn. rewrite E1. repeat split; discriminate. }
  destruct s1 as [|b s2]; [discriminate|].
  destruct (cp2 a b) as [n2|] eqn:E2.
  { inversion H; subst. cbn. rewrite E1, E2. repeat split; discriminate. }
  destruct s2 as [|c0 s3]; [discriminate|].
  destruct (cp3 a b c0) as [n3|] eqn:E3.
  { inversion H; subst. cbn. rewrite E1, E2, E3. repeat split; discriminate. }
  destruct s3 as [|d s4]; [discriminate|].
  destruct (cp4 a b c0 d) as [n4|] eqn:E4; [|discriminate].
  inversion H; subst. cbn. rewrite E1, E2, E3, E4. repeat split; discriminate.
Qed.

(** A character is read the same whatever follows it. *)
Lemma first_char_complete c n s' :
  first_char c = Some (n, c, "") -> first_char (c +:+ s') = Some (n, c, s').
Proof.
  unfold first_char. intros H.
  destruct c as [|a s1]; [discriminate|]. rewrite app_cons.
  destruct (cp1 a) as [n1|] eqn:E1.
  { inversion H; subst. reflexivity. }
  destruct s1 as [|b s2]; [discriminate|]. rewrite app_cons.
  destruct (cp2 a b) as [n2|] eqn:E2.
  { inversion H; subst. reflexivity. }
  destruct s2 as [|c0 s3]; [discriminate|]. rewrite app_cons.
  destruct (cp3 a b c0) as [n3|] eqn:E3.
  { inversion H; subst. reflexivity. }
  destruct s3 as [|d s4]; [discriminate|]. rewrite app_cons.
  destruct (cp4 a b c0 d) as [n4|] eqn:E4; [|discriminate].
  inversion H; subst. reflexivity.
Qed.

Lemma take_sound k s c s' :
  take k s = Some (c, s') -> s = c +:+ s' /\ is_char k c /\ c <> "".
Proof.
  unfold is_char, take. intros H.
  destruct (first_char s) as [[[n c0] s0]|] eqn:E; [|discriminate].
  destruct (in_cls k n) eqn:Ek; [|discriminate]. inversion H; subst.
  apply first_char_sound in E as (-> & E & Hne).
  rewrite E, Ek. auto.
Qed.

Lemma take_complete k c s' : is_char k c -> take k (c +:+ s') = Some (c, s').
Proof.
  unfold is_char, take. intros H.
  destruct (first_char c) as [[[n c0] s0]|] eqn:E; [|discriminate].
  destruct (in_cls k n) eqn:Ek; [|discriminate]. inversion H; subst.
  rewrite (first_char_complete _ _ s' E), Ek. reflexivity.
Qed.

Lemma is_char_nonempty k c : is_char k c -> c <> "".
Proof. intros H ->. discriminate H. Qed.

(** A code point below 128 is encoded by one byte only. *)
Lemma cp2_ge a b n : cp2 a b = Some n -> (128 <= n)%N.
Proof.
  unfold cp2. destruct (cont b && _) eqn:E; [|discriminate]. intros H. inversion H.
  apply andb_prop in E as [_ E]. apply andb_prop in E as [E _]. apply N.leb_le in E. lia.
Qed.

Lemma cp3_ge a b c n : cp3 a b c = Some n -> (128 <= n)%N.
Proof.
  unfold cp3. destruct (cont c && cont b && _); [|discriminate]. cbv zeta.
  destruct (_ && negb _)%N eqn:E; [|discriminate]. intros H. inversion H; subst.
  apply andb_prop in E as [E _]. apply N.leb_le in E. lia.
Qed.

Lemma cp4_ge a b c d n : cp4 a b c d = Some n -> (128 <= n)%N.
Proof.
  unfold cp4. destruct (cont d && cont c && cont b && _); [|discriminate]. cbv zeta.
  destruct ((_ <=? _) && _)%N eqn:E; [|discriminate]. intros H. inversion H; subst.
  apply andb_prop in E as [E _]. apply N.leb_le in E. lia.
Qed.

Lemma byte_inj a b : byte a = byte b -> a = b.
Proof.
  unfold byte. intros H. rewrite <- (ascii_N_embedding a), <- (ascii_N_embedding b), H.
  reflexivity.
Qed.

(** The one character with the code point of an ASCII character is that
    character. *)
Lemma first_char_ascii c a :
  (byte a < 128)%N -> first_char c = Some (byte a, c, "") -> c = String a "".
Proof.
  unfold first_char. intros Ha H.
  destruct c as [|x s1]; [discriminate|].
  destruct (cp1 x) as [n1|] eqn:E1.
  { inversion H; subst. unfold cp1 in E1. destruct (byte x <? 128)%N; [|discriminate].
    inversion E1 as [E]. apply byte_inj in E. subst. reflexivity. }
  destruct s1 as [|y s2]; [discriminate|].
  destruct (cp2 x y) as [n2|] eqn:E2.
  { inversion H; subst. apply cp2_ge in E2. lia. }
  destruct s2 as [|z s3]; [discriminate|].
  destruct (cp3 x y z) as [n3|] eqn:E3.
  { inversion H; subst. apply cp3_ge in E3. lia. }
  destruct s3 as [|u s4]; [discriminate|].
  destruct (cp4 x y z u) as [n4|] eqn:E4; [|discriminate].
  inversion H; subst. apply cp4_ge in E4. lia.
Qed.

Lemma is_char_literal a c : (byte a < 128)%N -> is_char (CChar a) c -> c = String a "".
Proof.
  unfold is_char, take. intros Ha H.
  destruct (first_char c) as [[[n c0] s0]|] eqn:E; [|discriminate].
  destruct (in_cls (CChar a) n) eqn:Ek; [|discriminate]. inversion H; subst.
  apply N.eqb_eq in Ek. subst n. apply (first_char_ascii _ _ Ha E).
Qed.

Lemma is_char_literal_refl a : (byte a < 128)%N -> is_char (CChar a) (String a "").
Proof.
  unfold is_char, take, first_char, cp1. intros Ha. apply N.ltb_lt in Ha. rewrite Ha.
  cbn [in_cls]. rewrite N.eqb_refl. reflexivity.
Qed.

(** A character never ends with the byte [/], unless it is [/]. *)
Lemma cont_not_slash a : cont a = true -> Ascii.eqb a "/" = false.
Proof.
  intros H. destruct (Ascii.eqb a "/") eqn:E; [|reflexivity].
  apply Ascii.eqb_eq in E. subst a. discriminate H.
Qed.

Lemma digit_char_end c : is_char CDigit c -> ends_with_slash c = false.
Proof.
  unfold is_char, take, first_char. intros H.
  destruct c as [|x s1]; [discriminate|].
  destruct (cp1 x) as [n1|] eqn:E1.
  { destruct (in_cls CDigit n1) eqn:Ek; [|discriminate]. inversion H; subst.
    cbn [ends_with_slash]. destruct (Ascii.eqb x "/") eqn:E; [|reflexivity].
    apply Ascii.eqb_eq in E. subst x. vm_compute in E1. inversion E1; subst.
    vm_compute in Ek. discriminate Ek. }
  destruct s1 as [|y s2]; [discriminate|].
  destruct (cp2 x y) as [n2|] eqn:E2.
  { destruct (in_cls CDigit n2); [|discriminate]. inversion H; subst.
    cbn [ends_with_slash]. apply cont_not_slash.
    unfold cp2 in E2. destruct (cont y); [reflexivity | discriminate]. }
  destruct s2 as [|z s3]; [discriminate|].
  destruct (cp3 x y z) as [n3|] eqn:E3.
  { destruct (in_cls CDigit n3); [|discriminate]. inversion H; subst.
    cbn [ends_with_slash]. apply cont_not_slash.
    unfold cp3 in E3. destruct (cont z); [reflexivity | discriminate]. }
  destruct s3 as [|u s4]; [discriminate|].
  destruct (cp4 x y z u) as [n4|] eqn:E4; [|discriminate].
  destruct (in_cls CDigit n4); [|discriminate]. inversion H; subst.
  cbn [ends_with_slash]. apply cont_not_slash.
  unfold cp4 in E4. destruct (cont u); [reflexivity | discriminate].
Qed.

End Characters.

(** * The matcher against the declarative reading of patterns *)

Section MatcherCorrect.
Import Re Spec.

Lemma push_nil g : push g "" = g.
Proof. unfold push. destruct g as [[|] t]; simpl; [rewrite app_nil_r|]; reflexivity. Qed.

Lemma push_closed g w : g_open g = false -> push g w = g.
Proof. unfold push. intros ->. reflexivity. Qed.

Lemma push_open t w : push (GState true t) w = GState true (t +:+ w).
Proof. reflexivity. Qed.

Lemma push_app g v w : push (push g v) w = push g (v +:+ w).
Proof.
  unfold push. destruct (g_open g) eqn:E; simpl; [|rewrite E; reflexivity].
  rewrite app_assoc. reflexivity.
Qed.

Lemma word_nonempty k w : word k w -> w <> "" ->
  exists c w', w = c +:+ w' /\ is_char k c /\ word k w'.
Proof. intros [|c w' Hc Hw] Hne; [congruence | eauto]. Qed.

(** Whatever [more] returns comes from [cont] after some more characters
    of the class. *)
Lemma more_sound k cont fuel : forall s g r,
  more fuel k cont s g = Some r ->
  exists w s', s = w +:+ s' /\ word k w /\ cont s' (push g w) = Some r.
Proof.
  induction fuel as [|fuel IH]; intros s g r H; simpl in H.
  - exists "", s. rewrite push_nil. split; [reflexivity|]. split; [constructor | exact H].
  - destruct (take k s) as [[c s1]|] eqn:Ht.
    + destruct (more fuel k cont s1 (push g c)) as [r'|] eqn:Hm.
      * inversion H; subst r'. apply take_sound in Ht as (-> & Hc & _).
        destruct (IH _ _ _ Hm) as (w & s' & -> & Hw & Hk).
        exists (c +:+ w), s'. rewrite app_assoc, <- push_app.
        split; [reflexivity|]. split; [constructor; assumption | exact Hk].
      * exists "", s. rewrite push_nil.
        split; [reflexivity|]. split; [constructor | exact H].
    + exists "", s. rewrite push_nil. split; [reflexivity|]. split; [constructor | exact H].
Qed.

(** Where [cont] succeeds, [more] succeeds. *)
Lemma more_cont k cont fuel s g :
  is_Some (cont s g) -> is_Some (more fuel k cont s g).
Proof.
  intros Hc. destruct fuel as [|fuel]; simpl; [exact Hc|].
  destruct (take k s) as [[c s1]|]; [|exact Hc].
  destruct (more fuel k cont s1 (push g c)); [eauto | exact Hc].
Qed.

(** If [cont] succeeds after some characters of the class, [more]
    succeeds as well, given fuel for the text. *)
Lemma more_complete k cont w : word k w -> forall s' g fuel,
  is_Some (cont s' (push g w)) ->
  (String.length (w +:+ s') <= fuel)%nat ->
  is_Some (more fuel k cont (w +:+ s') g).
Proof.
  induction 1 as [|c w Hc Hw IH]; intros s' g fuel Hk Hf.
  - rewrite push_nil in Hk. apply more_cont, Hk.
  - rewrite app_assoc in Hf |- *. rewrite app_length in Hf.
    pose proof (is_char_nonempty _ _ Hc) as Hne.
    destruct c as [|a c]; [congruence|]. simpl in Hf.
    destruct fuel as [|fuel]; [lia|]. cbn [more].
    rewrite (take_complete k _ _ Hc).
    rewrite <- push_app in Hk.
    destruct (IH s' (push g (String a c)) fuel Hk ltac:(lia)) as [r Hr].
    rewrite Hr. eauto.
Qed.

Lemma match_here_sound p : forall s g r,
  match_here p s g = Some r -> matches p s g r.
Proof.
  induction p as [|[k|k|k| | | ] p IH]; intros s g r H; simpl in H |- *.
  - congruence.
  - destruct (take k s) as [[c s1]|] eqn:Ht; [|discriminate].
    apply take_sound in Ht as (-> & Hc & _). eauto 6.
  - destruct (take k s) as [[c s1]|] eqn:Ht; [|discriminate].
    apply take_sound in Ht as (-> & Hc & Hne).
    destruct (more_sound _ _ _ _ _ _ H) as (w & s' & -> & Hw & Hk).
    exists (c +:+ w), s'. rewrite app_assoc, <- push_app.
    split; [intros E; apply app_eq_nil in E as [E _]; congruence|].
    split; [reflexivity|]. split; [constructor; assumption|]. apply IH, Hk.
  - destruct (take k s) as [[c s1]|] eqn:Ht; [|left; auto].
    destruct (match_here p s1 (push g c)) as [r'|] eqn:Hm; [|left; auto].
    inversion H; subst r'. apply take_sound in Ht as (-> & Hc & _). right. eauto 6.
  - auto.
  - auto.
  - destruct (at_end s); [auto | discriminate].
Qed.

Lemma match_here_complete p : forall s g r,
  matches p s g r -> is_Some (match_here p s g).
Proof.
  induction p as [|[k|k|k| | | ] p IH]; intros s g r H; simpl in H |- *.
  - eauto.
  - destruct H as (c & s' & -> & Hc & H). rewrite (take_complete _ _ _ Hc). eauto.
  - destruct H as (w & s' & Hne & -> & Hw & H).
    destruct (word_nonempty _ _ Hw Hne) as (c & w' & -> & Hc & Hw').
    rewrite app_assoc, (take_complete _ _ _ Hc).
    apply more_complete; [exact Hw' | | lia].
    rewrite push_app. eauto.
  - destruct H as [H | (c & s' & -> & Hc & H)].
    + destruct (take k s) as [[c s1]|]; [|eauto].
      destruct (match_here p s1 (push g c)); eauto.
    + rewrite (take_complete _ _ _ Hc). destruct (IH _ _ _ H) as [r' Hr']. rewrite Hr'. eauto.
  - eauto.
  - eauto.
  - destruct H as [He H]. rewrite He. eauto.
Qed.

Lemma search_sound p s r :
  search p s = Some r -> exists pre suf, s = pre +:+ suf /\ matches p suf g0 r.
Proof.
  induction s as [|a s IH]; simpl; intros H.
  - destruct (match_here p "" g0) eqn:Hm; [|discriminate].
    inversion H; subst. exists "", "". split; [reflexivity|]. apply match_here_sound, Hm.
  - destruct (match_here p (String a s) g0) eqn:Hm.
    + inversion H; subst. exists "", (String a s). split; [reflexivity|].
      apply match_here_sound, Hm.
    + destruct (IH H) as (pre & suf & -> & Hs). exists (String a pre), suf. auto.
Qed.

Lemma search_complete p pre suf r :
  matches p suf g0 r -> is_Some (search p (pre +:+ suf)).
Proof.
  intros H. induction pre as [|a pre IH].
  - rewrite app_nil_l. apply match_here_complete in H as [r' Hr'].
    destruct suf; simpl; rewrite Hr'; eauto.
  - rewrite app_cons. simpl. destruct (match_here p _ g0); eauto.
Qed.

End MatcherCorrect.

(** * [org_id_from_url] *)

Section OrgId.
Import Re Spec Utils.

Lemma pat_org_slug_atoms :
  pat_org_slug =
  [AOne (CChar "/"); AOne (CChar "o"); AOne (CChar "r"); AOne (CChar "g");
   AOne (CChar "/"); APlus (CNot "/"); AOne (CChar "/");
   AOpen; APlus CDigit; AClose; AOne (CChar "/")].
Proof. reflexivity. Qed.

Lemma pat_org_atoms :
  pat_org =
  [AOne (CChar "/"); AOne (CChar "o"); AOne (CChar "r"); AOne (CChar "g");
   AOne (CChar "/"); AOpen; APlus CDigit; AClose; AOne (CChar "/")].
Proof. reflexivity. Qed.

Lemma pat_tail_atoms :
  pat_tail =
  [AOne (CChar "/"); AOpen; APlus CDigit; AClose; AOpt (CChar "/"); AEnd].
Proof. reflexivity. Qed.

Lemma at_end_cases s : at_end s = true <-> s = "" \/ s = String "010" "".
Proof.
  destruct s as [|a [|b s]]; simpl; split; intros H; auto.
  - apply Ascii.eqb_eq in H. subst. auto.
  - destruct H as [H|H]; [discriminate|]. inversion H. apply Ascii.eqb_refl.
  - discriminate.
  - destruct H as [H|H]; discriminate.
Qed.

(** The literal characters of the patterns. *)
Ltac literal E :=
  apply is_char_literal in E; [|vm_compute; reflexivity].

Ltac one_char a :=
  exists (String a ""); eexists; split; [reflexivity|];
  split; [apply is_char_literal_refl; vm_compute; reflexivity|].

Lemma matches_org_slug suf d :
  matches pat_org_slug suf g0 d <->
  exists w post, suf = "/org/" +:+ w +:+ "/" +:+ d +:+ "/" +:+ post /\ slug w /\ digits d.
Proof.
  rewrite pat_org_slug_atoms. unfold g0. split.
  - intros H. cbn [matches] in H.
    destruct H as (c1 & s1 & -> & E1 & c2 & s2 & -> & E2 & c3 & s3 & -> & E3
                   & c4 & s4 & -> & E4 & c5 & s5 & -> & E5
                   & w & s6 & Hw1 & -> & Hw2 & c6 & s7 & -> & E6
                   & v & s8 & Hv1 & -> & Hv2 & c7 & s9 & -> & E7 & ->).
    literal E1. literal E2. literal E3. literal E4. literal E5. literal E6. literal E7.
    subst. cbn [g_text push g_open]. rewrite app_nil_l.
    exists w, s9. split; [reflexivity|]. split; split; assumption.
  - intros (w & post & -> & [Hw1 Hw2] & [Hd1 Hd2]).
    cbn [matches]. one_char "/"%char. one_char "o"%char. one_char "r"%char.
    one_char "g"%char. one_char "/"%char.
    exists w. eexists. split; [exact Hw1|]. split; [reflexivity|]. split; [exact Hw2|].
    one_char "/"%char.
    exists d. eexists. split; [exact Hd1|]. split; [reflexivity|]. split; [exact Hd2|].
    one_char "/"%char. reflexivity.
Qed.

Lemma matches_org suf d :
  matches pat_org suf g0 d <->
  exists post, suf = "/org/" +:+ d +:+ "/" +:+ post /\ digits d.
Proof.
  rewrite pat_org_atoms. unfold g0. split.
  - intros H. cbn [matches] in H.
    destruct H as (c1 & s1 & -> & E1 & c2 & s2 & -> & E2 & c3 & s3 & -> & E3
                   & c4 & s4 & -> & E4 & c5 & s5 & -> & E5
                   & v & s8 & Hv1 & -> & Hv2 & c7 & s9 & -> & E7 & ->).
    literal E1. literal E2. literal E3. literal E4. literal E5. literal E7.
    subst. cbn [g_text push g_open]. rewrite app_nil_l.
    exists s9. split; [reflexivity|]. split; assumption.
  - intros (post & -> & [Hd1 Hd2]).
    cbn [matches]. one_char "/"%char. one_char "o"%char. one_char "r"%char.
    one_char "g"%char. one_char "/"%char.
    exists d. eexists. split; [exact Hd1|]. split; [reflexivity|]. split; [exact Hd2|].
    one_char "/"%char. reflexivity.
Qed.

Lemma matches_tail suf d :
  matches pat_tail suf g0 d <->
  exists sl nl, suf = "/" +:+ d +:+ sl +:+ nl /\ digits d
                /\ (sl = "" \/ sl = "/") /\ (nl = "" \/ nl = String "010" "").
Proof.
  rewrite pat_tail_atoms. unfold g0. split.
  - intros H. cbn [matches] in H.
    destruct H as (a & s1 & -> & Ha & w & s2 & Hne & -> & Hw & H).
    literal Ha. subst a.
    cbn [g_text push g_open] in H. rewrite app_nil_l in H.
    destruct H as [[He ->] | (a & s' & -> & Ha & He & ->)].
    + exists "", s2. apply at_end_cases in He.
      split; [reflexivity|]. split; [split; assumption|]. split; [left; reflexivity | exact He].
    + literal Ha. subst a. exists "/", s'.
      apply at_end_cases in He. cbn [g_open g_text push].
      split; [reflexivity|]. split; [split; assumption|]. split; [right; reflexivity | exact He].
  - intros (sl & nl & -> & [Hd1 Hd2] & Hsl & Hnl).
    cbn [matches]. one_char "/"%char.
    exists d. eexists. split; [exact Hd1|]. split; [reflexivity|]. split; [exact Hd2|].
    cbn [g_text push g_open]. rewrite app_nil_l.
    destruct Hsl as [-> | ->].
    + left. rewrite app_nil_l. split; [apply at_end_cases; exact Hnl | reflexivity].
    + right. one_char "/"%char.
      split; [apply at_end_cases; exact Hnl | reflexivity].
Qed.

(** Each shape is what [re.search] with the pattern finds. *)
Lemma org_slug_form_search url :
  (forall d, search pat_org_slug url = Some d -> org_slug_form url d)
  /\ ((exists d, org_slug_form url d) -> is_Some (search pat_org_slug url)).
Proof.
  split.
  - intros d H. apply search_sound in H as (pre & suf & -> & H).
    apply matches_org_slug in H as (w & post & -> & Hw & Hd).
    exists pre, w, post. auto.
  - intros (d & pre & w & post & -> & Hw & Hd).
    apply (search_complete _ pre _ d). apply matches_org_slug. eauto.
Qed.

Lemma org_form_search url :
  (forall d, search pat_org url = Some d -> org_form url d)
  /\ ((exists d, org_form url d) -> is_Some (search pat_org url)).
Proof.
  split.
  - intros d H. apply search_sound in H as (pre & suf & -> & H).
    apply matches_org in H as (post & -> & Hd).
    exists pre, post. auto.
  - intros (d & pre & post & -> & Hd).
    apply (search_complete _ pre _ d). apply matches_org. eauto.
Qed.

Lemma tail_form_search url :
  (forall d, search pat_tail url = Some d -> tail_form url d)
  /\ ((exists d, tail_form url d) -> is_Some (search pat_tail url)).
Proof.
  split.
  - intros d H. apply search_sound in H as (pre & suf & -> & H).
    apply matches_tail in H as (sl & nl & -> & Hd & Hsl & Hnl).
    exists pre, sl, nl. auto.
  - intros (d & pre & sl & nl & -> & Hd & Hsl & Hnl).
    apply (search_complete _ pre _ d). apply matches_tail. eauto 6.
Qed.

(** The guard [if not url] changes nothing: no pattern matches in the
    empty string. *)
Lemma org_id_from_url_cascade url :
  org_id_from_url url =
  match search pat_org_slug url with
  | Some d => d
  | None => match search pat_org url with
            | Some d => d
            | None => default "" (search pat_tail url)
            end
  end.
Proof.
  unfold org_id_from_url. destruct url as [|a url]; [reflexivity|].
  cbn [PyStr.is_empty]. destruct (search pat_org_slug _); [reflexivity|].
  destruct (search pat_org _); [reflexivity|].
  destruct (search pat_tail _); reflexivity.
Qed.

Lemma org_id_by_priority : derives_by_priority tail_form org_id_from_url.
Proof.
  intros url. rewrite org_id_from_url_cascade.
  destruct (org_slug_form_search url) as [S1 C1].
  destruct (org_form_search url) as [S2 C2].
  destruct (tail_form_search url) as [S3 C3].
  destruct (search pat_org_slug url) as [d1|].
  { repeat split; intros.
    - apply S1. reflexivity.
    - exfalso. eauto.
    - exfalso. eauto.
    - exfalso. eauto. }
  destruct (search pat_org url) as [d2|].
  { repeat split; intros.
    - destruct C1 as [? ?]; [assumption | discriminate].
    - apply S2. reflexivity.
    - exfalso. eauto.
    - exfalso. eauto. }
  destruct (search pat_tail url) as [d3|]; simpl.
  { repeat split; intros.
    - destruct C1 as [? ?]; [assumption | discriminate].
    - destruct C2 as [? ?]; [assumption | discriminate].
    - apply S3. reflexivity.
    - exfalso. eauto. }
  repeat split; intros.
  - destruct C1 as [? ?]; [assumption | discriminate].
  - destruct C2 as [? ?]; [assumption | discriminate].
  - destruct C3 as [? ?]; [assumption | discriminate].
Qed.

Lemma ends_with_slash_app pre s :
  s <> "" -> ends_with_slash (pre +:+ s) = ends_with_slash s.
Proof.
  intros Hs. induction pre as [|a pre IH]; [reflexivity|].
  rewrite app_cons. cbn [ends_with_slash]. rewrite IH.
  destruct (pre +:+ s) eqn:E; [|reflexivity].
  apply app_eq_nil in E as [_ E]. congruence.
Qed.

(** A digit string does not end with [/]. *)
Lemma digits_end d : word CDigit d -> ends_with_slash d = false.
Proof.
  induction 1 as [|c w Hc Hw IH]; [reflexivity|].
  destruct w as [|a w].
  - rewrite app_nil_r. apply digit_char_end, Hc.
  - rewrite ends_with_slash_app by discriminate. exact IH.
Qed.

Lemma tail_form_strict_end url d : tail_form_strict url d -> ends_with_slash url = false.
Proof.
  intros (pre & -> & Hne & Hd). rewrite <- app_assoc.
  rewrite ends_with_slash_app by assumption.
  apply digits_end, Hd.
Qed.

(** An ASCII digit string is a digit string. *)
Lemma ascii_digits_word d :
  forallb (fun a => (48 <=? PyStr.byte a)%N && (PyStr.byte a <=? 57)%N)
    (list_ascii_of_string d) = true ->
  word CDigit d.
Proof.
  induction d as [|a d IH]; simpl; intros H; [constructor|].
  apply andb_prop in H as [Ha H].
  apply (word_cons CDigit (String a "") d); [|apply IH, H].
  apply andb_prop in Ha as [H1 H2]. apply N.leb_le in H1, H2.
  unfold is_char, take, PyStr.first_char, PyStr.cp1.
  assert (E : (PyStr.byte a <? 128)%N = true) by (apply N.ltb_lt; lia). rewrite E.
  assert (Ed : in_cls CDigit (PyStr.byte a) = true).
  { cbn [in_cls]. unfold is_digit, PyStr.is_decimal, PyStr.decimal_zeros.
    cbn [existsb]. apply orb_true_iff. left.
    apply andb_true_intro. split; [apply N.leb_le | apply N.ltb_lt]; lia. }
  rewrite Ed. reflexivity.
Qed.

(** A digit of another script is a digit as well. *)
Lemma org_id_from_url_arabic_indic :
  org_id_from_url
    ("https://example/maps/org/"
     +:+ String "217" (String "161" (String "217" (String "162" (String "217"
          (String "163" "/"))))))
  = String "217" (String "161" (String "217" (String "162" (String "217"
      (String "163" ""))))).
Proof. vm_compute. reflexivity. Qed.

End OrgId.

(** C6, as stated: [org_id_from_url] tries [/org/<slug>/<digits>/], then
    [/org/<digits>/], then [/<digits>] at the very end of the URL, and
    returns the empty string when none of the three is found.  This fails:
    [https://example/maps/123456/] has none of the three shapes, and the
    result is the id 123456. *)
Lemma C6_trailing_slash_counterexample :
  ~ Spec.derives_by_priority Spec.tail_form_strict Utils.org_id_from_url.
Proof.
  intros H. destruct (H "https://example/maps/123456/") as (_ & _ & _ & H4).
  assert (E : Utils.org_id_from_url "https://example/maps/123456/" = "");
    [|vm_compute in E; discriminate E].
  apply H4.
  - intros Hx. apply org_slug_form_search in Hx as [d' Hd']. vm_compute in Hd'. discriminate.
  - intros Hx. apply org_form_search in Hx as [d' Hd']. vm_compute in Hd'. discriminate.
  - intros [d Hd]. apply tail_form_strict_end in Hd. vm_compute in Hd. discriminate.
Qed.

(** C6, amended: [org_id_from_url] tries, in priority order,
    [/org/<slug>/<digits>/], [/org/<digits>/], and [/<digits>] followed by
    an optional [/] at the end of the URL (the end being the end of the
    string or a newline that ends it); the first shape found decides the
    result, which is a digit string in that shape, and the result is empty
    when the URL has none of them.  A slug is one or more characters other
    than [/]; the digits are one or more decimal digits, of any script.
    The four URLs of the scenario yield 123456, 123456, 123456 and the
    empty string. *)
Theorem C6_org_id_from_url_priority :
  Spec.derives_by_priority Spec.tail_form Utils.org_id_from_url
  /\ Spec.scenario_ids Utils.org_id_from_url.
Proof.
  split; [apply org_id_by_priority|].
  repeat split; vm_compute; reflexivity.
Qed.

(** An instance: a URL without [/org/] whose last segment is numeric and is
    followed by a slash. *)
Lemma C6_org_id_from_url_priority_witness :
  Spec.tail_form "https://example/maps/123456/"
    (Utils.org_id_from_url "https://example/maps/123456/").
Proof.
  destruct C6_org_id_from_url_priority as [H _].
  destruct (H "https://example/maps/123456/") as (_ & _ & H3 & _).
  apply H3.
  - intros Hx. apply org_slug_form_search in Hx as [d' Hd']. vm_compute in Hd'. discriminate.
  - intros Hx. apply org_form_search in Hx as [d' Hd']. vm_compute in Hd'. discriminate.
  - exists "123456", "https://example/maps", "/", "".
    split; [reflexivity|]. split; [|auto].
    split; [discriminate|]. apply ascii_digits_word. reflexivity.
Defined.

(** * The job store: single-row updates *)

Section TaskUpdates.
Import Store StoreSpec.

Lemma lookup_map {A B} (f : A -> B) (l : list A) (i : nat) :
  List.map f l !! i = f <$> (l !! i).
Proof.
  revert i. induction l as [|x l IH]; intros [|i]; simpl; auto.
Qed.

Lemma update_task_where_id_frame id set s :
  only_tasks_differ s (update_task_where_id id set s).
Proof. repeat split. Qed.

Lemma update_task_where_id_lookup id set s (i : nat) r :
  tasks s !! i = Some r ->
  tasks (update_task_where_id id set s) !! i
  = Some (if t_id r =? id then set r else r).
Proof.
  intros H. unfold update_task_where_id, with_tasks. simpl.
  rewrite lookup_map, H. reflexivity.
Qed.

Lemma update_status_overwrites id status msg now :
  overwrites_status
    (update_task_where_id id (set_status_error status (Some msg) now))
    id status msg now.
Proof.
  intros s. split; [apply update_task_where_id_frame|]. split.
  - unfold update_task_where_id, with_tasks. simpl. apply List.length_map.
  - intros i r Hr. eexists. split; [apply update_task_where_id_lookup, Hr|].
    split.
    + intros ->. rewrite Z.eqb_refl. simpl. unfold same_other_columns. tauto.
    + intros Hne. apply Z.eqb_neq in Hne. rewrite Hne. reflexivity.
Qed.

(** SQLite's [retry_task] leaves [attempts] as it was. *)
Lemma sqlite_retry_task_keeps_attempts id now s (i : nat) r :
  tasks s !! i = Some r -> t_id r = id ->
  exists r', tasks (SQLiteDB.retry_task id now s) !! i = Some r'
    /\ t_status r' = "RETRY" /\ t_last_error r' = None
    /\ t_attempts r' = t_attempts r.
Proof.
  intros Hr <-. eexists. split; [apply update_task_where_id_lookup, Hr|].
  rewrite Z.eqb_refl. simpl. auto.
Qed.

(** PostgreSQL's [retry_task] resets [attempts]. *)
Lemma pg_retry_task_resets_attempts id now s (i : nat) r :
  tasks s !! i = Some r -> t_id r = id ->
  exists r', tasks (PostgresDB.retry_task id now s) !! i = Some r'
    /\ t_status r' = "RETRY" /\ t_last_error r' = None
    /\ t_attempts r' = 0.
Proof.
  intros Hr <-. eexists. split; [apply update_task_where_id_lookup, Hr|].
  rewrite Z.eqb_refl. simpl. auto.
Qed.

End TaskUpdates.

(** C10: [set_task_links_done], [set_task_waitcaptcha] and [set_task_error],
    in both backends, overwrite [status], [last_error] and [updated_at] of
    the task with the given id whatever its current status is, keep every
    other column of that task, and leave every other task row and every
    other table as they were. *)
Theorem C10_status_setters_unconditional_and_framed :
  forall (id inserted : Z) (err worker : string) (now : Store.timestamp),
    StoreSpec.overwrites_status (SQLiteDB.set_task_links_done id inserted now)
      id "DONE" ("inserted_links=" +:+ pretty inserted) now
    /\ StoreSpec.overwrites_status (SQLiteDB.set_task_waitcaptcha id err worker now)
      id "WAITCAPTCHA" (PyStr.take_chars 2000 (SQLiteDB.error_message err worker)) now
    /\ StoreSpec.overwrites_status (SQLiteDB.set_task_error id err worker now)
      id "ERROR" (PyStr.take_chars 2000 (SQLiteDB.error_message err worker)) now
    /\ StoreSpec.overwrites_status (PostgresDB.set_task_links_done id inserted now)
      id "DONE" ("inserted_links=" +:+ pretty inserted) now
    /\ StoreSpec.overwrites_status (PostgresDB.set_task_waitcaptcha id err worker now)
      id "WAITCAPTCHA" (PyStr.take_chars 2000 (PostgresDB.error_message err worker)) now
    /\ StoreSpec.overwrites_status (PostgresDB.set_task_error id err worker now)
      id "ERROR" (PyStr.take_chars 2000 (PostgresDB.error_message err worker)) now.
Proof.
  intros. repeat apply conj; apply update_status_overwrites.
Qed.

(** An instance: a task in ERROR with three attempts, not RUNNING, is set
    to WAITCAPTCHA; its attempts stay 3. *)
Lemma C10_status_setters_witness :
  exists r',
    Store.tasks (SQLiteDB.set_task_waitcaptcha 1 "captcha" "links" 200
                   StoreSpec.store_with_failed_task) !! 0%nat = Some r'
    /\ Store.t_status r' = "WAITCAPTCHA"
    /\ Store.t_last_error r' = Some "links: captcha"
    /\ Store.t_updated_at r' = 200
    /\ Store.t_attempts r' = 3.
Proof.
  destruct (C10_status_setters_unconditional_and_framed 1 0 "captcha" "links" 200)
    as (_ & H & _).
  destruct (H StoreSpec.store_with_failed_task) as (_ & _ & Hrow).
  destruct (Hrow 0%nat StoreSpec.failed_task eq_refl) as (r' & Hl & Hid & _).
  destruct (Hid eq_refl) as (Hs & He & Ht & Hc).
  exists r'. split; [exact Hl|]. split; [exact Hs|]. split; [exact He|].
  split; [exact Ht|]. apply Hc.
Defined.

(** C4: [retry_task] must reset [attempts] to 0.  On the SQLite store the
    UPDATE has no [attempts=0]: a task with three attempts keeps them,
    while the PostgreSQL store resets them. *)
Theorem C4_sqlite_retry_task_keeps_attempts :
  List.map (fun r => (Store.t_status r, Store.t_attempts r, Store.t_last_error r))
    (Store.tasks (SQLiteDB.retry_task 1 200 StoreSpec.store_with_failed_task))
  = [("RETRY", 3, None)]
  /\ List.map (fun r => (Store.t_status r, Store.t_attempts r, Store.t_last_error r))
       (Store.tasks (PostgresDB.retry_task 1 200 StoreSpec.store_with_failed_task))
     = [("RETRY", 0, None)].
Proof. split; reflexivity. Qed.

(** * The job store: organisations *)

Section Orgs.
Import Store StoreSpec.


Lemma has_org_true oid os :
  has_org oid os = true -> In oid (List.map o_org_id os).
Proof.
  unfold has_org. intros H. apply existsb_exists in H as (o & Ho & E).
  apply String.eqb_eq in E. subst. apply in_map, Ho.
Qed.

Lemma has_org_in oid os :
  In oid (List.map o_org_id os) -> has_org oid os = true.
Proof.
  intros H. apply in_map_iff in H as (o & <- & Ho).
  apply existsb_exists. exists o. split; [exact Ho | apply String.eqb_refl].
Qed.


(** The key column is left alone by the UPDATE branch. *)
Lemma map_overwrite_ids e os :
  List.map o_org_id
    (List.map (fun o => if String.eqb (o_org_id o) (o_org_id e)
                        then overwrite_org e o else o) os)
  = List.map o_org_id os.
Proof.
  induction os as [|o os IH]; simpl; [reflexivity|]. rewrite IH. f_equal.
  destruct (String.eqb _ _); reflexivity.
Qed.






Lemma has_org_after e s : has_org (o_org_id e) (orgs (insert_or_update_org e s)) = true.
Proof.
  unfold insert_or_update_org.
  destruct (has_org (o_org_id e) (orgs s)) eqn:H; simpl.
  - apply has_org_in. rewrite map_overwrite_ids. apply has_org_true, H.
  - apply has_org_in. rewrite List.map_app. apply in_or_app. right. simpl. auto.
Qed.


Lemma insert_or_update_org_frame e s : only_orgs_differ s (insert_or_update_org e s).
Proof. unfold insert_or_update_org. destruct (has_org _ _); repeat split. Qed.






End Orgs.



(** * The job store: links *)

Section Links.
Import Store StoreSpec.

Lemma is_empty_false s : PyStr.is_empty s = false <-> s <> "".
Proof. destruct s; simpl; split; congruence. Qed.

Lemma has_org_id_in oid ls :
  has_org_id oid ls = true <-> In oid (List.map l_org_id ls).
Proof.
  unfold has_org_id. rewrite existsb_exists, in_map_iff. split.
  - intros (l & Hl & E). apply String.eqb_eq in E. eauto.
  - intros (l & E & Hl). exists l. split; [exact Hl|]. apply String.eqb_eq, E.
Qed.

Lemma has_org_id_app oid ls ls' :
  has_org_id oid ls = true -> has_org_id oid (ls ++ ls') = true.
Proof.
  rewrite !has_org_id_in, List.map_app. intros H. apply in_or_app. auto.
Qed.

Lemma links_with_absent oid ls :
  ~ In oid (List.map l_org_id ls) -> links_with_org_id oid ls = [].
Proof.
  unfold links_with_org_id. induction ls as [|l ls IH]; simpl; intros H; [reflexivity|].
  destruct (String.eqb (l_org_id l) oid) eqn:E.
  - apply String.eqb_eq in E. exfalso. auto.
  - apply IH. auto.
Qed.

(** With a UNIQUE [org_id], an id that is present has exactly one row. *)
Lemma links_with_present oid ls :
  NoDup (List.map l_org_id ls) -> In oid (List.map l_org_id ls) ->
  length (links_with_org_id oid ls) = 1%nat.
Proof.
  unfold links_with_org_id.
  induction ls as [|l ls IH]; simpl; intros Hnd Hin; [contradiction|].
  apply NoDup_cons in Hnd as [Hnotin Hnd]. rewrite list_elem_of_In in Hnotin.
  destruct (String.eqb (l_org_id l) oid) eqn:E.
  - apply String.eqb_eq in E. subst oid. simpl. f_equal.
    pose proof (links_with_absent _ _ Hnotin) as Ha.
    unfold links_with_org_id in Ha. rewrite Ha. reflexivity.
  - apply String.eqb_neq in E. apply IH; [exact Hnd|].
    destruct Hin as [Hin|Hin]; [congruence | exact Hin].
Qed.

Lemma links_with_kept oid ls added :
  NoDup (List.map l_org_id (ls ++ added)) -> In oid (List.map l_org_id ls) ->
  links_with_org_id oid (ls ++ added) = links_with_org_id oid ls.
Proof.
  intros Hnd Hin. unfold links_with_org_id. rewrite List.filter_app.
  rewrite List.map_app in Hnd. apply NoDup_app in Hnd as (_ & Hdis & _).
  assert (Ha : links_with_org_id oid added = []).
  { apply links_with_absent. intros Hx.
    apply (Hdis oid); apply list_elem_of_In; assumption. }
  unfold links_with_org_id in Ha. rewrite Ha. apply List.app_nil_r.
Qed.

Lemma insert_or_ignore_link_ok : insert_unless_present insert_or_ignore_link.
Proof.
  intros now task oid u mode s. unfold insert_or_ignore_link.
  destruct (has_org_id oid (links s)) eqn:H; simpl.
  - split; [unfold only_links_differ; auto|]. left. auto.
  - split; [unfold only_links_differ; auto|]. right. auto.
Qed.

Lemma insert_on_conflict_do_nothing_ok : insert_unless_present insert_on_conflict_do_nothing.
Proof.
  intros now task oid u mode s. unfold insert_on_conflict_do_nothing.
  destruct (has_org_id oid (links s)) eqn:H; simpl.
  - split; [unfold only_links_differ; auto|]. left. auto.
  - split; [unfold only_links_differ; auto|]. right. auto.
Qed.

Lemma inserted_from_cons task u urls mode l :
  inserted_from task urls mode l -> inserted_from task (u :: urls) mode l.
Proof. intros (u' & Hu & H). exists u'. split; [right; exact Hu | exact H]. Qed.

Lemma only_links_differ_refl s : only_links_differ s s.
Proof. unfold only_links_differ. auto. Qed.

Lemma only_links_differ_trans s1 s2 s3 :
  only_links_differ s1 s2 -> only_links_differ s2 s3 -> only_links_differ s1 s3.
Proof.
  unfold only_links_differ. intros (A1 & A2 & A3 & A4 & A5) (B1 & B2 & B3 & B4 & B5).
  rewrite B1, B2, B3, B4, B5. auto.
Qed.

(** The invariant of the loop: rows are only appended, one per counted
    insertion, each for a URL with a derivable id that was not yet
    present. *)
Lemma insert_loop_spec ins now task mode :
  insert_unless_present ins ->
  forall urls s n0,
    links_unique s ->
    exists added,
      links (fst (insert_loop ins now task urls mode s n0)) = (links s ++ added)%list
      /\ snd (insert_loop ins now task urls mode s n0) = n0 + Z.of_nat (length added)
      /\ Forall (inserted_from task urls mode) added
      /\ links_unique (fst (insert_loop ins now task urls mode s n0))
      /\ (forall u, In u urls -> Utils.org_id_from_url u <> "" ->
            has_org_id (Utils.org_id_from_url u)
              (links (fst (insert_loop ins now task urls mode s n0))) = true)
      /\ only_links_differ s (fst (insert_loop ins now task urls mode s n0)).
Proof.
  intros Hins. induction urls as [|u urls IH]; intros s n0 Hu; simpl.
  - exists []. split; [rewrite List.app_nil_r; reflexivity|]. split; [simpl; lia|].
    split; [constructor|]. split; [exact Hu|]. split; [intros u []|].
    apply only_links_differ_refl.
  - destruct (PyStr.is_empty (Utils.org_id_from_url u)) eqn:Ee.
    + destruct (IH s n0 Hu) as (added & H1 & H2 & H3 & H4 & H5 & H6).
      exists added. split; [exact H1|]. split; [exact H2|].
      split; [eapply List.Forall_impl; [|exact H3]; intros l; apply inserted_from_cons|].
      split; [exact H4|]. split; [|exact H6].
      intros u' [<-|Hu'] Hne; [|auto].
      destruct (Utils.org_id_from_url u); [congruence | discriminate].
    + apply is_empty_false in Ee.
      destruct (Hins now task (Utils.org_id_from_url u) u mode s) as [Hfr Hcase].
      destruct (ins now task (Utils.org_id_from_url u) u mode s) as [s1 rc] eqn:Ei.
      simpl in Hfr, Hcase.
      destruct Hcase as [(Hp & Hl & ->) | (Hp & Hl & ->)]; simpl.
      * assert (Hu1 : links_unique s1) by (unfold links_unique; rewrite Hl; exact Hu).
        destruct (IH s1 n0 Hu1) as (added & H1 & H2 & H3 & H4 & H5 & H6).
        exists added. rewrite H1, Hl. split; [reflexivity|]. split; [exact H2|].
        split; [eapply List.Forall_impl; [|exact H3]; intros l; apply inserted_from_cons|].
        split; [exact H4|]. split.
        -- intros u' [<-|Hu'] Hne; [|rewrite <- Hl, <- H1; auto].
           apply has_org_id_app. exact Hp.
        -- eapply only_links_differ_trans; eassumption.
      * assert (Hu1 : links_unique s1).
        { unfold links_unique. rewrite Hl, List.map_app. apply NoDup_app.
          split; [exact Hu|]. split; [|apply NoDup_singleton].
          intros x Hx Hx'. apply list_elem_of_In in Hx, Hx'. destruct Hx' as [<-|[]].
          apply has_org_id_in in Hx. simpl in Hx. congruence. }
        destruct (IH s1 (n0 + 1) Hu1) as (added & H1 & H2 & H3 & H4 & H5 & H6).
        exists (new_link (seq_links s + 1) now task (Utils.org_id_from_url u) u mode :: added).
        rewrite H1, Hl, <- List.app_assoc. split; [reflexivity|]. split.
        { rewrite H2. simpl length. lia. }
        split.
        { constructor.
          - exists u. simpl. split; [left; reflexivity|]. auto 10.
          - eapply List.Forall_impl; [|exact H3]. intros l. apply inserted_from_cons. }
        split; [exact H4|]. split.
        -- intros u' [<-|Hu'] Hne.
           ++ rewrite List.app_assoc. apply has_org_id_app.
              apply has_org_id_in. rewrite List.map_app. apply in_or_app. right.
              simpl. auto.
           ++ rewrite List.app_assoc, <- Hl, <- H1. auto.
        -- eapply only_links_differ_trans; eassumption.
Qed.

Lemma insert_loop_correct ins :
  insert_unless_present ins ->
  insert_links_correct (fun now task urls mode s => insert_loop ins now task urls mode s 0).
Proof.
  intros Hins now task urls mode s Hu s' n.
  destruct (insert_loop_spec ins now task mode Hins urls s 0 Hu)
    as (added & H1 & H2 & H3 & H4 & H5 & H6).
  exists added. fold s' in H1, H4, H5, H6. fold n in H2.
  split; [exact H1|]. split; [lia|]. split; [exact H3|]. split; [exact H4|].
  split; [|split; [|exact H6]].
  - intros u Hin Hne. apply links_with_present; [exact H4|].
    apply has_org_id_in. auto.
  - intros oid Hp. rewrite H1. apply links_with_kept.
    + rewrite <- H1. exact H4.
    + apply has_org_id_in, Hp.
Qed.

Lemma sqlite_insert_links_loop_eq now task urls mode s n0 :
  SQLiteDB.insert_links_loop now task urls mode s n0
  = insert_loop insert_or_ignore_link now task urls mode s n0.
Proof.
  revert s n0. induction urls as [|u urls IH]; intros s n0; simpl; [reflexivity|].
  destruct (PyStr.is_empty _); [apply IH|].
  destruct (insert_or_ignore_link _ _ _ _ _ _). apply IH.
Qed.

Lemma pg_insert_links_loop_eq now task urls mode s n0 :
  PostgresDB.insert_links_loop now task urls mode s n0
  = insert_loop insert_on_conflict_do_nothing now task urls mode s n0.
Proof.
  revert s n0. induction urls as [|u urls IH]; intros s n0; simpl; [reflexivity|].
  destruct (PyStr.is_empty _); [apply IH|].
  destruct (insert_on_conflict_do_nothing _ _ _ _ _ _). apply IH.
Qed.

(** The early [return 0] of the SQLite version is what the loop gives on
    an empty list. *)
Lemma sqlite_insert_links_eq now task urls mode s :
  SQLiteDB.insert_links now task urls mode s
  = insert_loop insert_or_ignore_link now task urls mode s 0.
Proof.
  unfold SQLiteDB.insert_links. destruct urls; [reflexivity|].
  apply sqlite_insert_links_loop_eq.
Qed.

Lemma sqlite_insert_links_correct : insert_links_correct SQLiteDB.insert_links.
Proof.
  intros now task urls mode s Hu. rewrite sqlite_insert_links_eq.
  apply (insert_loop_correct _ insert_or_ignore_link_ok now task urls mode s Hu).
Qed.

Lemma pg_insert_links_correct : insert_links_correct PostgresDB.insert_links.
Proof.
  intros now task urls mode s Hu. unfold PostgresDB.insert_links.
  rewrite pg_insert_links_loop_eq.
  apply (insert_loop_correct _ insert_on_conflict_do_nothing_ok now task urls mode s Hu).
Qed.

End Links.

(** C3: in both backends, for every task row and every list of URLs,
    [insert_links] only appends rows; each appended row belongs to one of
    the URLs and carries the non-empty organisation id derived from it, so
    a URL without a derivable id is never inserted; the returned count is
    the number of appended rows; [org_id] stays unique, every URL with a
    derivable id ends with exactly one row for its id, and an id that was
    already there keeps its one row untouched. *)
Theorem C3_insert_links_dedup_and_count :
  StoreSpec.insert_links_correct SQLiteDB.insert_links
  /\ StoreSpec.insert_links_correct PostgresDB.insert_links.
Proof.
  split; [apply sqlite_insert_links_correct | apply pg_insert_links_correct].
Qed.

(** An instance: four URLs, one without an id and one a duplicate, into the
    empty store: two rows are inserted and counted. *)
Lemma C3_insert_links_witness :
  exists added,
    Store.links (fst (SQLiteDB.insert_links 120 StoreSpec.claimed_task
                        ["https://yandex.by/maps/org/cafe/111/";
                         "https://yandex.by/maps/org/cafe/";
                         "https://yandex.by/maps/org/bar/222/";
                         "https://yandex.by/maps/org/other/111/"]
                        "LINKS_MAPSCAN_SEARCH" Store.empty))
    = ([] ++ added)%list
    /\ snd (SQLiteDB.insert_links 120 StoreSpec.claimed_task
              ["https://yandex.by/maps/org/cafe/111/";
               "https://yandex.by/maps/org/cafe/";
               "https://yandex.by/maps/org/bar/222/";
               "https://yandex.by/maps/org/other/111/"]
              "LINKS_MAPSCAN_SEARCH" Store.empty)
       = Z.of_nat (length added)
    /\ length added = 2%nat.
Proof.
  destruct C3_insert_links_dedup_and_count as [H _].
  destruct (H 120 StoreSpec.claimed_task
              ["https://yandex.by/maps/org/cafe/111/";
               "https://yandex.by/maps/org/cafe/";
               "https://yandex.by/maps/org/bar/222/";
               "https://yandex.by/maps/org/other/111/"]
              "LINKS_MAPSCAN_SEARCH" Store.empty (NoDup_nil_2 (A:=string)))
    as (added & H1 & H2 & _).
  exists added. split; [exact H1|]. split; [exact H2|].
  apply Nat2Z.inj. rewrite <- H2. vm_compute. reflexivity.
Defined.

(** * The job store: claiming a task *)

Section Claim.
Import Store StoreSpec.

Lemma lowest_id_in rows r : lowest_id rows = Some r -> In r rows.
Proof.
  revert r. induction rows as [|x rows IH]; simpl; intros r H; [discriminate|].
  destruct (lowest_id rows) as [r'|].
  - destruct (t_id x <=? t_id r'); inversion H; subst; auto.
  - inversion H; auto.
Qed.

Lemma lowest_id_least rows r :
  lowest_id rows = Some r -> forall r', In r' rows -> t_id r <= t_id r'.
Proof.
  revert r. induction rows as [|x rows IH]; simpl; intros r H r' Hr'; [contradiction|].
  destruct (lowest_id rows) as [m|] eqn:Hm.
  - specialize (IH m eq_refl).
    destruct (t_id x <=? t_id m) eqn:E; inversion H; subst.
    + apply Z.leb_le in E. destruct Hr' as [<-|Hr']; [lia|].
      specialize (IH r' Hr'). lia.
    + apply Z.leb_gt in E. destruct Hr' as [<-|Hr']; [lia|]. auto.
  - inversion H; subst. destruct rows as [|y rows].
    + destruct Hr' as [<-|[]]. lia.
    + simpl in Hm. destruct (lowest_id rows) as [m|];
        [destruct (t_id y <=? t_id m)|]; discriminate.
Qed.

(** What [ORDER BY id ASC LIMIT 1] returns: a row of the table that passes
    the WHERE clause and has the least id among those that do. *)
Lemma select_first_task_spec where_ s r :
  select_first_task where_ s = Some r ->
  In r (tasks s) /\ where_ r = true
  /\ forall r', In r' (tasks s) -> where_ r' = true -> t_id r <= t_id r'.
Proof.
  unfold select_first_task. intros H.
  pose proof (lowest_id_in _ _ H) as Hin. apply List.filter_In in Hin as [Hin Hw].
  split; [exact Hin|]. split; [exact Hw|].
  intros r' Hr' Hw'. apply (lowest_id_least _ _ H). apply List.filter_In. auto.
Qed.

Lemma set_running_id now r : t_id (set_running now r) = t_id r.
Proof. reflexivity. Qed.

Lemma update_ids id set s :
  (forall r, t_id (set r) = t_id r) ->
  List.map t_id (tasks (update_task_where_id id set s)) = List.map t_id (tasks s).
Proof.
  intros Hset. unfold update_task_where_id, with_tasks. simpl.
  rewrite List.map_map. apply List.map_ext. intros r.
  destruct (t_id r =? id); auto.
Qed.

(** The primary key of [tasks] is kept by every statement that writes the
    table. *)
Lemma empty_keyed : tasks_keyed empty.
Proof. split; constructor. Qed.

Lemma insert_task_keyed now t s : tasks_keyed s -> tasks_keyed (insert_task now t s).
Proof.
  intros [Hnd Hle]. unfold tasks_keyed, insert_task. cbn [tasks seq_tasks]. split.
  - rewrite List.map_app. apply NoDup_app. split; [exact Hnd|]. split.
    + intros x Hx Hx'. apply list_elem_of_In in Hx, Hx'.
      destruct Hx' as [<-|[]]. apply in_map_iff in Hx as (r & E & Hr).
      rewrite List.Forall_forall in Hle. specialize (Hle r Hr).
      cbn [t_id new_task] in E. lia.
    + apply NoDup_singleton.
  - apply List.Forall_app. split.
    + eapply List.Forall_impl; [|exact Hle]. intros r Hr. simpl in Hr. lia.
    + constructor; [|constructor]. cbn [t_id new_task]. lia.
Qed.

Lemma insert_tasks_keyed now ts : forall s,
  tasks_keyed s -> tasks_keyed (fold_left (fun s t => insert_task now t s) ts s).
Proof.
  induction ts as [|t ts IH]; intros s H; simpl; [exact H|].
  apply IH, insert_task_keyed, H.
Qed.

Lemma sqlite_add_tasks_keyed now ts s :
  tasks_keyed s -> tasks_keyed (fst (SQLiteDB.add_tasks now ts s)).
Proof.
  intros H. unfold SQLiteDB.add_tasks. destruct ts; [exact H|].
  apply insert_tasks_keyed, H.
Qed.

Lemma pg_add_tasks_keyed now ts s :
  tasks_keyed s -> tasks_keyed (fst (PostgresDB.add_tasks now ts s)).
Proof. intros H. apply insert_tasks_keyed, H. Qed.




(** The PostgreSQL store hands out the row as the SELECT read it, before
    the UPDATE. *)
Lemma pg_pick_returns_selected_row max now s s' r :
  PostgresDB.pick_next_task_for_links max now s = (s', Some r) ->
  In r (tasks s) /\ PostgresDB.where_pick max r = true
  /\ s' = update_task_where_id (t_id r) (set_running now) s.
Proof.
  unfold PostgresDB.pick_next_task_for_links, PostgresDB.stmt_select_for_update.
  destruct (select_first_task _ s) as [r0|] eqn:Hsel; [|discriminate].
  apply select_first_task_spec in Hsel as (Hin & Hw & _).
  intros H. inversion H; subst. split; [exact Hin|]. split; [|reflexivity].
  apply andb_prop in Hw as [Hw _]. exact Hw.
Qed.

Lemma pg_picked_row_not_running max now s s' r :
  PostgresDB.pick_next_task_for_links max now s = (s', Some r) ->
  t_status r <> "RUNNING" /\ t_attempts r < max.
Proof.
  intros H. apply pg_pick_returns_selected_row in H as (_ & Hw & _).
  unfold PostgresDB.where_pick, claimable in Hw.
  apply andb_prop in Hw as [_ Hw]. apply andb_prop in Hw as [Hst Hat].
  apply Z.ltb_lt in Hat. split; [|exact Hat].
  apply orb_prop in Hst as [E|E]; apply String.eqb_eq in E; rewrite E; discriminate.
Qed.

Lemma select_first_single where_ r ls os ss n1 n2 n3 :
  where_ r = true -> select_first_task where_ (MkStore [r] ls os ss n1 n2 n3) = Some r.
Proof. unfold select_first_task. simpl. intros ->. reflexivity. Qed.

Lemma sqlite_add_one now t :
  fst (SQLiteDB.add_tasks now [t] empty) = MkStore [new_task 1 now t] [] [] [] 1 0 0.
Proof. reflexivity. Qed.

Lemma pg_add_one now t :
  fst (PostgresDB.add_tasks now [t] empty) = MkStore [new_task 1 now t] [] [] [] 1 0 0.
Proof. reflexivity. Qed.

(** Round trip on the SQLite store. *)
Lemma sqlite_add_then_pick t now1 now2 max :
  SQLiteDB.like_infix "LINKS" (dict_get t "mode" "")
  || SQLiteDB.like_infix "MAPSCAN" (dict_get t "mode" "") = true ->
  0 < max ->
  SQLiteDB.pick_next_task_for_links max now2 (fst (SQLiteDB.add_tasks now1 [t] empty))
  = (MkStore [set_running now2 (new_task 1 now1 t)] [] [] [] 1 0 0,
     Some (set_running now2 (new_task 1 now1 t))).
Proof.
  intros Hm Hmax. apply Z.ltb_lt in Hmax. rewrite sqlite_add_one.
  unfold SQLiteDB.pick_next_task_for_links, SQLiteDB.stmt_select.
  rewrite select_first_single.
  - reflexivity.
  - unfold SQLiteDB.where_pick, claimable.
    cbn [t_mode t_status t_attempts new_task]. rewrite Hm, Hmax. reflexivity.
Qed.

End Claim.

(** C1: after [add_tasks([T])], [pick_next_task_for_links] must return T
    with status RUNNING and attempts 1.  On the PostgreSQL store the task
    is stored as RUNNING with attempts 1, but the row returned is the one
    read before the UPDATE: status PENDING, attempts 0. *)
Theorem C1_pg_pick_returns_row_before_update :
  forall (t : gmap string string) (now1 now2 : Store.timestamp) (max : Z),
    PyStr.starts_with "LINKS" (Store.dict_get t "mode" "") = true ->
    0 < max ->
    PostgresDB.pick_next_task_for_links max now2
      (fst (PostgresDB.add_tasks now1 [t] Store.empty))
    = (Store.MkStore [Store.set_running now2 (Store.new_task 1 now1 t)] [] [] [] 1 0 0,
       Some (Store.new_task 1 now1 t))
    /\ Store.t_status (Store.new_task 1 now1 t) = "PENDING"
    /\ Store.t_attempts (Store.new_task 1 now1 t) = 0
    /\ Store.t_status (Store.set_running now2 (Store.new_task 1 now1 t)) = "RUNNING"
    /\ Store.t_attempts (Store.set_running now2 (Store.new_task 1 now1 t)) = 1.
Proof.
  intros t now1 now2 max Hm Hmax. apply Z.ltb_lt in Hmax.
  split; [|repeat split]. rewrite pg_add_one.
  unfold PostgresDB.pick_next_task_for_links, PostgresDB.stmt_select_for_update.
  rewrite select_first_single.
  - reflexivity.
  - unfold PostgresDB.where_pick, Store.claimable.
    cbn [Store.t_mode Store.t_status Store.t_attempts Store.new_task].
    rewrite Hm, Hmax. reflexivity.
Qed.

(** An instance: one task of [build_tasks], claimed with the default bound
    on attempts. *)
Lemma C1_pg_pick_witness :
  snd (PostgresDB.pick_next_task_for_links 15 110
         (fst (PostgresDB.add_tasks 100 [StoreSpec.cafe_task] Store.empty)))
  = Some (Store.new_task 1 100 StoreSpec.cafe_task)
  /\ List.map (fun r => (Store.t_status r, Store.t_attempts r))
       (Store.tasks (fst (PostgresDB.pick_next_task_for_links 15 110
                            (fst (PostgresDB.add_tasks 100 [StoreSpec.cafe_task] Store.empty)))))
     = [("RUNNING", 1)].
Proof.
  destruct (C1_pg_pick_returns_row_before_update StoreSpec.cafe_task 100 110 15)
    as (H & _); [reflexivity | lia |].
  rewrite H. split; reflexivity.
Defined.

(** * Two concurrent callers *)

Section Interleavings.
Import Store StoreSpec Concurrent ConcurrentSpec.

(** The models of one caller are the sequential functions. *)
Lemma sq_run_alone max now s :
  sq_run max [(A, now); (A, now); (A, now)] s
  = (fst (SQLiteDB.pick_next_task_for_links max now s),
     SqReturned (snd (SQLiteDB.pick_next_task_for_links max now s)), SqStart).
Proof.
  unfold sq_run, SQLiteDB.pick_next_task_for_links. simpl.
  destruct (SQLiteDB.stmt_select max s); reflexivity.
Qed.

Lemma pg_run_alone max now s :
  pg_run max [(A, now); (A, now)] s
  = (fst (PostgresDB.pick_next_task_for_links max now s),
     PgReturned (snd (PostgresDB.pick_next_task_for_links max now s)), PgStart).
Proof.
  unfold pg_run, PostgresDB.pick_next_task_for_links. simpl.
  destruct (PostgresDB.stmt_select_for_update [] max s); reflexivity.
Qed.

Lemma sqlite_update_ids id now s :
  List.map t_id (tasks (SQLiteDB.stmt_update id now s)) = List.map t_id (tasks s).
Proof. apply update_ids, set_running_id. Qed.

(** A row whose id is in the table can be read back by id. *)
Lemma reselect_some id s :
  In id (List.map t_id (tasks s)) ->
  exists r, SQLiteDB.stmt_reselect id s = Some r /\ t_id r = id.
Proof.
  intros Hin. unfold SQLiteDB.stmt_reselect, select_task_by_id.
  destruct (List.find (fun r => t_id r =? id) (tasks s)) as [r|] eqn:Hf.
  - apply List.find_some in Hf as [_ E]. apply Z.eqb_eq in E. eauto.
  - apply in_map_iff in Hin as (r & E & Hr).
    apply (List.find_none _ _ Hf) in Hr. simpl in Hr. apply Z.eqb_neq in Hr. congruence.
Qed.

(** SQLite: both callers read the same candidate before either one
    updates it; both then update it and both return it. *)
Lemma sq_double_claim max s r t1 t2 t3 t4 t5 t6 :
  SQLiteDB.stmt_select max s = Some r ->
  exists s' ra rb,
    sq_run max [(A, t1); (B, t2); (A, t3); (B, t4); (A, t5); (B, t6)] s
    = (s', SqReturned (Some ra), SqReturned (Some rb))
    /\ t_id ra = t_id r /\ t_id rb = t_id r.
Proof.
  intros Hsel. unfold sq_run.
  cbn [fold_left sq_sched_step sq_step fst snd]. rewrite Hsel.
  cbn [fold_left sq_sched_step sq_step fst snd]. rewrite Hsel.
  cbn [fold_left sq_sched_step sq_step fst snd].
  set (s2 := SQLiteDB.stmt_update (t_id r) t4 (SQLiteDB.stmt_update (t_id r) t3 s)).
  assert (Hin : In (t_id r) (List.map t_id (tasks s2))).
  { unfold s2. rewrite !sqlite_update_ids. apply in_map.
    apply select_first_task_spec in Hsel. apply Hsel. }
  destruct (reselect_some _ _ Hin) as (r' & Hr' & Hid).
  rewrite Hr'. eauto 10.
Qed.

(** *** PostgreSQL: the row lock excludes the second claimant *)

Lemma claimable_not_running max r : claimable max r = true -> t_status r <> "RUNNING".
Proof.
  unfold claimable. intros H. apply andb_prop in H as [H _].
  apply orb_prop in H as [E|E]; apply String.eqb_eq in E; rewrite E; discriminate.
Qed.

Lemma pg_update_settles id now s pc :
  pg_settled s pc -> pg_settled (PostgresDB.stmt_update id now s) pc.
Proof.
  destruct pc as [|r|[r|]]; simpl; auto. intros H row Hrow Hid.
  apply in_map_iff in Hrow as (row0 & E & Hrow0).
  destruct (t_id row0 =? id); subst row; [reflexivity|]. auto.
Qed.

(** One step of one caller, given what the other one holds. *)
Lemma pg_step_inv max now s me other :
  pg_settled s me -> pg_settled s other ->
  (forall i j, pg_held me = Some i -> pg_held other = Some j -> i <> j) ->
  let s' := fst (pg_step max now (pg_locks other) s me) in
  let me' := snd (pg_step max now (pg_locks other) s me) in
  pg_settled s' me' /\ pg_settled s' other
  /\ forall i j, pg_held me' = Some i -> pg_held other = Some j -> i <> j.
Proof.
  intros Hme Hother Hdis. destruct me as [|r|res]; simpl.
  - destruct (PostgresDB.stmt_select_for_update (pg_locks other) max s) as [r|] eqn:Hsel;
      simpl; [|repeat split; auto; discriminate].
    split; [exact I|]. split; [exact Hother|].
    intros i j Hi Hj. inversion Hi; subst i.
    apply select_first_task_spec in Hsel as (Hin & Hw & _).
    apply andb_prop in Hw as [Hw Hlock].
    destruct other as [|ro|[ro|]]; simpl in Hj; inversion Hj; subst j.
    + simpl in Hlock. rewrite orb_false_r in Hlock.
      apply negb_true_iff, Z.eqb_neq in Hlock. exact Hlock.
    + intros E. apply andb_prop in Hw as [_ Hw].
      apply (claimable_not_running _ _ Hw). apply (Hother r Hin E).
  - split; [|split].
    + intros row Hrow Hid. apply in_map_iff in Hrow as (row0 & E & Hrow0).
      destruct (t_id row0 =? t_id r) eqn:E'; subst row; [reflexivity|].
      apply Z.eqb_neq in E'. congruence.
    + apply pg_update_settles, Hother.
    + exact Hdis.
  - auto.
Qed.

Lemma pg_sched_step_inv max sys ev : pg_inv sys -> pg_inv (pg_sched_step max sys ev).
Proof.
  destruct sys as [[s a] b]. destruct ev as [[|] now]; intros (Ha & Hb & Hdis);
    unfold pg_sched_step; cbn [fst snd].
  - pose proof (pg_step_inv max now s a b Ha Hb Hdis) as H.
    destruct (pg_step max now (pg_locks b) s a) as [s' a']. exact H.
  - assert (Hdis' : forall i j, pg_held b = Some i -> pg_held a = Some j -> i <> j).
    { intros i j Hi Hj E. apply (Hdis j i Hj Hi). auto. }
    pose proof (pg_step_inv max now s b a Hb Ha Hdis') as H.
    destruct (pg_step max now (pg_locks a) s b) as [s' b']. cbn [fst snd] in H.
    destruct H as (H1 & H2 & H3). split; [exact H2|]. split; [exact H1|].
    intros i j Hi Hj E. apply (H3 j i Hj Hi). auto.
Qed.

Lemma pg_run_inv max sched : forall sys,
  pg_inv sys -> pg_inv (fold_left (pg_sched_step max) sched sys).
Proof.
  induction sched as [|ev sched IH]; intros sys H; simpl; [exact H|].
  apply IH, pg_sched_step_inv, H.
Qed.

(** PostgreSQL: under every schedule, the two callers are never handed
    the same task. *)
Lemma pg_no_double_claim max sched s :
  let '(_, a, b) := pg_run max sched s in
  forall i j, pg_claimed a = Some i -> pg_claimed b = Some j -> i <> j.
Proof.
  pose proof (pg_run_inv max sched (s, PgStart, PgStart)) as H.
  unfold pg_run. destruct (fold_left _ sched _) as [[s' a] b].
  destruct H as (_ & _ & Hdis).
  - simpl. split; [exact I|]. split; [exact I|]. discriminate.
  - intros i j Hi Hj. apply Hdis.
    + destruct a as [|r|[r|]]; simpl in *; congruence.
    + destruct b as [|r|[r|]]; simpl in *; congruence.
Qed.

End Interleavings.

(** C2: a task must never be handed to two concurrent callers.  On the
    SQLite store the SELECT and the UPDATE of [pick_next_task_for_links]
    are separate statements with no lock and no check of the status in the
    UPDATE: when two callers both run the SELECT before either runs the
    UPDATE, both calls return the same task. *)
Theorem C2_sqlite_double_claim :
  forall (max : Z) (s : Store.store) (r : Store.task_row)
         (t1 t2 t3 t4 t5 t6 : Store.timestamp),
    SQLiteDB.stmt_select max s = Some r ->
    let '(_, a, b) :=
      Concurrent.sq_run max
        [(Concurrent.A, t1); (Concurrent.B, t2); (Concurrent.A, t3);
         (Concurrent.B, t4); (Concurrent.A, t5); (Concurrent.B, t6)] s in
    Concurrent.sq_claimed a = Some (Store.t_id r)
    /\ Concurrent.sq_claimed b = Some (Store.t_id r).
Proof.
  intros max s r t1 t2 t3 t4 t5 t6 Hsel.
  destruct (sq_double_claim max s r t1 t2 t3 t4 t5 t6 Hsel)
    as (s' & ra & rb & -> & Ha & Hb).
  simpl. rewrite Ha, Hb. auto.
Qed.

(** An instance: one pending task, two callers; both are handed task 1,
    and it ends with two attempts. *)
Lemma C2_sqlite_double_claim_witness :
  let '(s', a, b) :=
    Concurrent.sq_run 30
      [(Concurrent.A, 110); (Concurrent.B, 111); (Concurrent.A, 112);
       (Concurrent.B, 113); (Concurrent.A, 114); (Concurrent.B, 115)]
      (fst (SQLiteDB.add_tasks 100 [StoreSpec.cafe_task] Store.empty)) in
  Concurrent.sq_claimed a = Some 1 /\ Concurrent.sq_claimed b = Some 1.
Proof.
  exact (C2_sqlite_double_claim 30
           (fst (SQLiteDB.add_tasks 100 [StoreSpec.cafe_task] Store.empty))
           (Store.new_task 1 100 StoreSpec.cafe_task)
           110 111 112 113 114 115 eq_refl).
Defined.

(** C5: the job store must provide [requeue_task], and the
    [/api/task_requeue] endpoint that calls it must complete.  Neither
    [SQLiteDB] nor [PostgresDB] binds the name [requeue_task]: evaluating
    [db.requeue_task] in the handler raises [AttributeError] with either
    backend, while [db.retry_task] of the neighbouring endpoint resolves. *)
Theorem C5_requeue_task_is_not_defined :
  forall id : Z,
    App.api_task_requeue App.UseSQLite id
    = App.Unhandled (App.AttributeError "requeue_task")
    /\ App.api_task_requeue App.UsePostgres id
       = App.Unhandled (App.AttributeError "requeue_task")
    /\ App.getattr App.UseSQLite "retry_task" = App.BoundMethod "retry_task"
    /\ App.getattr App.UsePostgres "retry_task" = App.BoundMethod "retry_task".
Proof. intros id. repeat split; reflexivity. Qed.

(** * The harvesting loop *)

Section Harvest.
Import LinkCollector CollectorSpec.

Variable str_lower : string -> string.
Variable url_base : string -> option string.
Variable urljoin : string -> string -> option string.

Local Abbreviation is_captcha' := (is_captcha str_lower).
Local Abbreviation pass' := (pass str_lower url_base urljoin).
Local Abbreviation loop' := (loop str_lower url_base urljoin).
Local Abbreviation collect' := (collect_links_from_list str_lower url_base urljoin).
Local Abbreviation vars_after' := (vars_after str_lower url_base urljoin).
Local Abbreviation seen' := (seen url_base urljoin).
Local Abbreviation idle_run' := (idle_run url_base urljoin).
Local Abbreviation vars_at' := (vars_at url_base urljoin).
Local Abbreviation quiet' := (quiet str_lower).

(** The set only grows. *)
Lemma add_anchor_mono links it : links ⊆ add_anchor url_base urljoin links it.
Proof.
  clear str_lower.
  unfold add_anchor. destruct (a_href it); [|set_solver].
  destruct (a_current_url it); [|set_solver].
  destruct (_normalize_org_url _ _ _ _) as [[norm|]|]; [|set_solver..].
  destruct (PyStr.is_empty norm); set_solver.
Qed.

Lemma add_anchors_mono items : forall links,
  links ⊆ add_anchors url_base urljoin links items.
Proof.
  clear str_lower.
  unfold add_anchors. induction items as [|it items IH]; intros links; simpl; [set_solver|].
  etrans; [apply add_anchor_mono | apply IH].
Qed.

Lemma seen_step d k : seen' d k ⊆ seen' d (S k).
Proof.
  clear str_lower. simpl. destruct (p_anchors (d k)); [apply add_anchors_mono | set_solver]. Qed.

Lemma seen_same_size d k :
  Z.of_nat (size (seen' d (S k))) = Z.of_nat (size (seen' d k)) ->
  seen' d (S k) = seen' d k.
Proof.
  clear str_lower.
  intros H. symmetry.
  apply set_subseteq_size_eq; [apply seen_step | lia].
Qed.

Lemma idle_run_bounds d k : 0 <= idle_run' d k <= Z.of_nat k.
Proof.
  induction k as [|k IH]; [simpl; lia|].
  cbn [idle_run]. destruct (_ =? _); lia.
Qed.

(** Over the last [idle_run] passes the set is the same. *)
Lemma idle_run_spec d k : forall j : nat,
  Z.of_nat k - idle_run' d k <= Z.of_nat j <= Z.of_nat k -> seen' d j = seen' d k.
Proof.
  clear str_lower. induction k as [|k IH]; intros j Hj.
  - simpl in Hj. replace j with 0%nat by lia. reflexivity.
  - cbn [idle_run] in Hj.
    destruct (Nat.eq_dec j (S k)) as [->|Hne]; [reflexivity|].
    destruct (Z.of_nat (size (seen' d (S k))) =? Z.of_nat (size (seen' d k))) eqn:E.
    + apply Z.eqb_eq in E. rewrite (seen_same_size d k E). apply IH. lia.
    + lia.
Qed.

(** One pass on a page without captcha. *)
Lemma pass_quiet m d k items :
  is_captcha' (d k) = Returns false -> p_anchors (d k) = Returns items ->
  pass' m (d k) (vars_at' d k)
  = if idle_run' d (S k) >=? m then Break (vars_at' d (S k))
    else Continue (vars_at' d (S k)).
Proof.
  intros Hc Hi. unfold pass. rewrite Hc, Hi. cbn [v_links v_idle v_last_cnt vars_at].
  assert (Hs : seen' d (S k) = add_anchors url_base urljoin (seen' d k) items)
    by (simpl; rewrite Hi; reflexivity).
  rewrite <- Hs. unfold vars_at. cbn [idle_run].
  destruct (Z.of_nat (size (seen' d (S k))) =? Z.of_nat (size (seen' d k))) eqn:E;
    cbn [v_idle].
  - apply Z.eqb_eq in E. rewrite E. reflexivity.
  - reflexivity.
Qed.

Lemma vars_at_0 d : vars_at' d 0 = vars0.
Proof. reflexivity. Qed.

Lemma collect_unfold d m : collect' d m = loop' pass_cap m d 0 (vars_at' d 0).
Proof. rewrite vars_at_0. reflexivity. Qed.

Lemma loop_S n m d i v :
  loop' (S n) m d i v
  = match pass' m (d i) v with
    | Raise e => (Raised e, S i)
    | Break v' => (Returned (elements (v_links v')), S i)
    | Continue v' => loop' n m d (S i) v'
    end.
Proof. reflexivity. Qed.

(** The hard cap: never more than [n] further passes. *)
Lemma loop_passes m d : forall n i v,
  (i <= snd (loop' n m d i v) <= i + n)%nat.
Proof.
  induction n as [|n IH]; intros i v; simpl; [lia|].
  destruct (pass' m (d i) v) as [v'|v'|e]; simpl; try lia.
  specialize (IH (S i) v'). lia.
Qed.

(** What a returned list says about the run. *)
Lemma loop_returned m d : forall n i l k,
  loop' n m d i (vars_at' d i) = (Returned l, k) ->
  l = elements (seen' d k)
  /\ (k = (i + n)%nat \/ idle_run' d k >= m)
  /\ forall j, (i <= j < k)%nat -> is_captcha' (d j) = Returns false.
Proof.
  induction n as [|n IH]; intros i l k H; simpl in H.
  - inversion H; subst. split; [reflexivity|]. split; [left; lia|]. intros j Hj. lia.
  - destruct (is_captcha' (d i)) as [[|]|] eqn:Hc;
      try (unfold pass in H; rewrite Hc in H; discriminate).
    destruct (p_anchors (d i)) as [items|] eqn:Hi;
      [|unfold pass in H; rewrite Hc, Hi in H; discriminate].
    rewrite (pass_quiet m d i items Hc Hi) in H.
    destruct (idle_run' d (S i) >=? m) eqn:E.
    + inversion H; subst. split; [reflexivity|]. split; [right; lia|].
      intros j Hj. replace j with i by lia. exact Hc.
    + destruct (IH (S i) l k H) as (H1 & H2 & H3).
      split; [exact H1|]. split; [destruct H2; [left; lia | right; assumption]|].
      intros j Hj. destruct (Nat.eq_dec j i) as [->|Hne]; [exact Hc | apply H3; lia].
Qed.

(** The loop stops at the first pass whose idle count reaches the
    threshold. *)
Lemma loop_stops_idle m d k : forall n i,
  quiet' d k -> (i < k)%nat -> (k - i <= n)%nat ->
  (forall j, (i < j < k)%nat -> idle_run' d j < m) ->
  idle_run' d k >= m ->
  loop' n m d i (vars_at' d i) = (Returned (elements (seen' d k)), k).
Proof.
  induction n as [|n IH]; intros i Hq Hik Hn Hlow Hk; [lia|].
  destruct (Hq i Hik) as [Hc [items Hi]].
  simpl. rewrite (pass_quiet m d i items Hc Hi).
  destruct (Nat.eq_dec (S i) k) as [<-|Hne].
  - replace (idle_run' d (S i) >=? m) with true by (symmetry; apply Z.geb_le; lia).
    reflexivity.
  - replace (idle_run' d (S i) >=? m) with false.
    + apply IH; auto; try lia. intros j Hj. apply Hlow. lia.
    + symmetry. rewrite Z.geb_leb. apply Z.leb_gt. apply Hlow. lia.
Qed.

(** The idle count while the set grows, and once it has stopped. *)
Lemma idle_run_growing d k :
  (forall j, (j < k)%nat -> seen' d j <> seen' d (S j)) ->
  forall j, (1 <= j <= k)%nat -> idle_run' d j = 0.
Proof.
  clear str_lower.
  intros Hg j Hj. destruct j as [|j]; [lia|]. cbn [idle_run].
  destruct (_ =? _) eqn:E; [|reflexivity].
  apply Z.eqb_eq, seen_same_size in E. exfalso. apply (Hg j); [lia | auto].
Qed.

Lemma idle_run_stalled d k :
  (forall j, (j < k)%nat -> seen' d j <> seen' d (S j)) ->
  forall n, (forall j, (k <= j < k + n)%nat -> seen' d (S j) = seen' d j) ->
  idle_run' d (k + n) = Z.of_nat n.
Proof.
  clear str_lower.
  intros Hg. induction n as [|n IH]; intros Hs.
  - rewrite Nat.add_0_r. destruct k as [|k]; [reflexivity|].
    apply (idle_run_growing d (S k) Hg). lia.
  - replace (k + S n)%nat with (S (k + n)) by lia. cbn [idle_run].
    rewrite (Hs (k + n)%nat) by lia. rewrite Z.eqb_refl.
    rewrite IH; [lia|]. intros j Hj. apply Hs. lia.
Qed.

(** A session whose set grows on each of the first [k] passes and on none
    of the next [n]: the loop makes [k + n] passes and returns the set of
    pass [k]. *)
Lemma loop_idle_termination d (k n : nat) :
  (1 <= n)%nat -> (k + n <= pass_cap)%nat ->
  quiet' d (k + n) ->
  (forall j, (j < k)%nat -> seen' d j <> seen' d (S j)) ->
  (forall j, (k <= j < k + n)%nat -> seen' d (S j) = seen' d j) ->
  collect' d (Z.of_nat n) = (Returned (elements (seen' d k)), (k + n)%nat).
Proof.
  intros Hn Hcap Hq Hg Hs.
  assert (Hsame : seen' d (k + n) = seen' d k).
  { symmetry. apply idle_run_spec. rewrite (idle_run_stalled d k Hg n Hs). lia. }
  rewrite <- Hsame, collect_unfold.
  apply loop_stops_idle; auto; try lia.
  - intros j Hj. destruct (le_lt_dec j k) as [Hle|Hgt].
    + rewrite (idle_run_growing d k Hg j) by lia. lia.
    + replace j with (k + (j - k))%nat by lia.
      rewrite (idle_run_stalled d k Hg (j - k)); [lia|].
      intros i Hi. apply Hs. lia.
  - rewrite (idle_run_stalled d k Hg n Hs). lia.
Qed.

(** Skipping the passes that ended in [continue]. *)
Lemma loop_from_vars_after m d : forall k n v,
  vars_after' m d k = Some v -> (k <= n)%nat ->
  loop' n m d 0 vars0 = loop' (n - k) m d k v.
Proof.
  induction k as [|k IH]; intros n v Hv Hk; simpl in Hv.
  - inversion Hv; subst. rewrite Nat.sub_0_r. reflexivity.
  - destruct (vars_after' m d k) as [v0|] eqn:Hv0; [|discriminate].
    destruct (pass' m (d k) v0) as [v1| |] eqn:Hp; try discriminate.
    inversion Hv; subst v1. rewrite (IH n v0 eq_refl) by lia.
    replace (n - k)%nat with (S (n - S k)) by lia.
    simpl. rewrite Hp. reflexivity.
Qed.

(** A captcha on a pass that is reached ends the call with
    [CaptchaError]. *)
Lemma loop_captcha m d k v :
  (k < pass_cap)%nat -> vars_after' m d k = Some v ->
  is_captcha' (d k) = Returns true ->
  collect' d m = (Raised CaptchaError, S k).
Proof.
  intros Hk Hv Hc. unfold collect_links_from_list.
  rewrite (loop_from_vars_after m d k pass_cap v Hv) by lia.
  replace (pass_cap - k)%nat with (S (pass_cap - S k)) by lia.
  rewrite loop_S. unfold pass. rewrite Hc. reflexivity.
Qed.

Lemma pass_cap_ge_5 : (5 <= pass_cap)%nat.
Proof. apply Nat.leb_le. vm_compute. reflexivity. Qed.

(** Two passes never exhaust an idle threshold of 12. *)
Lemma two_passes_continue d :
  quiet' d 2 -> exists v, vars_after' 12 d 2 = Some v.
Proof.
  intros Hq.
  destruct (Hq 0%nat ltac:(lia)) as [Hc0 [it0 Hi0]].
  destruct (Hq 1%nat ltac:(lia)) as [Hc1 [it1 Hi1]].
  pose proof (idle_run_bounds d 1) as B1. pose proof (idle_run_bounds d 2) as B2.
  exists (vars_at' d 2). cbn [vars_after].
  rewrite <- (vars_at_0 d).
  rewrite (pass_quiet 12 d 0 it0 Hc0 Hi0).
  replace (idle_run' d 1 >=? 12) with false
    by (symmetry; rewrite Z.geb_leb; apply Z.leb_gt; lia).
  rewrite (pass_quiet 12 d 1 it1 Hc1 Hi1).
  replace (idle_run' d 2 >=? 12) with false
    by (symmetry; rewrite Z.geb_leb; apply Z.leb_gt; lia).
  reflexivity.
Qed.

End Harvest.

(** C7: [collect_links_from_list] never makes more than 4000 passes
    ([pass_cap]); when
    it returns before the cap, the accumulated set has not grown over the
    last [max_idle] passes, and the list returned holds the set
    accumulated so far; a session whose set grows on each of the first [k]
    passes and on none of the next [n] is left after pass [k + n] with the
    set of pass [k]: with the set growing until pass 3 and an idle
    threshold of 2, after pass 5 with the set of pass 3. *)
Theorem C7_idle_termination_and_cap :
  forall (str_lower : string -> string) (url_base : string -> option string)
         (urljoin : string -> string -> option string) (d : LinkCollector.session),
    (forall m,
        (snd (LinkCollector.collect_links_from_list str_lower url_base urljoin d m)
         <= LinkCollector.pass_cap)%nat)
    /\ (forall m l k,
          LinkCollector.collect_links_from_list str_lower url_base urljoin d m
          = (LinkCollector.Returned l, k) ->
          l = elements (LinkCollector.seen url_base urljoin d k)
          /\ (k = LinkCollector.pass_cap
              \/ (m <= Z.of_nat k
                  /\ forall j : nat, Z.of_nat k - m <= Z.of_nat j <= Z.of_nat k ->
                       LinkCollector.seen url_base urljoin d j
                       = LinkCollector.seen url_base urljoin d k)))
    /\ (forall k n : nat,
          (1 <= n)%nat -> (k + n <= LinkCollector.pass_cap)%nat ->
          CollectorSpec.quiet str_lower d (k + n) ->
          (forall j, (j < k)%nat ->
             LinkCollector.seen url_base urljoin d j
             <> LinkCollector.seen url_base urljoin d (S j)) ->
          (forall j, (k <= j < k + n)%nat ->
             LinkCollector.seen url_base urljoin d (S j)
             = LinkCollector.seen url_base urljoin d j) ->
          LinkCollector.collect_links_from_list str_lower url_base urljoin d (Z.of_nat n)
          = (LinkCollector.Returned (elements (LinkCollector.seen url_base urljoin d k)),
             (k + n)%nat))
    /\ (CollectorSpec.quiet str_lower d 5 ->
        (forall j, (j < 3)%nat ->
           LinkCollector.seen url_base urljoin d j
           <> LinkCollector.seen url_base urljoin d (S j)) ->
        (forall j, (3 <= j < 5)%nat ->
           LinkCollector.seen url_base urljoin d (S j)
           = LinkCollector.seen url_base urljoin d j) ->
        LinkCollector.collect_links_from_list str_lower url_base urljoin d 2
        = (LinkCollector.Returned (elements (LinkCollector.seen url_base urljoin d 3)),
           5%nat)).
Proof.
  intros str_lower url_base urljoin d. split; [|split; [|split]].
  - intros m. unfold LinkCollector.collect_links_from_list.
    pose proof (loop_passes str_lower url_base urljoin m d LinkCollector.pass_cap 0
                  LinkCollector.vars0).
    lia.
  - intros m l k H. rewrite collect_unfold in H.
    apply loop_returned in H as (H1 & H2 & _). split; [exact H1|].
    destruct H2 as [->|H2]; [left; reflexivity|]. right.
    pose proof (idle_run_bounds url_base urljoin d k) as B. split; [lia|].
    intros j Hj. apply idle_run_spec. lia.
  - intros k n. apply loop_idle_termination.
  - intros Hq Hg Hs.
    pose proof pass_cap_ge_5.
    apply (loop_idle_termination str_lower url_base urljoin d 3 2); auto; lia.
Qed.

(** An instance: the mocked session shows a new organisation on each of the
    first three passes and nothing new on the next two. *)
Lemma C7_idle_termination_witness :
  LinkCollector.collect_links_from_list PyStr.ascii_lower
    CollectorSpec.mock_url_base CollectorSpec.mock_urljoin
    CollectorSpec.mock_session 2
  = (LinkCollector.Returned
       (elements (LinkCollector.seen CollectorSpec.mock_url_base
                    CollectorSpec.mock_urljoin CollectorSpec.mock_session 3)),
     5%nat).
Proof.
  destruct (C7_idle_termination_and_cap PyStr.ascii_lower CollectorSpec.mock_url_base
              CollectorSpec.mock_urljoin CollectorSpec.mock_session)
    as (_ & _ & _ & H).
  apply H.
  - intros i Hi.
    destruct i as [|[|[|[|[|i]]]]]; try lia;
      (split; [vm_compute; reflexivity | eexists; reflexivity]).
  - intros j Hj E. apply (f_equal size) in E.
    destruct j as [|[|[|j]]]; try lia; vm_compute in E; discriminate.
  - intros j Hj.
    destruct j as [|[|[|[|[|j]]]]]; try lia;
      refine (bool_decide_unpack _ _); vm_compute; exact I.
Defined.

(** C8: a captcha seen at the start of any pass the loop reaches ends
    [collect_links_from_list] with [CaptchaError] on that pass; a call
    that returns a list saw no captcha on any of its passes; in
    particular, after two scroll passes without captcha a captcha on the
    third pass raises [CaptchaError] and no list is returned. *)
Theorem C8_captcha_aborts_harvest :
  forall (str_lower : string -> string) (url_base : string -> option string)
         (urljoin : string -> string -> option string) (d : LinkCollector.session),
    (forall m k v,
        (k < LinkCollector.pass_cap)%nat ->
        LinkCollector.vars_after str_lower url_base urljoin m d k = Some v ->
        LinkCollector.is_captcha str_lower (d k) = LinkCollector.Returns true ->
        LinkCollector.collect_links_from_list str_lower url_base urljoin d m
        = (LinkCollector.Raised LinkCollector.CaptchaError, S k))
    /\ (forall m l n,
          LinkCollector.collect_links_from_list str_lower url_base urljoin d m
          = (LinkCollector.Returned l, n) ->
          forall i, (i < n)%nat ->
            LinkCollector.is_captcha str_lower (d i) = LinkCollector.Returns false)
    /\ (CollectorSpec.quiet str_lower d 2 ->
        LinkCollector.is_captcha str_lower (d 2%nat) = LinkCollector.Returns true ->
        LinkCollector.collect_links_from_list str_lower url_base urljoin d 12
        = (LinkCollector.Raised LinkCollector.CaptchaError, 3%nat)).
Proof.
  intros str_lower url_base urljoin d. split; [|split].
  - intros m k v. apply loop_captcha.
  - intros m l n H i Hi. rewrite collect_unfold in H.
    apply loop_returned in H as (_ & _ & H). apply H. lia.
  - intros Hq Hc. destruct (two_passes_continue str_lower url_base urljoin d Hq) as [v Hv].
    pose proof pass_cap_ge_5.
    apply (loop_captcha str_lower url_base urljoin 12 d 2 v); [lia | exact Hv | exact Hc].
Qed.

(** An instance: the mocked session is redirected to the captcha page
    after two scroll passes. *)
Lemma C8_captcha_aborts_witness :
  LinkCollector.collect_links_from_list PyStr.ascii_lower
    CollectorSpec.mock_url_base CollectorSpec.mock_urljoin
    CollectorSpec.mock_captcha_session 12
  = (LinkCollector.Raised LinkCollector.CaptchaError, 3%nat).
Proof.
  destruct (C8_captcha_aborts_harvest PyStr.ascii_lower CollectorSpec.mock_url_base
              CollectorSpec.mock_urljoin CollectorSpec.mock_captcha_session)
    as (_ & _ & H).
  apply H.
  - intros i Hi.
    destruct i as [|[|i]]; try lia;
      (split; [vm_compute; reflexivity | eexists; reflexivity]).
  - vm_compute. reflexivity.
Defined.

(** * Claiming, again: both backends *)

Section ClaimBoth.
Import Store StoreSpec StoreSpec2.

Lemma lowest_id_none rows : lowest_id rows = None -> rows = [].
Proof.
  destruct rows as [|x rows]; [reflexivity|]. simpl.
  destruct (lowest_id rows) as [m|]; [destruct (t_id x <=? t_id m)|]; discriminate.
Qed.

Lemma select_first_task_none where_ s :
  select_first_task where_ s = None ->
  forall r, In r (tasks s) -> where_ r = false.
Proof.
  unfold select_first_task. intros H r Hr. apply lowest_id_none in H.
  destruct (where_ r) eqn:E; [|reflexivity].
  assert (Hin : In r (List.filter where_ (tasks s))) by (apply List.filter_In; auto).
  rewrite H in Hin. destruct Hin.
Qed.



End ClaimBoth.



Section ClaimGate.
Import Store StoreSpec StoreSpec2.

Lemma single_task_keyed r ls os ss n1 n2 n3 :
  t_id r <= n1 -> tasks_keyed (MkStore [r] ls os ss n1 n2 n3).
Proof.
  intros H. split; simpl.
  - apply NoDup_singleton.
  - constructor; [exact H | constructor].
Qed.

Lemma select_first_task_some where_ s r :
  In r (tasks s) -> where_ r = true ->
  exists r0, select_first_task where_ s = Some r0.
Proof.
  intros Hr Hw. destruct (select_first_task where_ s) as [r0|] eqn:E; [eauto|].
  pose proof (select_first_task_none _ _ E r Hr). congruence.
Qed.

(** Whatever either backend returns has the id of a row that passed the
    WHERE clause. *)
Lemma sqlite_pick_some max now s s' r :
  SQLiteDB.pick_next_task_for_links max now s = (s', Some r) ->
  exists r0, In r0 (tasks s) /\ SQLiteDB.where_pick max r0 = true
             /\ t_id r = t_id r0
             /\ s' = update_task_where_id (t_id r0) (set_running now) s.
Proof.
  unfold SQLiteDB.pick_next_task_for_links. intros H.
  destruct (SQLiteDB.stmt_select max s) as [r0|] eqn:Hsel; [|discriminate].
  apply select_first_task_spec in Hsel as (Hin & Hw & _).
  inversion H as [[Hs Hr]]. exists r0. split; [exact Hin|]. split; [exact Hw|].
  split; [|reflexivity].
  unfold SQLiteDB.stmt_reselect, select_task_by_id in Hr.
  apply List.find_some in Hr as [_ E]. apply Z.eqb_eq, E.
Qed.

Lemma pg_pick_some max now s s' r :
  PostgresDB.pick_next_task_for_links max now s = (s', Some r) ->
  exists r0, In r0 (tasks s) /\ PostgresDB.where_pick max r0 = true
             /\ t_id r = t_id r0
             /\ s' = update_task_where_id (t_id r0) (set_running now) s.
Proof.
  intros H. apply pg_pick_returns_selected_row in H as (Hin & Hw & ->).
  exists r. auto.
Qed.

Lemma sqlite_where_gate max r :
  SQLiteDB.where_pick max r = true -> open_status r = true /\ t_attempts r < max.
Proof.
  unfold SQLiteDB.where_pick, claimable, open_status. intros H.
  apply andb_prop in H as [_ H]. apply andb_prop in H as [H1 H2].
  apply Z.ltb_lt in H2. auto.
Qed.

Lemma pg_where_gate max r :
  PostgresDB.where_pick max r = true -> open_status r = true /\ t_attempts r < max.
Proof.
  unfold PostgresDB.where_pick, claimable, open_status. intros H.
  apply andb_prop in H as [_ H]. apply andb_prop in H as [H1 H2].
  apply Z.ltb_lt in H2. auto.
Qed.

Lemma sqlite_never_returns : never_returns SQLiteDB.pick_next_task_for_links.
Proof.
  intros max now s id Hclosed r Hr E.
  destruct (SQLiteDB.pick_next_task_for_links max now s) as [s' o] eqn:Hp.
  simpl in Hr. subst o.
  apply sqlite_pick_some in Hp as (r0 & Hin & Hw & Hid & _).
  apply sqlite_where_gate in Hw as [Ho Ha].
  destruct (Hclosed r0 Hin ltac:(congruence)) as [H|H]; [congruence | lia].
Qed.

Lemma pg_never_returns : never_returns PostgresDB.pick_next_task_for_links.
Proof.
  intros max now s id Hclosed r Hr E.
  destruct (PostgresDB.pick_next_task_for_links max now s) as [s' o] eqn:Hp.
  simpl in Hr. subst o.
  apply pg_pick_some in Hp as (r0 & Hin & Hw & Hid & _).
  apply pg_where_gate in Hw as [Ho Ha].
  destruct (Hclosed r0 Hin ltac:(congruence)) as [H|H]; [congruence | lia].
Qed.

(** After an UPDATE that closes the status of [id], no row of [id] is
    open. *)
Lemma closed_after_update id status set s :
  (forall r, t_status (set r) = status) ->
  (forall r, t_id (set r) = t_id r) ->
  status <> "PENDING" -> status <> "RETRY" ->
  forall x, In x (tasks (update_task_where_id id set s)) -> t_id x = id ->
    open_status x = false.
Proof.
  intros Hst Hid Hp Hr x Hx E. unfold update_task_where_id, with_tasks in Hx.
  simpl in Hx. apply in_map_iff in Hx as (x0 & Ex & _).
  destruct (t_id x0 =? id) eqn:E0.
  - subst x. unfold open_status. rewrite Hst.
    apply orb_false_iff. split; apply String.eqb_neq; assumption.
  - apply Z.eqb_neq in E0. subst x. congruence.
Qed.

(** An UPDATE on [id] that does not open it keeps it closed. *)
Lemma closed_kept id' id status set s :
  (forall r, t_status (set r) = status) ->
  (forall r, t_id (set r) = t_id r) ->
  status <> "PENDING" -> status <> "RETRY" ->
  (forall x, In x (tasks s) -> t_id x = id -> open_status x = false) ->
  forall x, In x (tasks (update_task_where_id id' set s)) -> t_id x = id ->
    open_status x = false.
Proof.
  intros Hst Hid Hp Hr Hc x Hx E. unfold update_task_where_id, with_tasks in Hx.
  simpl in Hx. apply in_map_iff in Hx as (x0 & Ex & Hx0).
  destruct (t_id x0 =? id') eqn:E0.
  - subst x. unfold open_status. rewrite Hst.
    apply orb_false_iff. split; apply String.eqb_neq; assumption.
  - subst x. auto.
Qed.

End ClaimGate.

Section Lifecycle.
Import Store StoreSpec StoreSpec2.

Lemma stays_claimed_from pick done waitcaptcha error :
  never_returns pick ->
  (forall max now s s1 r, pick max now s = (s1, Some r) ->
     exists id, t_id r = id /\ s1 = update_task_where_id id (set_running now) s) ->
  (forall id inserted t s, exists msg,
     done id inserted t s = update_task_where_id id (set_status_error "DONE" msg t) s) ->
  (forall id err worker t s, exists msg,
     waitcaptcha id err worker t s
     = update_task_where_id id (set_status_error "WAITCAPTCHA" msg t) s) ->
  (forall id err worker t s, exists msg,
     error id err worker t s = update_task_where_id id (set_status_error "ERROR" msg t) s) ->
  stays_claimed pick done waitcaptcha error.
Proof.
  intros Hnever Hpick Hdone Hwait Herr max now s s1 r Hp.
  destruct (Hpick max now s s1 r Hp) as (id & Hid & ->). rewrite Hid.
  split; [|split; [|split]].
  - intros max' now' r'. apply Hnever. intros x Hx E. left.
    apply (closed_after_update id "RUNNING" (set_running now) s); auto; discriminate.
  - intros inserted t max' now' r'. destruct (Hdone id inserted t
      (update_task_where_id id (set_running now) s)) as [msg ->].
    apply Hnever. intros x Hx E. left.
    apply (closed_after_update id "DONE" (set_status_error "DONE" msg t)
             (update_task_where_id id (set_running now) s)); auto; discriminate.
  - intros e w t max' now' r'. destruct (Hwait id e w t
      (update_task_where_id id (set_running now) s)) as [msg ->].
    apply Hnever. intros x Hx E. left.
    apply (closed_after_update id "WAITCAPTCHA" (set_status_error "WAITCAPTCHA" msg t)
             (update_task_where_id id (set_running now) s)); auto; discriminate.
  - intros e w t max' now' r'. destruct (Herr id e w t
      (update_task_where_id id (set_running now) s)) as [msg ->].
    apply Hnever. intros x Hx E. left.
    apply (closed_after_update id "ERROR" (set_status_error "ERROR" msg t)
             (update_task_where_id id (set_running now) s)); auto; discriminate.
Qed.

Lemma sqlite_stays_claimed :
  stays_claimed SQLiteDB.pick_next_task_for_links SQLiteDB.set_task_links_done
    SQLiteDB.set_task_waitcaptcha SQLiteDB.set_task_error.
Proof.
  apply stays_claimed_from.
  - apply sqlite_never_returns.
  - intros max now s s1 r H. apply sqlite_pick_some in H as (r0 & _ & _ & E & ->).
    exists (t_id r0). auto.
  - intros. eexists. reflexivity.
  - intros. eexists. reflexivity.
  - intros. eexists. reflexivity.
Qed.

Lemma pg_stays_claimed :
  stays_claimed PostgresDB.pick_next_task_for_links PostgresDB.set_task_links_done
    PostgresDB.set_task_waitcaptcha PostgresDB.set_task_error.
Proof.
  apply stays_claimed_from.
  - apply pg_never_returns.
  - intros max now s s1 r H. apply pg_pick_some in H as (r0 & _ & _ & E & ->).
    exists (t_id r0). auto.
  - intros. eexists. reflexivity.
  - intros. eexists. reflexivity.
  - intros. eexists. reflexivity.
Qed.

End Lifecycle.

(** X2: in both backends, a task whose rows are all either not PENDING or
    RETRY, or have used up [max_attempts], is never returned by
    [pick_next_task_for_links], RETRY or not. *)
Theorem X2_exhausted_or_closed_task_is_not_claimed :
  StoreSpec2.never_returns SQLiteDB.pick_next_task_for_links
  /\ StoreSpec2.never_returns PostgresDB.pick_next_task_for_links.
Proof. split; [apply sqlite_never_returns | apply pg_never_returns]. Qed.

(** An instance: the task in ERROR is not handed out. *)
Lemma X2_exhausted_or_closed_witness :
  match snd (SQLiteDB.pick_next_task_for_links 30 200 StoreSpec.store_with_failed_task) with
  | Some r => Store.t_id r <> 1
  | None => True
  end.
Proof.
  destruct X2_exhausted_or_closed_task_is_not_claimed as [H _].
  pose proof (H 30 200 StoreSpec.store_with_failed_task 1) as H1.
  destruct (snd (SQLiteDB.pick_next_task_for_links 30 200 StoreSpec.store_with_failed_task))
    as [r|]; [|exact I].
  apply H1; [|reflexivity].
  intros x [<-|[]] _. left. reflexivity.
Defined.

(** X3: in both backends, a task that [pick_next_task_for_links] has
    handed out is not handed out by a later call, neither while it is
    RUNNING nor after [set_task_links_done], [set_task_waitcaptcha] or
    [set_task_error] has recorded its outcome. *)
Theorem X3_claimed_task_is_not_claimed_again :
  StoreSpec2.stays_claimed SQLiteDB.pick_next_task_for_links SQLiteDB.set_task_links_done
    SQLiteDB.set_task_waitcaptcha SQLiteDB.set_task_error
  /\ StoreSpec2.stays_claimed PostgresDB.pick_next_task_for_links
       PostgresDB.set_task_links_done PostgresDB.set_task_waitcaptcha
       PostgresDB.set_task_error.
Proof. split; [apply sqlite_stays_claimed | apply pg_stays_claimed]. Qed.

(** An instance: the one task of the store, claimed, then failed. *)
Lemma X3_claimed_task_witness :
  match snd (SQLiteDB.pick_next_task_for_links 30 130
               (SQLiteDB.set_task_error 1 "boom" "links" 120
                  (Store.MkStore
                     [Store.set_running 110 (Store.new_task 1 100 StoreSpec.cafe_task)]
                     [] [] [] 1 0 0))) with
  | Some r' => Store.t_id r' <> 1
  | None => True
  end.
Proof.
  destruct X3_claimed_task_is_not_claimed_again as [H _].
  destruct (H 30 110 (fst (SQLiteDB.add_tasks 100 [StoreSpec.cafe_task] Store.empty))
              (Store.MkStore [Store.set_running 110 (Store.new_task 1 100 StoreSpec.cafe_task)]
                 [] [] [] 1 0 0)
              (Store.set_running 110 (Store.new_task 1 100 StoreSpec.cafe_task)))
    as (_ & _ & _ & H4).
  - apply sqlite_add_then_pick; [reflexivity | lia].
  - pose proof (H4 "boom" "links" 120 30 130) as H5.
    cbn [Store.t_id Store.set_running Store.new_task] in H5.
    destruct (snd (SQLiteDB.pick_next_task_for_links 30 130
                     (SQLiteDB.set_task_error 1 "boom" "links" 120
                        (Store.MkStore
                           [Store.set_running 110 (Store.new_task 1 100 StoreSpec.cafe_task)]
                           [] [] [] 1 0 0)))) as [r'|]; [|exact I].
    apply H5. reflexivity.
Defined.

Section Retry.
Import Store StoreSpec StoreSpec2.

Lemma in_updated id set s x :
  In x (tasks s) ->
  In (if t_id x =? id then set x else x) (tasks (update_task_where_id id set s)).
Proof.
  intros Hx. unfold update_task_where_id, with_tasks. simpl.
  apply (in_map (fun r => if t_id r =? id then set r else r)), Hx.
Qed.

Lemma pg_reclaimable :
  reclaimable_after_retry PostgresDB.pick_next_task_for_links PostgresDB.retry_task
    (fun max x => PyStr.starts_with "LINKS" (t_mode x) = true /\ 0 < max).
Proof.
  intros max now now' s x Hx [Hm Hmax].
  pose proof (in_updated (t_id x) (set_status_attempts_error "RETRY" 0 None now) s x Hx) as Hin.
  rewrite Z.eqb_refl in Hin.
  assert (Hw : PostgresDB.where_pick max (set_status_attempts_error "RETRY" 0 None now x) = true).
  { unfold PostgresDB.where_pick, claimable.
    cbn [t_mode t_status t_attempts set_status_attempts_error]. rewrite Hm.
    apply Z.ltb_lt in Hmax. rewrite Hmax. reflexivity. }
  unfold PostgresDB.pick_next_task_for_links, PostgresDB.stmt_select_for_update.
  fold (PostgresDB.retry_task (t_id x) now s) in Hin.
  destruct (select_first_task _ (PostgresDB.retry_task (t_id x) now s)) as [r0|] eqn:Hsel.
  - exists r0. split; [reflexivity|].
    apply select_first_task_spec in Hsel as (_ & _ & Hleast).
    apply (Hleast _ Hin). rewrite Hw. reflexivity.
  - pose proof (select_first_task_none _ _ Hsel _ Hin) as H.
    cbn [existsb negb] in H. rewrite andb_true_r in H. congruence.
Qed.

Lemma sqlite_reclaimable :
  reclaimable_after_retry SQLiteDB.pick_next_task_for_links SQLiteDB.retry_task
    (fun max x =>
       SQLiteDB.like_infix "LINKS" (t_mode x) || SQLiteDB.like_infix "MAPSCAN" (t_mode x) = true
       /\ t_attempts x < max).
Proof.
  intros max now now' s x Hx [Hm Hmax].
  pose proof (in_updated (t_id x) (set_status_error "RETRY" None now) s x Hx) as Hin.
  rewrite Z.eqb_refl in Hin.
  assert (Hw : SQLiteDB.where_pick max (set_status_error "RETRY" None now x) = true).
  { unfold SQLiteDB.where_pick, claimable.
    cbn [t_mode t_status t_attempts set_status_error]. rewrite Hm.
    apply Z.ltb_lt in Hmax. rewrite Hmax. reflexivity. }
  fold (SQLiteDB.retry_task (t_id x) now s) in Hin.
  unfold SQLiteDB.pick_next_task_for_links, SQLiteDB.stmt_select.
  destruct (select_first_task _ (SQLiteDB.retry_task (t_id x) now s)) as [r0|] eqn:Hsel.
  - apply select_first_task_spec in Hsel as (Hin0 & _ & Hleast).
    specialize (Hleast _ Hin Hw). cbn [t_id set_status_error] in Hleast.
    destruct (reselect_some (t_id r0)
                (SQLiteDB.stmt_update (t_id r0) now' (SQLiteDB.retry_task (t_id x) now s)))
      as (r & Hr & Hid).
    { rewrite sqlite_update_ids. apply in_map, Hin0. }
    exists r. cbn [snd]. split; [exact Hr | lia].
  - pose proof (select_first_task_none _ _ Hsel _ Hin) as H. congruence.
Qed.

(** SQLite: [retry_task] does not give back the attempts, so a task that
    has used them up stays out of reach. *)
Lemma sqlite_retry_exhausted max now now' s id r :
  (forall x, In x (tasks s) -> t_id x = id -> max <= t_attempts x) ->
  snd (SQLiteDB.pick_next_task_for_links max now' (SQLiteDB.retry_task id now s)) = Some r ->
  t_id r <> id.
Proof.
  intros Hex. apply sqlite_never_returns. intros x Hx E. right.
  unfold SQLiteDB.retry_task, update_task_where_id, with_tasks in Hx. simpl in Hx.
  apply in_map_iff in Hx as (x0 & Ex & Hx0).
  destruct (t_id x0 =? id) eqn:E0; subst x.
  - apply Z.eqb_eq in E0. apply (Hex x0 Hx0 E0).
  - apply (Hex x0 Hx0 E).
Qed.

End Retry.

(** X4: after [retry_task] the task can be claimed again: in PostgreSQL
    whenever its mode starts with LINKS and [max_attempts] is positive; in
    SQLite whenever its mode passes the LIKE tests and its attempts, which
    SQLite's [retry_task] keeps, are below [max_attempts].  The next
    [pick_next_task_for_links] then hands out a task whose id is not above
    the retried one.  In SQLite a task whose attempts have reached
    [max_attempts] is still never handed out after [retry_task]. *)
Theorem X4_retry_then_pick :
  StoreSpec2.reclaimable_after_retry PostgresDB.pick_next_task_for_links
    PostgresDB.retry_task
    (fun max x => PyStr.starts_with "LINKS" (Store.t_mode x) = true /\ 0 < max)
  /\ StoreSpec2.reclaimable_after_retry SQLiteDB.pick_next_task_for_links
       SQLiteDB.retry_task
       (fun max x =>
          SQLiteDB.like_infix "LINKS" (Store.t_mode x)
          || SQLiteDB.like_infix "MAPSCAN" (Store.t_mode x) = true
          /\ Store.t_attempts x < max)
  /\ (forall max now now' s id r,
        (forall x, In x (Store.tasks s) -> Store.t_id x = id -> max <= Store.t_attempts x) ->
        snd (SQLiteDB.pick_next_task_for_links max now'
               (SQLiteDB.retry_task id now s)) = Some r ->
        Store.t_id r <> id).
Proof.
  split; [apply pg_reclaimable|]. split; [apply sqlite_reclaimable|].
  apply sqlite_retry_exhausted.
Qed.

(** An instance: the task that failed three times, retried; with a bound
    of 3 attempts SQLite does not hand it out again, PostgreSQL does. *)
Lemma X4_retry_then_pick_witness :
  (exists r,
     snd (PostgresDB.pick_next_task_for_links 3 210
            (PostgresDB.retry_task 1 200 StoreSpec.store_with_failed_task)) = Some r
     /\ Store.t_id r <= 1)
  /\ forall r,
       snd (SQLiteDB.pick_next_task_for_links 3 210
              (SQLiteDB.retry_task 1 200 StoreSpec.store_with_failed_task)) = Some r ->
       Store.t_id r <> 1.
Proof.
  destruct X4_retry_then_pick as (Hpg & _ & Hsq). split.
  - apply (Hpg 3 200 210 StoreSpec.store_with_failed_task StoreSpec.failed_task).
    + left. reflexivity.
    + split; [reflexivity | lia].
  - intros r. apply (Hsq 3 200 210 StoreSpec.store_with_failed_task 1 r).
    intros x [<-|[]] _. simpl. lia.
Defined.

(** * The job store: bulk insert, delete, clear *)

Section BulkAndDelete.
Import Store StoreSpec StoreSpec2.

Lemma insert_tasks_spec now ts : forall s,
  let s' := fold_left (fun s t => insert_task now t s) ts s in
  tasks s' = (tasks s ++ new_tasks_from (seq_tasks s + 1) now ts)%list
  /\ seq_tasks s' = seq_tasks s + Z.of_nat (length ts)
  /\ only_tasks_grow s s'.
Proof.
  induction ts as [|t ts IH]; intros s; cbn [fold_left new_tasks_from length].
  - rewrite List.app_nil_r. unfold only_tasks_grow. split; [reflexivity|].
    split; [lia | auto 6].
  - destruct (IH (insert_task now t s)) as (H1 & H2 & H3 & H4 & H5 & H6 & H7).
    cbn zeta in *. rewrite H1, H2. cbn [insert_task tasks seq_tasks].
    rewrite <- List.app_assoc. split; [reflexivity|]. split; [lia|].
    unfold only_tasks_grow. rewrite H3, H4, H5, H6, H7. auto 6.
Qed.

Lemma sqlite_appends_tasks : appends_tasks SQLiteDB.add_tasks.
Proof.
  intros now ts s s'. subst s'. unfold SQLiteDB.add_tasks. destruct ts as [|t ts].
  - cbn [fst snd length new_tasks_from]. rewrite List.app_nil_r.
    unfold only_tasks_grow. split; [reflexivity|]. split; [reflexivity|].
    split; [lia|]. split; [auto 6 | auto].
  - cbn [fst snd]. destruct (insert_tasks_spec now (t :: ts) s) as (H1 & H2 & H3).
    split; [reflexivity|]. split; [exact H1|]. split; [exact H2|]. split; [exact H3|].
    apply insert_tasks_keyed.
Qed.

Lemma pg_appends_tasks : appends_tasks PostgresDB.add_tasks.
Proof.
  intros now ts s s'. subst s'. unfold PostgresDB.add_tasks. cbn [fst snd].
  destruct (insert_tasks_spec now ts s) as (H1 & H2 & H3).
  split; [reflexivity|]. split; [exact H1|]. split; [exact H2|]. split; [exact H3|].
  apply insert_tasks_keyed.
Qed.

Lemma filter_all {A} (f : A -> bool) (l : list A) :
  (forall x, In x l -> f x = true) -> List.filter f l = l.
Proof.
  induction l as [|x l IH]; intros H; simpl; [reflexivity|].
  rewrite (H x (or_introl eq_refl)). f_equal. apply IH. intros y Hy. apply H. right. exact Hy.
Qed.

Lemma filter_filter_same {A} (f : A -> bool) (l : list A) :
  List.filter f (List.filter f l) = List.filter f l.
Proof. apply filter_all. intros x Hx. apply List.filter_In in Hx. apply Hx. Qed.

Lemma NoDup_map_filter {A B} (g : A -> B) (f : A -> bool) (l : list A) :
  NoDup (List.map g l) -> NoDup (List.map g (List.filter f l)).
Proof.
  induction l as [|x l IH]; simpl; intros H; [exact H|].
  apply NoDup_cons in H as [Hx Hnd]. destruct (f x); simpl; [|auto].
  apply NoDup_cons. split; [|auto].
  intros Hin. apply Hx. apply list_elem_of_In in Hin. apply list_elem_of_In.
  apply in_map_iff in Hin as (y & E & Hy). apply List.filter_In in Hy as [Hy _].
  apply in_map_iff. eauto.
Qed.

Lemma neq_negb_eqb (a b : Z) : negb (a =? b) = true <-> a <> b.
Proof. rewrite negb_true_iff. apply Z.eqb_neq. Qed.

Lemma delete_task_spec : deletes_task
  (fun id s => delete_task_where_id id
                 (delete_links_where_task id (delete_sources_where_task id s))).
Proof.
  intros id s s'. subst s'.
  unfold delete_task_where_id, delete_links_where_task, delete_sources_where_task, with_tasks.
  cbn [tasks links orgs org_sources seq_tasks seq_links seq_sources].
  assert (Ht : forall r, In r (List.filter (fun r => negb (t_id r =? id)) (tasks s))
                         <-> In r (tasks s) /\ t_id r <> id).
  { intros r. rewrite List.filter_In, neq_negb_eqb. reflexivity. }
  assert (Hl : forall l, In l (List.filter (fun l => negb (l_task_id l =? id)) (links s))
                         <-> In l (links s) /\ l_task_id l <> id).
  { intros l. rewrite List.filter_In, neq_negb_eqb. reflexivity. }
  assert (Hs : forall x, In x (List.filter (fun r => negb (s_task_id r =? id)) (org_sources s))
                         <-> In x (org_sources s) /\ s_task_id x <> id).
  { intros x. rewrite List.filter_In, neq_negb_eqb. reflexivity. }
  split; [intros r Hr; apply Ht in Hr; apply Hr|].
  split; [intros l Hx; apply Hl in Hx; apply Hx|].
  split; [intros x Hx; apply Hs in Hx; apply Hx|].
  split; [exact Ht|]. split; [exact Hl|]. split; [exact Hs|].
  split; [reflexivity|]. split; [reflexivity|]. split; [reflexivity|].
  split; [reflexivity|]. split.
  { intros H1 H2 H3. destruct s as [ts ls os ss n1 n2 n3]. simpl in *.
    rewrite !filter_all; [reflexivity | | |].
    - intros r Hr. apply neq_negb_eqb. auto.
    - intros x Hx. apply neq_negb_eqb. auto.
    - intros l Hx. apply neq_negb_eqb. auto. }
  split.
  { rewrite !filter_filter_same. reflexivity. }
  split.
  - intros [Hnd Hle]. split; simpl.
    + apply NoDup_map_filter, Hnd.
    + apply List.Forall_forall. intros r Hr. apply List.filter_In in Hr as [Hr _].
      rewrite List.Forall_forall in Hle. auto.
  - intros Hu. unfold links_unique. simpl. apply NoDup_map_filter, Hu.
Qed.

End BulkAndDelete.

(** X5: in both backends [add_tasks] returns the number of dicts given,
    appends one PENDING row with no attempts per dict, in the order given
    and with consecutive fresh ids, changes no other table, and keeps [id]
    a key of [tasks]. *)
Theorem X5_add_tasks_appends_fresh_pending_rows :
  StoreSpec2.appends_tasks SQLiteDB.add_tasks
  /\ StoreSpec2.appends_tasks PostgresDB.add_tasks.
Proof. split; [apply sqlite_appends_tasks | apply pg_appends_tasks]. Qed.

(** An instance: two tasks added to the store that holds task 1. *)
Lemma X5_add_tasks_witness :
  Store.tasks_keyed
    (fst (SQLiteDB.add_tasks 300 [StoreSpec.cafe_task; StoreSpec.cafe_task]
            StoreSpec.store_with_failed_task)).
Proof.
  destruct X5_add_tasks_appends_fresh_pending_rows as [H _].
  destruct (H 300 [StoreSpec.cafe_task; StoreSpec.cafe_task] StoreSpec.store_with_failed_task)
    as (_ & _ & _ & _ & K).
  apply K. split; simpl; [apply NoDup_singleton | constructor; [simpl; lia | constructor]].
Defined.

(** X6: in both backends [delete_task] removes the task row and every link
    and provenance row that refers to it, keeps exactly the rows of other
    tasks, leaves organisations and id generators alone, changes nothing
    when nothing refers to the id, is idempotent, and keeps the key of
    [tasks] and the uniqueness of [links.org_id]. *)
Theorem X6_delete_task_cascades :
  StoreSpec2.deletes_task SQLiteDB.delete_task
  /\ StoreSpec2.deletes_task PostgresDB.delete_task.
Proof. split; apply delete_task_spec. Qed.

(** An instance: deleting an id that no row refers to. *)
Lemma X6_delete_task_witness :
  SQLiteDB.delete_task 9 StoreSpec.store_with_failed_task = StoreSpec.store_with_failed_task.
Proof.
  destruct X6_delete_task_cascades as [H _].
  destruct (H 9 StoreSpec.store_with_failed_task)
    as (_ & _ & _ & _ & _ & _ & _ & _ & _ & _ & Hnoop & _).
  apply Hnoop.
  - intros r [<-|[]]. simpl. lia.
  - intros l [].
  - intros x [].
Defined.

(** * The job store: unresolved links and statistics *)

Section Unresolved.
Import Store StoreSpec StoreSpec2.

Lemma lowest_link_id_in rows l : lowest_link_id rows = Some l -> In l rows.
Proof.
  revert l. induction rows as [|x rows IH]; simpl; intros l H; [discriminate|].
  destruct (lowest_link_id rows) as [m|].
  - destruct (l_id x <=? l_id m); inversion H; subst; auto.
  - inversion H; auto.
Qed.

Lemma lowest_link_id_none rows : lowest_link_id rows = None -> rows = [].
Proof.
  destruct rows as [|x rows]; [reflexivity|]. simpl.
  destruct (lowest_link_id rows) as [m|]; [destruct (l_id x <=? l_id m)|]; discriminate.
Qed.

Lemma lowest_link_id_least rows l :
  lowest_link_id rows = Some l -> forall l', In l' rows -> l_id l <= l_id l'.
Proof.
  revert l. induction rows as [|x rows IH]; simpl; intros l H l' Hl'; [contradiction|].
  destruct (lowest_link_id rows) as [m|] eqn:Hm.
  - specialize (IH m eq_refl).
    destruct (l_id x <=? l_id m) eqn:E; inversion H; subst.
    + apply Z.leb_le in E. destruct Hl' as [<-|Hl']; [lia|].
      specialize (IH l' Hl'). lia.
    + apply Z.leb_gt in E. destruct Hl' as [<-|Hl']; [lia|]. auto.
  - inversion H; subst. apply lowest_link_id_none in Hm. subst rows.
    destruct Hl' as [<-|[]]. lia.
Qed.

Lemma unresolved_links_in s l :
  In l (unresolved_links s) <-> In l (links s) /\ has_org (l_org_id l) (orgs s) = false.
Proof.
  unfold unresolved_links, unresolved. rewrite List.filter_In, negb_true_iff. reflexivity.
Qed.

Lemma fetch_spec : fetches_oldest_unresolved (fun s => lowest_link_id (unresolved_links s)).
Proof.
  intros s. destruct (lowest_link_id (unresolved_links s)) as [l|] eqn:E.
  - pose proof (lowest_link_id_in _ _ E) as Hin. apply unresolved_links_in in Hin as [H1 H2].
    split; [exact H1|]. split; [exact H2|]. intros l' Hl' Hu.
    apply (lowest_link_id_least _ _ E). apply unresolved_links_in. auto.
  - apply lowest_link_id_none in E. intros l Hl.
    destruct (has_org (l_org_id l) (orgs s)) eqn:Ho; [reflexivity|].
    assert (Hin : In l (unresolved_links s)) by (apply unresolved_links_in; auto).
    rewrite E in Hin. destruct Hin.
Qed.

(** After an upsert the organisations present are the old ones and the
    upserted one. *)
Lemma has_org_upsert oid e s :
  has_org oid (orgs (insert_or_update_org e s))
  = has_org oid (orgs s) || String.eqb (o_org_id e) oid.
Proof.
  destruct (String.eqb (o_org_id e) oid) eqn:E.
  - apply String.eqb_eq in E. subst oid. rewrite has_org_after, orb_true_r. reflexivity.
  - rewrite orb_false_r. unfold insert_or_update_org.
    destruct (has_org (o_org_id e) (orgs s)) eqn:H; simpl.
    + clear H. unfold has_org. induction (orgs s) as [|o os IH]; simpl; [reflexivity|].
      rewrite IH. f_equal. destruct (String.eqb (o_org_id o) (o_org_id e)); reflexivity.
    + unfold has_org. rewrite existsb_app. simpl. rewrite E, !orb_false_r. reflexivity.
Qed.

Lemma upsert_org_count e s :
  has_org (o_org_id e) (orgs s) = false ->
  length (orgs (insert_or_update_org e s)) = S (length (orgs s)).
Proof.
  intros H. unfold insert_or_update_org. rewrite H. simpl.
  rewrite List.length_app. simpl. lia.
Qed.

(** Taking out the one row with a given key. *)
Lemma filter_remove_unique (ls : list link_row) (f : link_row -> bool) (l : link_row) :
  NoDup (List.map l_org_id ls) -> In l ls -> f l = true ->
  length (List.filter (fun x => f x && negb (String.eqb (l_org_id l) (l_org_id x))) ls)
  = (length (List.filter f ls) - 1)%nat.
Proof.
  induction ls as [|x ls IH]; simpl; intros Hnd Hin Hf; [contradiction|].
  apply NoDup_cons in Hnd as [Hx Hnd]. rewrite list_elem_of_In in Hx.
  destruct Hin as [->|Hin].
  - rewrite Hf, String.eqb_refl. simpl. rewrite Nat.sub_0_r. f_equal.
    apply List.filter_ext_in. intros y Hy.
    destruct (String.eqb (l_org_id l) (l_org_id y)) eqn:E; [|rewrite andb_true_r; reflexivity].
    apply String.eqb_eq in E. exfalso. apply Hx. rewrite E. apply in_map, Hy.
  - assert (Hne : String.eqb (l_org_id l) (l_org_id x) = false).
    { apply String.eqb_neq. intros E. apply Hx. rewrite <- E. apply in_map, Hin. }
    rewrite Hne, andb_true_r. destruct (f x); simpl.
    + rewrite (IH Hnd Hin Hf).
      assert (0 < length (List.filter f ls))%nat; [|lia].
      assert (Hl : In l (List.filter f ls)) by (apply List.filter_In; auto).
      destruct (List.filter f ls); [destruct Hl | simpl; lia].
    + apply IH; assumption.
Qed.

Lemma upsert_resolves_holds :
  upsert_resolves (fun t org => insert_or_update_org (org_of_dict t org))
    (fun s => lowest_link_id (unresolved_links s)) stats_of.
Proof.
  intros now org s l Hu Hin Hun Eid s'. subst s'.
  set (e := org_of_dict now org).
  assert (Ee : o_org_id e = l_org_id l) by exact Eid.
  assert (Hlinks : links (insert_or_update_org e s) = links s)
    by (destruct (insert_or_update_org_frame e s) as (_ & H & _); exact H).
  unfold stats_of. cbn [st_pending_orgs st_total_links st_total_orgs].
  split; [|split; [|split; [|split]]].
  - unfold unresolved_links. rewrite Hlinks.
    rewrite (List.filter_ext (unresolved (insert_or_update_org e s))
               (fun x => unresolved s x && negb (String.eqb (l_org_id l) (l_org_id x)))).
    + rewrite (filter_remove_unique (links s) (unresolved s) l Hu Hin).
      * assert (0 < length (List.filter (unresolved s) (links s)))%nat; [|lia].
        assert (Hl : In l (List.filter (unresolved s) (links s))).
        { apply List.filter_In. split; [exact Hin|]. unfold unresolved. rewrite Hun. reflexivity. }
        destruct (List.filter (unresolved s) (links s)); [destruct Hl | simpl; lia].
      * unfold unresolved. rewrite Hun. reflexivity.
    + intros x. unfold unresolved. rewrite has_org_upsert, Ee, negb_orb. reflexivity.
  - rewrite Hlinks. reflexivity.
  - rewrite upsert_org_count by (rewrite Ee; exact Hun). lia.
  - intros Hf. pose proof (fetch_spec (insert_or_update_org e s)) as Hs.
    cbv beta in Hs. rewrite Hf in Hs. destruct Hs as (_ & Hno & _).
    rewrite has_org_upsert, Ee, String.eqb_refl, orb_true_r in Hno. discriminate.
  - intros l' Hl' Hne. rewrite has_org_upsert, Ee.
    assert (Hd : String.eqb (l_org_id l) (l_org_id l') = false).
    { apply String.eqb_neq. intros E. apply Hne.
      clear -Hu Hin Hl' E. unfold links_unique in Hu.
      induction (links s) as [|x ls IH]; [destruct Hin|].
      simpl in Hu. apply NoDup_cons in Hu as [Hx Hnd]. rewrite list_elem_of_In in Hx.
      destruct Hin as [->|Hin], Hl' as [->|Hl']; auto.
      - exfalso. apply Hx. rewrite E. apply in_map, Hl'.
      - exfalso. apply Hx. rewrite <- E. apply in_map, Hin. }
    rewrite Hd, orb_false_r. reflexivity.
Qed.

End Unresolved.

(** X7: in both backends [fetch_next_link] returns the link with the least
    id among those whose organisation id has no row in [orgs], and [None]
    exactly when every link has one. *)
Theorem X7_fetch_next_link_oldest_unresolved :
  StoreSpec2.fetches_oldest_unresolved SQLiteDB.fetch_next_link
  /\ StoreSpec2.fetches_oldest_unresolved PostgresDB.fetch_next_link.
Proof. split; apply fetch_spec. Qed.

(** X8: in both backends, with [links.org_id] unique, [upsert_org] for the
    organisation id of an unresolved link lowers [pending_orgs] of [stats]
    by one, raises [total_orgs] by one, keeps [total_links], leaves every
    other link as resolved or unresolved as it was, and the link is not
    returned by [fetch_next_link] any more. *)
Theorem X8_upsert_org_resolves_one_link :
  StoreSpec2.upsert_resolves SQLiteDB.upsert_org SQLiteDB.fetch_next_link SQLiteDB.stats
  /\ StoreSpec2.upsert_resolves PostgresDB.upsert_org PostgresDB.fetch_next_link
       PostgresDB.stats.
Proof. split; apply upsert_resolves_holds. Qed.

(** An instance: the one link of the store is resolved. *)
Lemma X8_upsert_org_resolves_witness :
  Store.st_pending_orgs
    (SQLiteDB.stats (SQLiteDB.upsert_org 130 StoreSpec.cafe_org StoreSpec2.store_with_link))
  = Store.st_pending_orgs (SQLiteDB.stats StoreSpec2.store_with_link) - 1.
Proof.
  destruct X8_upsert_org_resolves_one_link as [H _].
  destruct (H 130 StoreSpec.cafe_org StoreSpec2.store_with_link
              (Store.new_link 1 120 StoreSpec.claimed_task "123456"
                 "https://yandex.by/maps/org/cafe/123456/" "LINKS_MAPSCAN_SEARCH"))
    as (H1 & _).
  - apply NoDup_singleton.
  - left. reflexivity.
  - reflexivity.
  - reflexivity.
  - exact H1.
Defined.

Section Stats.
Import Store StoreSpec StoreSpec2.

Lemma count_status_cons st r rows :
  count_status st (r :: rows)
  = (if String.eqb (t_status r) st then 1 else 0) + count_status st rows.
Proof.
  unfold count_status. simpl. destruct (String.eqb (t_status r) st); simpl length; lia.
Qed.

Lemma count_status_nonneg st rows : 0 <= count_status st rows.
Proof. unfold count_status. lia. Qed.

(** The dict built by the fold: each status is bound to the count already
    there plus the number of rows with that status. *)
Lemma fold_count rows : forall (m : gmap string Z) (st : string),
  fold_left (fun m r => <[t_status r := default 0 (m !! t_status r) + 1]> m) rows m !! st
  = if count_status st rows =? 0 then m !! st
    else Some (default 0 (m !! st) + count_status st rows).
Proof.
  induction rows as [|r rows IH]; intros m st; cbn [fold_left].
  - reflexivity.
  - rewrite IH, count_status_cons. pose proof (count_status_nonneg st rows) as Hn.
    destruct (String.eqb (t_status r) st) eqn:E.
    + apply String.eqb_eq in E. subst st. rewrite lookup_insert_eq. cbn [default].
      destruct (count_status (t_status r) rows =? 0) eqn:E0.
      * apply Z.eqb_eq in E0. rewrite E0.
        replace (1 + 0 =? 0) with false by (symmetry; apply Z.eqb_neq; lia).
        unfold id. f_equal; lia.
      * replace (1 + count_status (t_status r) rows =? 0) with false
          by (symmetry; apply Z.eqb_neq; lia).
        unfold id. f_equal; lia.
    + apply String.eqb_neq in E. rewrite lookup_insert_ne by exact E.
      rewrite Z.add_0_l. reflexivity.
Qed.

Lemma stats_reports : reports_counts stats_of (fun s => lowest_link_id (unresolved_links s)).
Proof.
  intros s. unfold stats_of. cbn [st_tasks st_total_links st_total_orgs st_pending_orgs].
  split.
  { intros st. unfold count_by_status. rewrite fold_count, lookup_empty. cbn [default].
    rewrite Z.add_0_l. reflexivity. }
  split; [reflexivity|]. split; [reflexivity|]. split.
  { split; [lia|]. unfold unresolved_links.
    pose proof (List.filter_length_le (unresolved s) (links s)). lia. }
  split.
  - intros H. destruct (unresolved_links s) as [|l ls] eqn:E; [reflexivity|].
    simpl in H. lia.
  - intros H. apply lowest_link_id_none in H. rewrite H. reflexivity.
Qed.

End Stats.

(** X9: in both backends the [tasks] dict of [stats] binds a status to the
    number of tasks with that status and has no entry for a status that no
    task has; [total_links] and [total_orgs] are the table sizes;
    [pending_orgs] lies between 0 and [total_links] and is 0 exactly when
    [fetch_next_link] returns [None]. *)
Theorem X9_stats_counts :
  StoreSpec2.reports_counts SQLiteDB.stats SQLiteDB.fetch_next_link
  /\ StoreSpec2.reports_counts PostgresDB.stats PostgresDB.fetch_next_link.
Proof. split; apply stats_reports. Qed.

(** * The job store: clearing, requeueing, listing *)

Section Admin.
Import Store StoreSpec StoreSpec2.

Lemma sqlite_requeue_lookup now s (i : nat) x :
  tasks s !! i = Some x ->
  tasks (SQLiteDB.requeue_all_tasks now s) !! i
  = Some (if String.eqb (t_status x) "RUNNING" then x
          else set_status_attempts_error "RETRY" 0 None now x).
Proof.
  intros H. unfold SQLiteDB.requeue_all_tasks, update_tasks_where, with_tasks. simpl.
  rewrite lookup_map, H. simpl. destruct (String.eqb (t_status x) "RUNNING"); reflexivity.
Qed.

Lemma sqlite_requeue_keeps_running now s id :
  (forall x, In x (tasks s) -> t_id x = id -> t_status x = "RUNNING") ->
  forall x, In x (tasks (SQLiteDB.requeue_all_tasks now s)) -> t_id x = id ->
    open_status x = false.
Proof.
  intros Hrun x Hx E.
  unfold SQLiteDB.requeue_all_tasks, update_tasks_where, with_tasks in Hx. simpl in Hx.
  apply in_map_iff in Hx as (x0 & Ex & Hx0).
  destruct (String.eqb (t_status x0) "RUNNING") eqn:Er; simpl in Ex; subst x.
  - apply String.eqb_eq in Er. unfold open_status. rewrite Er. reflexivity.
  - apply String.eqb_neq in Er. exfalso. apply Er. apply Hrun; [exact Hx0 | exact E].
Qed.

Lemma pg_requeue_claimable now now' s x max :
  In x (tasks s) -> PyStr.starts_with "LINKS" (t_mode x) = true -> 0 < max ->
  exists r, snd (PostgresDB.pick_next_task_for_links max now'
                   (PostgresDB.requeue_all_tasks now s)) = Some r
            /\ t_id r <= t_id x.
Proof.
  intros Hx Hm Hmax.
  set (x' := set_status_attempts_error "RETRY" 0 None now x).
  assert (Hin : In x' (tasks (PostgresDB.requeue_all_tasks now s))).
  { unfold PostgresDB.requeue_all_tasks, update_tasks_where, with_tasks. simpl.
    apply (in_map (fun r => set_status_attempts_error "RETRY" 0 None now r)), Hx. }
  assert (Hw : PostgresDB.where_pick max x' = true).
  { unfold PostgresDB.where_pick, claimable, x'.
    cbn [t_mode t_status t_attempts set_status_attempts_error]. rewrite Hm.
    apply Z.ltb_lt in Hmax. rewrite Hmax. reflexivity. }
  unfold PostgresDB.pick_next_task_for_links, PostgresDB.stmt_select_for_update.
  destruct (select_first_task _ (PostgresDB.requeue_all_tasks now s)) as [r0|] eqn:Hsel.
  - exists r0. split; [reflexivity|].
    apply select_first_task_spec in Hsel as (_ & _ & Hleast).
    apply (Hleast _ Hin). rewrite Hw. reflexivity.
  - pose proof (select_first_task_none _ _ Hsel _ Hin) as H.
    cbn [existsb negb] in H. rewrite andb_true_r in H. congruence.
Qed.

End Admin.

(** X10: [clear_tasks] empties all four tables in both backends, so
    [stats] reports nothing, nothing can be claimed and no link is
    pending.  Tasks added afterwards get ids that go on from the last id
    ever used in SQLite (AUTOINCREMENT), and ids from 1 in PostgreSQL
    (RESTART IDENTITY). *)
Theorem X10_clear_tasks_empties_and_ids :
  forall (s : Store.store) (now : Store.timestamp) (max : Z)
         (ts : list (gmap string string)),
    SQLiteDB.stats (SQLiteDB.clear_tasks s) = Store.Stats ∅ 0 0 0
    /\ PostgresDB.stats (PostgresDB.clear_tasks s) = Store.Stats ∅ 0 0 0
    /\ snd (SQLiteDB.pick_next_task_for_links max now (SQLiteDB.clear_tasks s)) = None
    /\ snd (PostgresDB.pick_next_task_for_links max now (PostgresDB.clear_tasks s)) = None
    /\ SQLiteDB.fetch_next_link (SQLiteDB.clear_tasks s) = None
    /\ PostgresDB.fetch_next_link (PostgresDB.clear_tasks s) = None
    /\ Store.tasks (fst (SQLiteDB.add_tasks now ts (SQLiteDB.clear_tasks s)))
       = StoreSpec2.new_tasks_from (Store.seq_tasks s + 1) now ts
    /\ Store.tasks (fst (PostgresDB.add_tasks now ts (PostgresDB.clear_tasks s)))
       = StoreSpec2.new_tasks_from 1 now ts.
Proof.
  intros s now max ts.
  repeat (split; [reflexivity|]). split.
  - destruct (sqlite_appends_tasks now ts (SQLiteDB.clear_tasks s)) as (_ & H & _).
    exact H.
  - destruct (pg_appends_tasks now ts (PostgresDB.clear_tasks s)) as (_ & H & _).
    exact H.
Qed.

(** X11: SQLite's [requeue_all_tasks] leaves RUNNING tasks as they are and
    sets every other task to RETRY with no attempts and no error, touching
    no other table; a task that is RUNNING is therefore still not handed
    out afterwards.  PostgreSQL's [requeue_all_tasks] resets every task,
    RUNNING ones included, and deletes all links and provenance rows
    (organisations stay); afterwards any task whose mode starts with LINKS
    can be claimed, whatever its status was. *)
Theorem X11_requeue_all_tasks_differs_by_backend :
  forall (now : Store.timestamp) (s : Store.store),
    (StoreSpec.only_tasks_differ s (SQLiteDB.requeue_all_tasks now s)
     /\ (forall (i : nat) (x : Store.task_row), Store.tasks s !! i = Some x ->
           Store.tasks (SQLiteDB.requeue_all_tasks now s) !! i
           = Some (if String.eqb (Store.t_status x) "RUNNING" then x
                   else Store.set_status_attempts_error "RETRY" 0 None now x))
     /\ (forall id,
           (forall x, In x (Store.tasks s) -> Store.t_id x = id ->
              Store.t_status x = "RUNNING") ->
           forall max now' r,
             snd (SQLiteDB.pick_next_task_for_links max now'
                    (SQLiteDB.requeue_all_tasks now s)) = Some r ->
             Store.t_id r <> id))
    /\ (Store.links (PostgresDB.requeue_all_tasks now s) = []
        /\ Store.org_sources (PostgresDB.requeue_all_tasks now s) = []
        /\ Store.orgs (PostgresDB.requeue_all_tasks now s) = Store.orgs s
        /\ Store.tasks (PostgresDB.requeue_all_tasks now s)
           = List.map (Store.set_status_attempts_error "RETRY" 0 None now) (Store.tasks s)
        /\ (forall x max now',
              In x (Store.tasks s) ->
              PyStr.starts_with "LINKS" (Store.t_mode x) = true -> 0 < max ->
              exists r,
                snd (PostgresDB.pick_next_task_for_links max now'
                       (PostgresDB.requeue_all_tasks now s)) = Some r
                /\ Store.t_id r <= Store.t_id x)).
Proof.
  intros now s. split; [split; [|split]|].
  - unfold StoreSpec.only_tasks_differ. auto 10.
  - intros i x. apply sqlite_requeue_lookup.
  - intros id Hrun max now' r. apply sqlite_never_returns.
    intros x Hx E. left. apply (sqlite_requeue_keeps_running now s id Hrun x Hx E).
  - split; [reflexivity|]. split; [reflexivity|]. split; [reflexivity|].
    split; [reflexivity|]. intros x max now' Hx Hm Hmax.
    apply pg_requeue_claimable; assumption.
Qed.

(** An instance: a task that is RUNNING when everything is requeued. *)
Lemma X11_requeue_all_tasks_witness :
  (forall r,
     snd (SQLiteDB.pick_next_task_for_links 30 300
            (SQLiteDB.requeue_all_tasks 200 StoreSpec2.store_with_link)) = Some r ->
     Store.t_id r <> 7)
  /\ exists r,
       snd (PostgresDB.pick_next_task_for_links 30 300
              (PostgresDB.requeue_all_tasks 200 StoreSpec2.store_with_link)) = Some r
       /\ Store.t_id r <= 7.
Proof.
  destruct (X11_requeue_all_tasks_differs_by_backend 200 StoreSpec2.store_with_link)
    as ((_ & _ & Hsq) & (_ & _ & _ & _ & Hpg)).
  split.
  - intros r. apply (Hsq 7).
    intros x [<-|[]] _. reflexivity.
  - apply (Hpg StoreSpec.claimed_task 30 300); [left; reflexivity | reflexivity | lia].
Defined.

(** * The job store: listing tasks *)

Section Listing.
Import Store StoreSpec2.

Local Abbreviation newer := (fun a b : task_row => t_id b <= t_id a).

Lemma insert_by_id_desc_perm r l : Permutation (insert_by_id_desc r l) (r :: l).
Proof.
  induction l as [|x l IH]; simpl; [reflexivity|].
  destruct (t_id x <=? t_id r); [reflexivity|].
  rewrite IH. apply perm_swap.
Qed.

Lemma order_by_id_desc_perm l : Permutation (order_by_id_desc l) l.
Proof.
  induction l as [|x l IH]; simpl; [reflexivity|].
  rewrite insert_by_id_desc_perm. apply perm_skip, IH.
Qed.

Lemma insert_by_id_desc_sorted r l :
  StronglySorted newer l -> StronglySorted newer (insert_by_id_desc r l).
Proof.
  induction 1 as [|x l Hs IH Hx]; simpl.
  - constructor; constructor.
  - destruct (t_id x <=? t_id r) eqn:E.
    + apply Z.leb_le in E. constructor; [constructor; assumption|].
      constructor; [exact E|].
      eapply Forall_impl; [exact Hx|]. simpl. intros y Hy. lia.
    + apply Z.leb_gt in E. constructor; [exact IH|].
      rewrite (insert_by_id_desc_perm r l). constructor; [lia | exact Hx].
Qed.

Lemma order_by_id_desc_sorted l : StronglySorted newer (order_by_id_desc l).
Proof.
  induction l as [|x l IH]; simpl; [constructor|].
  apply insert_by_id_desc_sorted, IH.
Qed.

Lemma listing_sorted l :
  StronglySorted newer l -> newest_first (List.map listing_of l).
Proof.
  unfold newest_first. induction 1 as [|x l Hs IH Hx]; simpl; constructor.
  - exact IH.
  - rewrite List.Forall_map. exact Hx.
Qed.

Lemma firstn_newest (n : nat) s :
  newest_tasks n s (firstn n (List.map listing_of (order_by_id_desc (tasks s)))).
Proof.
  set (M := List.map listing_of (order_by_id_desc (tasks s))).
  assert (Hs : newest_first M) by apply listing_sorted, order_by_id_desc_sorted.
  assert (Hp : Permutation (List.map listing_of (tasks s)) M).
  { apply Permutation_map. symmetry. apply order_by_id_desc_perm. }
  rewrite <- (firstn_skipn n M) in Hs.
  apply StronglySorted_app in Hs as (H12 & H1 & _).
  split; [exact H1|]. split.
  - rewrite length_firstn. f_equal.
    rewrite <- (length_map listing_of (tasks s)). symmetry.
    apply Permutation_length, Hp.
  - exists (skipn n M). split.
    + rewrite firstn_skipn. exact Hp.
    + intros x y Hx Hy. apply H12; apply list_elem_of_In; assumption.
Qed.

Lemma firstn_all_newest s :
  newest_tasks (length (tasks s)) s (List.map listing_of (order_by_id_desc (tasks s))).
Proof.
  pose proof (firstn_newest (length (tasks s)) s) as H.
  rewrite firstn_all2 in H; [exact H|].
  rewrite length_map. apply Nat.eq_le_incl, Permutation_length, order_by_id_desc_perm.
Qed.

End Listing.

(** X12: [list_tasks] returns the tasks with the highest ids, newest
    first.  In SQLite a limit of 0 is replaced by 200 and a negative limit
    returns every task; in PostgreSQL the limit is passed as it is, so 0
    returns no row and a negative limit is an error of the statement. *)
Theorem X12_list_tasks_newest_first_and_limits :
  forall (limit : Z) (s : Store.store),
    (0 < limit ->
       StoreSpec2.newest_tasks (Z.to_nat limit) s (SQLiteDB.list_tasks limit s)
       /\ PostgresDB.list_tasks limit s = Some (SQLiteDB.list_tasks limit s))
    /\ (limit = 0 ->
          StoreSpec2.newest_tasks 200 s (SQLiteDB.list_tasks limit s)
          /\ PostgresDB.list_tasks limit s = Some [])
    /\ (limit < 0 ->
          StoreSpec2.newest_tasks (length (Store.tasks s)) s (SQLiteDB.list_tasks limit s)
          /\ PostgresDB.list_tasks limit s = None).
Proof.
  intros limit s. unfold SQLiteDB.list_tasks, PostgresDB.list_tasks, SQLiteDB.limit_rows.
  split; [|split]; intros H.
  - destruct (limit =? 0) eqn:E0; [apply Z.eqb_eq in E0; lia|].
    destruct (limit <? 0) eqn:E1; [apply Z.ltb_lt in E1; lia|].
    split; [apply firstn_newest | reflexivity].
  - subst limit. split; [apply (firstn_newest 200) | reflexivity].
  - destruct (limit =? 0) eqn:E0; [apply Z.eqb_eq in E0; lia|].
    destruct (limit <? 0) eqn:E1; [|apply Z.ltb_ge in E1; lia].
    split; [apply firstn_all_newest | reflexivity].
Qed.

(** An instance: the three kinds of limit on a store with one task. *)
Lemma X12_list_tasks_witness :
  (StoreSpec2.newest_tasks 1 StoreSpec2.store_with_link
     (SQLiteDB.list_tasks 1 StoreSpec2.store_with_link)
   /\ PostgresDB.list_tasks 1 StoreSpec2.store_with_link
      = Some (SQLiteDB.list_tasks 1 StoreSpec2.store_with_link))
  /\ (StoreSpec2.newest_tasks 200 StoreSpec2.store_with_link
        (SQLiteDB.list_tasks 0 StoreSpec2.store_with_link)
      /\ PostgresDB.list_tasks 0 StoreSpec2.store_with_link = Some [])
  /\ (StoreSpec2.newest_tasks 1 StoreSpec2.store_with_link
        (SQLiteDB.list_tasks (-1) StoreSpec2.store_with_link)
      /\ PostgresDB.list_tasks (-1) StoreSpec2.store_with_link = None).
Proof.
  split; [|split].
  - apply (X12_list_tasks_newest_first_and_limits 1 StoreSpec2.store_with_link). lia.
  - apply (X12_list_tasks_newest_first_and_limits 0 StoreSpec2.store_with_link).
    reflexivity.
  - apply (X12_list_tasks_newest_first_and_limits (-1) StoreSpec2.store_with_link). lia.
Defined.

(** * The links worker *)

Section LinksWorker.
Import Store StoreSpec2 Pipeline PipelineSpec.

Variable db : db_api.
Variable where_ : Z -> task_row -> bool.

Hypothesis Hpick : forall max now s s' r,
  db_pick_next_task_for_links db max now s = (s', Some r) ->
  exists r0, In r0 (tasks s) /\ where_ max r0 = true /\ t_id r = t_id r0
    /\ (forall x, In x (tasks s) -> where_ max x = true -> t_id r0 <= t_id x)
    /\ s' = update_task_where_id (t_id r0) (set_running now) s.
Hypothesis Hnone : forall max now s s',
  db_pick_next_task_for_links db max now s = (s', None) ->
  s' = s /\ forall r, In r (tasks s) -> where_ max r = false.
Hypothesis Hgate : forall max r, where_ max r = true -> open_status r = true.
Hypothesis Hdone : forall id inserted t s, exists msg,
  db_set_task_links_done db id inserted t s
  = update_task_where_id id (set_status_error "DONE" msg t) s.
Hypothesis Hwait : forall id err worker t s, exists msg,
  db_set_task_waitcaptcha db id err worker t s
  = update_task_where_id id (set_status_error "WAITCAPTCHA" msg t) s.
Hypothesis Herr : forall id err worker t s, exists msg,
  db_set_task_error db id err worker t s
  = update_task_where_id id (set_status_error "ERROR" msg t) s.

Lemma ended_by_update id status msg t_pick t_end s s2 :
  tasks s2 = tasks (update_task_where_id id (set_running t_pick) s) ->
  ended id status t_pick t_end s
    (update_task_where_id id (set_status_error status msg t_end) s2).
Proof.
  intros E. exists msg. unfold update_task_where_id, with_tasks in *. simpl in *.
  rewrite E, List.map_map. apply List.map_ext. intros x.
  destruct (t_id x =? id) eqn:Ex; [|rewrite Ex; reflexivity].
  cbn [t_id set_running]. rewrite Ex. reflexivity.
Qed.

Lemma links_except_outcome id e t_pick t_end s s2 driver w' ev :
  tasks s2 = tasks (update_task_where_id id (set_running t_pick) s) ->
  links_except db id e t_end s2 driver = (w', ev) ->
  ev_taken ev = Some id
  /\ exists status,
       In (status, ev_sleep ev) outcomes
       /\ ended id status t_pick t_end s (w_store w')
       /\ (w_driver w' = driver \/ (w_driver w' = None /\ status = "ERROR")).
Proof.
  intros E H. unfold links_except in H.
  destruct (e_class e); inversion H; subst; clear H; cbn [ev_taken ev_sleep w_store w_driver];
    (split; [reflexivity|]).
  - destruct (Hwait id (e_str e) "links" t_end s2) as [msg ->].
    exists "WAITCAPTCHA". split; [right; left; reflexivity|].
    split; [apply ended_by_update, E | left; reflexivity].
  - destruct (Herr id (e_str e +:+ String "010" "" +:+ e_traceback e) "links" t_end s2)
      as [msg ->].
    exists "ERROR". split; [right; right; left; reflexivity|].
    split; [apply ended_by_update, E | left; reflexivity].
  - destruct (Herr id (e_str e +:+ String "010" "" +:+ e_traceback e) "links" t_end s2)
      as [msg ->].
    exists "ERROR". split; [right; right; left; reflexivity|].
    split; [apply ended_by_update, E | right; split; reflexivity].
Qed.

Lemma iteration_outcome : links_iteration_outcome db where_.
Proof.
  intros max links_fn make_driver t_pick t_end w w' ev Hfn H.
  unfold links_iteration in H.
  destruct (db_pick_next_task_for_links db max t_pick (w_store w)) as [s1 [task|]] eqn:Hp.
  - apply Hpick in Hp as (r0 & Hin & Hw & Hid & Hleast & ->).
    rewrite Hid in H.
    assert (Hres : ev_taken ev = Some (t_id r0)
      /\ exists status,
           In (status, ev_sleep ev) outcomes
           /\ ended (t_id r0) status t_pick t_end (w_store w) (w_store w')
           /\ forall h, w_driver w = Some h ->
                w_driver w' = Some h \/ (w_driver w' = None /\ status = "ERROR")).
    { unfold ensure_driver in H. destruct (w_driver w) as [h0|] eqn:Hd.
      - destruct (links_fn h0 task _) as [[inserted|e] s2] eqn:Hl.
        + inversion H; subst; clear H. cbn [ev_taken ev_sleep w_store w_driver].
          split; [reflexivity|].
          destruct (Hdone (t_id r0) inserted t_end s2) as [msg ->].
          exists "DONE". split; [left; reflexivity|]. split.
          * apply ended_by_update. pose proof (Hfn h0 task
              (update_task_where_id (t_id r0) (set_running t_pick) (w_store w))) as E.
            rewrite Hl in E. exact E.
          * intros h Eh. left. exact Eh.
        + apply (links_except_outcome _ _ t_pick _ (w_store w)) in H
            as (Ht & status & Ho & He & Hdrv).
          * split; [exact Ht|]. exists status. split; [exact Ho|]. split; [exact He|].
            intros h Eh. destruct Hdrv as [Hdrv|Hdrv]; [left; congruence | right; exact Hdrv].
          * pose proof (Hfn h0 task
              (update_task_where_id (t_id r0) (set_running t_pick) (w_store w))) as E.
            rewrite Hl in E. exact E.
      - destruct make_driver as [h1|e].
        + destruct (links_fn h1 task _) as [[inserted|e] s2] eqn:Hl.
          * inversion H; subst; clear H. cbn [ev_taken ev_sleep w_store w_driver].
            split; [reflexivity|].
            destruct (Hdone (t_id r0) inserted t_end s2) as [msg ->].
            exists "DONE". split; [left; reflexivity|]. split.
            -- apply ended_by_update. pose proof (Hfn h1 task
                 (update_task_where_id (t_id r0) (set_running t_pick) (w_store w))) as E.
               rewrite Hl in E. exact E.
            -- intros h Eh. discriminate Eh.
          * apply (links_except_outcome _ _ t_pick _ (w_store w)) in H
              as (Ht & status & Ho & He & _).
            -- split; [exact Ht|]. exists status. split; [exact Ho|]. split; [exact He|].
               intros h Eh. discriminate Eh.
            -- pose proof (Hfn h1 task
                 (update_task_where_id (t_id r0) (set_running t_pick) (w_store w))) as E.
               rewrite Hl in E. exact E.
        + apply (links_except_outcome _ _ t_pick _ (w_store w)) in H
            as (Ht & status & Ho & He & _); [|reflexivity].
          split; [exact Ht|]. exists status. split; [exact Ho|]. split; [exact He|].
          intros h Eh. discriminate Eh. }
    destruct Hres as (-> & Hres). split; [exists r0; auto|]. split; [exact Hleast|].
    exact Hres.
  - apply Hnone in Hp as [-> Hno]. inversion H; subst; clear H.
    cbn [ev_taken ev_sleep]. split; [destruct w; reflexivity|]. split; [reflexivity|].
    exact Hno.
Qed.

Lemma taken_cons ev evs :
  taken (ev :: evs)
  = match ev_taken ev with Some id => id :: taken evs | None => taken evs end.
Proof. reflexivity. Qed.

Lemma outcome_closed status sleep msg t r :
  In (status, sleep) outcomes ->
  final_status status /\ open_status (set_status_error status msg t r) = false.
Proof.
  unfold final_status, open_status.
  intros [E|[E|[E|[]]]]; inversion E; subst; cbn [t_status set_status_error]; auto.
Qed.

Lemma iteration_raises_bound max links_fn make_driver t_pick t_end w w' ev id :
  leaves_tasks links_fn ->
  links_iteration db max links_fn make_driver t_pick t_end w = (w', ev) ->
  ev_taken ev = Some id ->
  forall x, In x (tasks (w_store w')) -> where_ max x = true -> id < t_id x.
Proof.
  intros Hfn Hi Et x Hx Hw.
  pose proof (iteration_outcome _ _ _ _ _ _ _ _ Hfn Hi) as Ho. rewrite Et in Ho.
  destruct Ho as (_ & Hleast & status & Hin & [msg He] & _).
  rewrite He in Hx. apply in_map_iff in Hx as (x0 & <- & Hx0).
  destruct (t_id x0 =? id) eqn:E.
  - apply Hgate in Hw.
    destruct (outcome_closed _ _ msg t_end (set_running t_pick x0) Hin) as [_ Hc].
    congruence.
  - apply Z.eqb_neq in E. pose proof (Hleast x0 Hx0 Hw). lia.
Qed.

Lemma worker_bound max links_fn :
  leaves_tasks links_fn ->
  forall ticks w w' evs b,
    (forall x, In x (tasks (w_store w)) -> where_ max x = true -> b < t_id x) ->
    links_worker db max links_fn ticks w = (w', evs) ->
    Forall (Z.lt b) (taken evs).
Proof.
  intros Hfn. induction ticks as [|k ticks IH]; intros w w' evs b Hb H; simpl in H.
  - inversion H; subst. constructor.
  - destruct (links_iteration db max links_fn (k_make_driver k) (k_pick k) (k_end k) w)
      as [w1 ev] eqn:Hi.
    destruct (links_worker db max links_fn ticks w1) as [w2 evs'] eqn:Hr.
    inversion H; subst; clear H. rewrite taken_cons.
    pose proof (iteration_outcome _ _ _ _ _ _ _ _ Hfn Hi) as Ho.
    destruct (ev_taken ev) as [id|] eqn:Et.
    + destruct Ho as ((r0 & Hin & Hid & Hw) & _).
      pose proof (Hb r0 Hin Hw) as Hlt. rewrite Hid in Hlt.
      constructor; [exact Hlt|].
      eapply Forall_impl; [apply (IH w1 w' evs' id); [|exact Hr] |].
      * apply (iteration_raises_bound _ _ _ _ _ _ _ _ _ Hfn Hi Et).
      * simpl. intros a Ha. lia.
    + destruct Ho as (-> & _). apply (IH w w' evs' b Hb Hr).
Qed.

Lemma worker_outcome : links_worker_outcome db.
Proof.
  intros max links_fn ticks. induction ticks as [|k ticks IH];
    intros w w' evs Hfn H; simpl in H.
  - inversion H; subst. split; [constructor|].
    intros i x Hx. exists x. split; [exact Hx|]. split; [reflexivity|].
    rewrite bool_decide_eq_false_2; [reflexivity|]. apply not_elem_of_nil.
  - destruct (links_iteration db max links_fn (k_make_driver k) (k_pick k) (k_end k) w)
      as [w1 ev] eqn:Hi.
    destruct (links_worker db max links_fn ticks w1) as [w2 evs'] eqn:Hr.
    inversion H; subst; clear H. rewrite taken_cons.
    destruct (IH w1 w' evs' Hfn Hr) as [Hs Hrows].
    pose proof (iteration_outcome _ _ _ _ _ _ _ _ Hfn Hi) as Ho.
    destruct (ev_taken ev) as [id|] eqn:Et.
    + pose proof (worker_bound max links_fn Hfn ticks w1 w' evs' id
                    (iteration_raises_bound _ _ _ _ _ _ _ _ _ Hfn Hi Et) Hr) as Hb.
      split; [constructor; assumption|].
      destruct Ho as (_ & _ & status & Hin & [msg He] & _).
      intros i x Hx.
      assert (Hx1 : tasks (w_store w1) !! i
                    = Some (if t_id x =? id
                            then set_status_error status msg (k_end k)
                                   (set_running (k_pick k) x)
                            else x)).
      { rewrite He, lookup_map, Hx. reflexivity. }
      destruct (Hrows i _ Hx1) as (x' & Hx' & Hid' & Hcase).
      exists x'. split; [exact Hx'|].
      destruct (t_id x =? id) eqn:E.
      * apply Z.eqb_eq in E. cbn [t_id set_status_error set_running] in Hid', Hcase.
        split; [exact Hid'|].
        rewrite bool_decide_eq_true_2 by (rewrite E; apply list_elem_of_here).
        rewrite bool_decide_eq_false_2 in Hcase.
        -- subst x'. cbn [t_status t_attempts set_status_error set_running].
           split; [|reflexivity].
           apply (outcome_closed _ _ msg (k_end k) x Hin).
        -- intros Hel. rewrite Forall_forall in Hb.
           apply Hb in Hel. lia.
      * apply Z.eqb_neq in E. split; [exact Hid'|].
        destruct (bool_decide (t_id x ∈ taken evs')) eqn:Ed.
        -- rewrite bool_decide_eq_true_2; [exact Hcase|].
           apply bool_decide_eq_true_1 in Ed. apply list_elem_of_further, Ed.
        -- rewrite bool_decide_eq_false_2; [exact Hcase|].
           apply bool_decide_eq_false_1 in Ed. intros Hel.
           apply elem_of_cons in Hel as [Hel|Hel]; [congruence | contradiction].
    + destruct Ho as (-> & _). split; [exact Hs | exact Hrows].
Qed.

End LinksWorker.

Section LinksWorkerBackends.
Import Store StoreSpec StoreSpec2 Pipeline PipelineSpec.

Lemma sqlite_pick_least max now s s' r :
  SQLiteDB.pick_next_task_for_links max now s = (s', Some r) ->
  exists r0, In r0 (tasks s) /\ SQLiteDB.where_pick max r0 = true /\ t_id r = t_id r0
    /\ (forall x, In x (tasks s) -> SQLiteDB.where_pick max x = true -> t_id r0 <= t_id x)
    /\ s' = update_task_where_id (t_id r0) (set_running now) s.
Proof.
  unfold SQLiteDB.pick_next_task_for_links. intros H.
  destruct (SQLiteDB.stmt_select max s) as [r0|] eqn:Hsel; [|discriminate].
  apply select_first_task_spec in Hsel as (Hin & Hw & Hleast).
  inversion H as [[Hs Hr]]. exists r0. split; [exact Hin|]. split; [exact Hw|].
  split; [|split; [exact Hleast | reflexivity]].
  unfold SQLiteDB.stmt_reselect, select_task_by_id in Hr.
  apply List.find_some in Hr as [_ E]. apply Z.eqb_eq, E.
Qed.

Lemma sqlite_pick_nothing max now s s' :
  SQLiteDB.pick_next_task_for_links max now s = (s', None) ->
  s' = s /\ forall r, In r (tasks s) -> SQLiteDB.where_pick max r = false.
Proof.
  unfold SQLiteDB.pick_next_task_for_links. intros H.
  destruct (SQLiteDB.stmt_select max s) as [r0|] eqn:Hsel.
  - exfalso. apply select_first_task_spec in Hsel as (Hin & _ & _).
    destruct (reselect_some (t_id r0) (SQLiteDB.stmt_update (t_id r0) now s)) as (r & Hr & _).
    + unfold SQLiteDB.stmt_update, update_task_where_id, with_tasks. simpl.
      rewrite List.map_map. apply in_map_iff. exists r0. split; [|exact Hin].
      destruct (t_id r0 =? t_id r0); reflexivity.
    + inversion H as [[Hs Hn]]. congruence.
  - inversion H; subst. split; [reflexivity|].
    apply (select_first_task_none _ _ Hsel).
Qed.

Lemma pg_pick_least max now s s' r :
  PostgresDB.pick_next_task_for_links max now s = (s', Some r) ->
  exists r0, In r0 (tasks s) /\ PostgresDB.where_pick max r0 = true /\ t_id r = t_id r0
    /\ (forall x, In x (tasks s) -> PostgresDB.where_pick max x = true -> t_id r0 <= t_id x)
    /\ s' = update_task_where_id (t_id r0) (set_running now) s.
Proof.
  unfold PostgresDB.pick_next_task_for_links, PostgresDB.stmt_select_for_update.
  destruct (select_first_task _ s) as [r0|] eqn:Hsel; [|discriminate].
  apply select_first_task_spec in Hsel as (Hin & Hw & Hleast).
  cbn [existsb negb] in Hw, Hleast. rewrite andb_true_r in Hw.
  intros H. inversion H; subst. exists r. split; [exact Hin|]. split; [exact Hw|].
  split; [reflexivity|]. split; [|reflexivity].
  intros x Hx Hwx. apply (Hleast x Hx). rewrite Hwx. reflexivity.
Qed.

Lemma pg_pick_nothing max now s s' :
  PostgresDB.pick_next_task_for_links max now s = (s', None) ->
  s' = s /\ forall r, In r (tasks s) -> PostgresDB.where_pick max r = false.
Proof.
  unfold PostgresDB.pick_next_task_for_links, PostgresDB.stmt_select_for_update.
  destruct (select_first_task _ s) as [r0|] eqn:Hsel; [discriminate|].
  intros H. inversion H; subst. split; [reflexivity|].
  intros r Hr. pose proof (select_first_task_none _ _ Hsel r Hr) as Hn.
  cbn [existsb negb] in Hn. rewrite andb_true_r in Hn. exact Hn.
Qed.

Lemma sqlite_iteration_outcome : links_iteration_outcome sqlite_db SQLiteDB.where_pick.
Proof.
  apply iteration_outcome.
  - apply sqlite_pick_least.
  - apply sqlite_pick_nothing.
  - intros. eexists. reflexivity.
  - intros. eexists. reflexivity.
  - intros. eexists. reflexivity.
Qed.

Lemma pg_iteration_outcome : links_iteration_outcome postgres_db PostgresDB.where_pick.
Proof.
  apply iteration_outcome.
  - apply pg_pick_least.
  - apply pg_pick_nothing.
  - intros. eexists. reflexivity.
  - intros. eexists. reflexivity.
  - intros. eexists. reflexivity.
Qed.

Lemma sqlite_worker_outcome : links_worker_outcome sqlite_db.
Proof.
  apply (worker_outcome sqlite_db SQLiteDB.where_pick).
  - apply sqlite_pick_least.
  - apply sqlite_pick_nothing.
  - intros max r H. apply sqlite_where_gate in H as [H _]. exact H.
  - intros. eexists. reflexivity.
  - intros. eexists. reflexivity.
  - intros. eexists. reflexivity.
Qed.

Lemma pg_worker_outcome : links_worker_outcome postgres_db.
Proof.
  apply (worker_outcome postgres_db PostgresDB.where_pick).
  - apply pg_pick_least.
  - apply pg_pick_nothing.
  - intros max r H. apply pg_where_gate in H as [H _]. exact H.
  - intros. eexists. reflexivity.
  - intros. eexists. reflexivity.
  - intros. eexists. reflexivity.
Qed.

Lemma insert_loop_tasks ins now task mode :
  insert_unless_present ins ->
  forall urls s n0, tasks (fst (insert_loop ins now task urls mode s n0)) = tasks s.
Proof.
  intros Hins. induction urls as [|u urls IH]; intros s n0; simpl; [reflexivity|].
  destruct (PyStr.is_empty _); [apply IH|].
  destruct (Hins now task (Utils.org_id_from_url u) u mode s) as [(Ht & _) _].
  destruct (ins now task (Utils.org_id_from_url u) u mode s) as [s1 rc].
  rewrite IH. exact Ht.
Qed.

Lemma sqlite_links_fn_leaves_tasks collect now :
  leaves_tasks (AppStart.links_fn SQLiteDB.insert_links collect now).
Proof.
  intros h t s. unfold AppStart.links_fn.
  destruct (collect h t) as [urls|e]; [|reflexivity].
  pose proof (insert_loop_tasks insert_or_ignore_link now t (t_mode t)
                insert_or_ignore_link_ok urls s 0) as H.
  rewrite <- sqlite_insert_links_eq in H.
  destruct (SQLiteDB.insert_links now t urls (t_mode t) s). exact H.
Qed.

Lemma pg_links_fn_leaves_tasks collect now :
  leaves_tasks (AppStart.links_fn PostgresDB.insert_links collect now).
Proof.
  intros h t s. unfold AppStart.links_fn.
  destruct (collect h t) as [urls|e]; [|reflexivity].
  pose proof (insert_loop_tasks insert_on_conflict_do_nothing now t (t_mode t)
                insert_on_conflict_do_nothing_ok urls s 0) as H.
  rewrite <- pg_insert_links_loop_eq in H.
  unfold PostgresDB.insert_links.
  destruct (PostgresDB.insert_links_loop now t urls (t_mode t) s 0). exact H.
Qed.

End LinksWorkerBackends.

(** X13: one iteration of [_links_worker], in both backends, with a
    [links_fn] that writes no task row.  If no task passes the WHERE
    clause the worker is unchanged and sleeps one second.  Otherwise the
    iteration takes the eligible task with the lowest id and, however
    [make_driver] and [links_fn] end, leaves it DONE (no sleep),
    WAITCAPTCHA (8 s) or ERROR (2 s), with one attempt more and no other
    task row changed: a task is never left RUNNING.  An open browser
    session is kept, except possibly when the task ended in ERROR. *)
Theorem X13_links_iteration_closes_the_task :
  PipelineSpec.links_iteration_outcome Pipeline.sqlite_db SQLiteDB.where_pick
  /\ PipelineSpec.links_iteration_outcome Pipeline.postgres_db PostgresDB.where_pick.
Proof. split; [apply sqlite_iteration_outcome | apply pg_iteration_outcome]. Qed.

(** An instance: the first of two pending tasks is harvested. *)
Lemma X13_links_iteration_witness :
  exists status,
    In (status,
        Pipeline.ev_sleep
          (snd (Pipeline.links_iteration Pipeline.sqlite_db 30 PipelineSpec.cafe_links_fn
                  (Pipeline.Ok 1%nat) 110 120 PipelineSpec.idle_worker)))
       PipelineSpec.outcomes
    /\ PipelineSpec.ended 1 status 110 120 PipelineSpec.two_tasks
         (Pipeline.w_store
            (fst (Pipeline.links_iteration Pipeline.sqlite_db 30 PipelineSpec.cafe_links_fn
                    (Pipeline.Ok 1%nat) 110 120 PipelineSpec.idle_worker)))
    /\ forall h, Pipeline.w_driver PipelineSpec.idle_worker = Some h ->
         Pipeline.w_driver
           (fst (Pipeline.links_iteration Pipeline.sqlite_db 30 PipelineSpec.cafe_links_fn
                   (Pipeline.Ok 1%nat) 110 120 PipelineSpec.idle_worker)) = Some h
         \/ (Pipeline.w_driver
               (fst (Pipeline.links_iteration Pipeline.sqlite_db 30
                       PipelineSpec.cafe_links_fn (Pipeline.Ok 1%nat) 110 120
                       PipelineSpec.idle_worker)) = None
             /\ status = "ERROR").
Proof.
  destruct X13_links_iteration_closes_the_task as [H _].
  pose proof (H 30 PipelineSpec.cafe_links_fn (Pipeline.Ok 1%nat) 110 120
                PipelineSpec.idle_worker _ _
                (sqlite_links_fn_leaves_tasks _ 115)
                (surjective_pairing _)) as Ho.
  assert (Et : Pipeline.ev_taken
                 (snd (Pipeline.links_iteration Pipeline.sqlite_db 30
                         PipelineSpec.cafe_links_fn (Pipeline.Ok 1%nat) 110 120
                         PipelineSpec.idle_worker)) = Some 1)
    by (vm_compute; reflexivity).
  rewrite Et in Ho. destruct Ho as (_ & _ & Ho). exact Ho.
Defined.

(** X14: a run of [_links_worker] of any length, in both backends, with
    a [links_fn] that writes no task row.  The tasks are taken in strictly
    ascending order of id, so no task is taken twice; at the end every
    taken task is DONE, WAITCAPTCHA or ERROR with exactly one attempt more
    than before, and every other task row is untouched. *)
Theorem X14_links_worker_takes_each_task_once :
  PipelineSpec.links_worker_outcome Pipeline.sqlite_db
  /\ PipelineSpec.links_worker_outcome Pipeline.postgres_db.
Proof. split; [apply sqlite_worker_outcome | apply pg_worker_outcome]. Qed.

(** An instance: three iterations over two pending tasks. *)
Lemma X14_links_worker_witness :
  StronglySorted Z.lt
    (PipelineSpec.taken
       (snd (Pipeline.links_worker Pipeline.sqlite_db 30 PipelineSpec.cafe_links_fn
               [Pipeline.Tick (Pipeline.Ok 1%nat) 110 120;
                Pipeline.Tick (Pipeline.Ok 1%nat) 130 140;
                Pipeline.Tick (Pipeline.Ok 1%nat) 150 160]
               PipelineSpec.idle_worker))).
Proof.
  destruct X14_links_worker_takes_each_task_once as [H _].
  apply (H 30 PipelineSpec.cafe_links_fn
           [Pipeline.Tick (Pipeline.Ok 1%nat) 110 120;
            Pipeline.Tick (Pipeline.Ok 1%nat) 130 140;
            Pipeline.Tick (Pipeline.Ok 1%nat) 150 160]
           PipelineSpec.idle_worker _ _
           (sqlite_links_fn_leaves_tasks _ 115)
           (surjective_pairing _)).
Defined.

(** * The info worker *)

Section InfoWorker.
Import Store StoreSpec StoreSpec2 Pipeline PipelineSpec.

Lemma parsed_org_id visit h url org :
  AppStart.parse_org_page visit h url = Ok org ->
  dict_get org "org_id" "" = Utils.org_id_from_url url.
Proof.
  unfold AppStart.parse_org_page. destruct (visit h url) as [c|e]; [|discriminate].
  intros H. inversion H; subst. unfold dict_get. cbn [list_to_map foldr uncurry].
  rewrite lookup_insert_eq. reflexivity.
Qed.

Lemma upsert_keeps_other_tables e s :
  tasks (insert_or_update_org e s) = tasks s
  /\ links (insert_or_update_org e s) = links s
  /\ org_sources (insert_or_update_org e s) = org_sources s
  /\ seq_sources (insert_or_update_org e s) = seq_sources s.
Proof.
  unfold insert_or_update_org. destruct (has_org (o_org_id e) (orgs s)); auto.
Qed.

Lemma parsed_org_row visit h l c t :
  visit h (l_url l) = Ok c ->
  l_org_id l = Utils.org_id_from_url (l_url l) ->
  exists org,
    AppStart.parse_org_page visit h (l_url l) = Ok org
    /\ dict_get org "org_id" "" = l_org_id l
    /\ org_of_dict t org = card_row l c t.
Proof.
  intros Hv Hid. unfold AppStart.parse_org_page. rewrite Hv. eexists.
  split; [reflexivity|]. split.
  - unfold dict_get. cbn [list_to_map foldr uncurry].
    rewrite lookup_insert_eq. symmetry. exact Hid.
  - unfold card_row. rewrite Hid. reflexivity.
Qed.

Lemma info_iteration_spec (db : db_api) :
  db_fetch_next_link db = (fun s => lowest_link_id (unresolved_links s)) ->
  db_upsert_org db = (fun t org => insert_or_update_org (org_of_dict t org)) ->
  db_add_source db = insert_source ->
  info_iteration_outcome db stats_of.
Proof.
  intros Ef Eu Ea visit make_driver t_org t_source w w' ev l Hu Hd Hf H.
  unfold info_iteration in H. rewrite Hf in H.
  assert (Hin : In l (links (w_store w)) /\ has_org (l_org_id l) (orgs (w_store w)) = false).
  { rewrite Ef in Hf. apply lowest_link_id_in, unresolved_links_in in Hf. exact Hf. }
  destruct Hin as [Hin Hun]. destruct (Hd l Hin) as [Hid Hne].
  assert (Hfail : forall e kept,
            (match e_class e with
             | IsCaptchaError => (Worker (w_store w) kept, Event (Some (l_id l)) 8)
             | _ => (Worker (w_store w) None, Event (Some (l_id l)) 2)
             end) = (w', ev) ->
            ev_taken ev = Some (l_id l) /\ retries db l e kept w w' ev).
  { intros e kept He. unfold retries.
    destruct (e_class e); inversion He; subst;
      cbn [ev_taken ev_sleep w_store w_driver]; auto. }
  destruct (ensure_driver make_driver w) as [h|e0] eqn:Hdrv.
  - unfold AppStart.info_fn in H.
    destruct (visit h (l_url l)) as [c|e] eqn:Hv.
    + destruct (parsed_org_row visit h l c t_org Hv Hid) as (org & Hp & Ho & Hrow).
      rewrite Hp, Ho in H.
      destruct (PyStr.is_empty (l_org_id l)) eqn:Eemp.
      { exfalso. apply Hne. destruct (l_org_id l); [reflexivity | discriminate Eemp]. }
      inversion H; subst; clear H. cbn [ev_taken ev_sleep w_store w_driver].
      split; [reflexivity|]. split; [intros e Ee; discriminate Ee|].
      split; [intros h' e Eh Ee; inversion Eh; subst h'; rewrite Hv in Ee; discriminate Ee|].
      intros h' c' Eh Ec. inversion Eh; subst h'. rewrite Hv in Ec.
      inversion Ec; subst c'.
      unfold resolves. cbn [ev_sleep w_store w_driver]. rewrite Ef, Eu, Ea.
      destruct (upsert_resolves_holds t_org org (w_store w) l Hu Hin Hun Ho)
        as (Hpend & _ & _ & Hfetch & _).
      destruct (upsert_keeps_other_tables (org_of_dict t_org org) (w_store w))
        as (Ft & Fl & Fs & Fq).
      split; [reflexivity|]. split; [reflexivity|]. split.
      { cbn [insert_source orgs]. unfold insert_or_update_org.
        change (o_org_id (org_of_dict t_org org)) with (dict_get org "org_id" "").
        rewrite Ho, Hun, Hrow. reflexivity. }
      split; [cbn [insert_source org_sources seq_sources]; rewrite Fs, Fq; reflexivity|].
      split; [cbn [insert_source tasks]; exact Ft|].
      split; [cbn [insert_source links]; exact Fl|].
      split; [exact Hpend | exact Hfetch].
    + assert (Hp : AppStart.parse_org_page visit h (l_url l) = Err e)
        by (unfold AppStart.parse_org_page; rewrite Hv; reflexivity).
      rewrite Hp in H. apply Hfail in H as [Ht Hr].
      split; [exact Ht|]. split; [intros e' Ee; discriminate Ee|].
      split;
        [|intros h' c' Eh Ec; inversion Eh; subst h'; rewrite Hv in Ec; discriminate Ec].
      intros h' e' Eh Ee. inversion Eh; subst h'. rewrite Hv in Ee.
      inversion Ee; subst e'. exact Hr.
  - apply Hfail in H as [Ht Hr].
    split; [exact Ht|]. split.
    + intros e Ee. inversion Ee; subst e. exact Hr.
    + split; intros h' x Eh; discriminate Eh.
Qed.

End InfoWorker.

Section DerivedLinks.
Import Store StoreSpec StoreSpec2 PipelineSpec.

Lemma insert_links_keeps_derived insert_links :
  insert_links_correct insert_links ->
  forall now task urls mode s,
    links_unique s -> links_derived s ->
    links_unique (fst (insert_links now task urls mode s))
    /\ links_derived (fst (insert_links now task urls mode s)).
Proof.
  intros Hc now task urls mode s Hu Hd.
  destruct (Hc now task urls mode s Hu) as (added & Hl & _ & Hadd & Hu' & _).
  split; [exact Hu'|]. intros l Hin. rewrite Hl in Hin.
  apply in_app_or in Hin as [Hin|Hin]; [apply Hd, Hin|].
  rewrite Forall_forall in Hadd. apply list_elem_of_In in Hin.
  destruct (Hadd l Hin) as (u & _ & Eu & Eo & Hne & _).
  split; [rewrite Eu; exact Eo | exact Hne].
Qed.

End DerivedLinks.

(** X15: one iteration of [_info_worker] with the [info_fn] of
    [app/main.py], in both backends, on a store whose link rows are as
    [insert_links] writes them.  The oldest pending link is taken.  If the
    browser cannot be started, or reading the card raises, nothing is
    recorded, so the same link is taken again by the next iteration (there
    is no attempt counter for links): after a [CaptchaError] the worker
    keeps its session and sleeps 8 s, after any other exception it drops
    the session and sleeps 2 s.  If the card is read, its row is stored in
    [orgs] under the link's organisation id, one provenance row for the
    link is appended, [pending_orgs] drops by one, the link is not fetched
    again, tasks and links are untouched, the session is kept and the
    worker does not sleep. *)
Theorem X15_info_iteration_resolves_or_retries :
  PipelineSpec.info_iteration_outcome Pipeline.sqlite_db SQLiteDB.stats
  /\ PipelineSpec.info_iteration_outcome Pipeline.postgres_db PostgresDB.stats.
Proof. split; apply info_iteration_spec; reflexivity. Qed.

(** An instance: the one pending link of the store, its card read. *)
Lemma X15_info_iteration_witness :
  PipelineSpec.resolves Pipeline.sqlite_db SQLiteDB.stats PipelineSpec.cafe_link
    PipelineSpec.cafe_card 1%nat 130 131 PipelineSpec.link_worker
    (fst (Pipeline.info_iteration Pipeline.sqlite_db
            (AppStart.info_fn PipelineSpec.cafe_visit) (Pipeline.Ok 1%nat) 130 131
            PipelineSpec.link_worker))
    (snd (Pipeline.info_iteration Pipeline.sqlite_db
            (AppStart.info_fn PipelineSpec.cafe_visit) (Pipeline.Ok 1%nat) 130 131
            PipelineSpec.link_worker)).
Proof.
  destruct X15_info_iteration_resolves_or_retries as [H _].
  destruct (H PipelineSpec.cafe_visit (Pipeline.Ok 1%nat) 130 131
              PipelineSpec.link_worker _ _ PipelineSpec.cafe_link
              ltac:(apply NoDup_singleton)
              ltac:(intros l [<-|[]]; split; [vm_compute; reflexivity | discriminate])
              ltac:(vm_compute; reflexivity)
              (surjective_pairing _))
    as (_ & _ & _ & H3).
  apply (H3 1%nat PipelineSpec.cafe_card); reflexivity.
Defined.

(** X16: in both backends [insert_links] keeps the two facts the info
    worker relies on: [org_id] is unique among the links, and every link
    row carries the non-empty organisation id derived from its own URL.
    Both hold of a cleared store. *)
Theorem X16_insert_links_keeps_links_resolvable :
  (forall s, Store.links_unique (SQLiteDB.clear_tasks s)
             /\ PipelineSpec.links_derived (SQLiteDB.clear_tasks s))
  /\ (forall s, Store.links_unique (PostgresDB.clear_tasks s)
                /\ PipelineSpec.links_derived (PostgresDB.clear_tasks s))
  /\ (forall now task urls mode s,
        Store.links_unique s -> PipelineSpec.links_derived s ->
        Store.links_unique (fst (SQLiteDB.insert_links now task urls mode s))
        /\ PipelineSpec.links_derived (fst (SQLiteDB.insert_links now task urls mode s)))
  /\ (forall now task urls mode s,
        Store.links_unique s -> PipelineSpec.links_derived s ->
        Store.links_unique (fst (PostgresDB.insert_links now task urls mode s))
        /\ PipelineSpec.links_derived (fst (PostgresDB.insert_links now task urls mode s))).
Proof.
  split; [|split; [|split]].
  - intros s. split; [apply NoDup_nil_2 | intros l []].
  - intros s. split; [apply NoDup_nil_2 | intros l []].
  - apply insert_links_keeps_derived, sqlite_insert_links_correct.
  - apply insert_links_keeps_derived, pg_insert_links_correct.
Qed.

(** An instance: two URLs of one organisation and one without an id,
    inserted into an empty store. *)
Lemma X16_insert_links_witness :
  Store.links_unique
    (fst (SQLiteDB.insert_links 120 StoreSpec.claimed_task
            ["https://yandex.by/maps/org/cafe/123456/";
             "https://yandex.by/maps/org/123456";
             "https://yandex.by/maps/"]
            "LINKS_MAPSCAN_SEARCH" (SQLiteDB.clear_tasks StoreSpec2.store_with_link)))
  /\ PipelineSpec.links_derived
       (fst (SQLiteDB.insert_links 120 StoreSpec.claimed_task
               ["https://yandex.by/maps/org/cafe/123456/";
                "https://yandex.by/maps/org/123456";
                "https://yandex.by/maps/"]
               "LINKS_MAPSCAN_SEARCH" (SQLiteDB.clear_tasks StoreSpec2.store_with_link))).
Proof.
  destruct X16_insert_links_keeps_links_resolvable as (Hc & _ & H & _).
  apply H; apply Hc.
Defined.

(** * The map scan *)

Section MapScan.
Import LinkCollector CollectorSpec2.

Variables grid step_px cx cy : Z.

Local Abbreviation n := (Z.to_nat (grid - 1)).

Lemma track_head p gs : In p (track p gs).
Proof.
  revert p. induction gs as [|g gs IH]; intros p; simpl; [auto|].
  destruct g; [apply IH | left; reflexivity].
Qed.

Lemma track_length p gs : length (track p gs) = S (length (List.filter is_drag gs)).
Proof.
  revert p. induction gs as [|g gs IH]; intros p; simpl; [reflexivity|].
  destruct g; simpl; [apply IH | rewrite IH; reflexivity].
Qed.

Lemma track_row_in (k : nat) : forall x y dx rest (i : nat),
  (i <= k)%nat ->
  In (x + Z.of_nat i * dx, y) (track (x, y) (row_drags cx cy dx k ++ rest)).
Proof.
  induction k as [|k IH]; intros x y dx rest i Hi.
  - replace i with 0%nat by lia. simpl. rewrite Z.add_0_r. apply track_head.
  - cbn [row_drags repeat app track fst snd]. destruct i as [|i].
    + left. simpl. rewrite Z.add_0_r. reflexivity.
    + right. rewrite Z.add_0_r.
      replace (x + Z.of_nat (S i) * dx) with ((x + dx) + Z.of_nat i * dx) by lia.
      apply (IH (x + dx) y dx rest i). lia.
Qed.

Lemma track_row_rest (k : nat) : forall x y dx rest p,
  In p (track (x + Z.of_nat k * dx, y) rest) ->
  In p (track (x, y) (row_drags cx cy dx k ++ rest)).
Proof.
  induction k as [|k IH]; intros x y dx rest p Hp.
  - simpl in *. rewrite Z.add_0_r in Hp. exact Hp.
  - cbn [row_drags repeat app track fst snd]. right. rewrite Z.add_0_r.
    apply (IH (x + dx) y dx rest p).
    replace (x + dx + Z.of_nat k * dx) with (x + Z.of_nat (S k) * dx) by lia.
    exact Hp.
Qed.

Lemma row_drags_length dx k : length (row_drags cx cy dx k) = k.
Proof. apply repeat_length. Qed.

Lemma row_drags_shape dx k :
  Forall (fun g => starts_at cx cy g /\ is_drag g = true) (row_drags cx cy dx k).
Proof.
  induction k as [|k IH]; simpl; constructor; [simpl; auto | exact IH].
Qed.

(** Rows [row .. grid-1]: all drags from the centre, [grid] of them per
    row but for the last, which has one less. *)
Lemma scan_rows_shape : forall (rows : nat) (row : Z),
  row + Z.of_nat rows = grid -> 0 <= row ->
  Forall (fun g => starts_at cx cy g /\ is_drag g = true)
    (scan_rows grid step_px cx cy row rows)
  /\ (length (scan_rows grid step_px cx cy row rows)
      + match rows with O => 0 | S _ => 1 end
      = rows * S n)%nat.
Proof.
  induction rows as [|rows IH]; intros row Hr H0; [split; [constructor | reflexivity]|].
  cbn [scan_rows]. destruct (IH (row + 1)) as [IH1 IH2]; [lia | lia |].
  split.
  - apply Forall_app. split; [apply row_drags_shape|].
    apply Forall_app. split; [|exact IH1].
    destruct (row <? grid - 1); constructor; [simpl; auto | constructor].
  - rewrite !List.length_app, row_drags_length.
    destruct (row <? grid - 1) eqn:E.
    + apply Z.ltb_lt in E. destruct rows as [|rows]; [lia|]. cbn [length app]. lia.
    + apply Z.ltb_ge in E. destruct rows as [|rows]; [|lia].
      cbn [length app scan_rows]. lia.
Qed.

(** The serpentine: row [row] is entered at column 0 when [row] is even
    and at the last column when it is odd, and every cell of the rows
    still to scan is reached. *)
Lemma scan_rows_cells : forall (rows : nat) (row : Z),
  row + Z.of_nat rows = grid -> 0 <= row -> 1 <= grid ->
  forall c r, 0 <= c < grid -> row <= r < grid ->
    In (cell step_px c r)
       (track (if row mod 2 =? 0 then 0 else - (grid - 1) * step_px, - row * step_px)
          (scan_rows grid step_px cx cy row rows)).
Proof.
  induction rows as [|rows IH]; intros row Hr H0 Hg c r Hc Hrr; [lia|].
  cbn [scan_rows].
  assert (Hn : Z.of_nat n = grid - 1) by lia.
  destruct (Z.eq_dec r row) as [->|Hne].
  - (* the cell lies in this row *)
    destruct (row mod 2 =? 0) eqn:Ep.
    + replace (cell step_px c row)
        with (0 + Z.of_nat (Z.to_nat c) * (- 1 * step_px), - row * step_px)
        by (unfold cell; rewrite Z2Nat.id by lia; f_equal; ring).
      apply track_row_in. lia.
    + replace (cell step_px c row)
        with (- (grid - 1) * step_px + Z.of_nat (Z.to_nat (grid - 1 - c)) * (- -1 * step_px),
              - row * step_px)
        by (unfold cell; rewrite Z2Nat.id by lia; f_equal; ring).
      apply track_row_in. lia.
  - (* the cell lies in a later row: follow the drag down *)
    apply track_row_rest.
    assert (E : (row <? grid - 1) = true) by (apply Z.ltb_lt; lia).
    rewrite E. cbn [app track fst snd]. right.
    specialize (IH (row + 1) ltac:(lia) ltac:(lia) Hg c r Hc ltac:(lia)).
    assert (Hpar : ((row + 1) mod 2 =? 0) = negb (row mod 2 =? 0)).
    { pose proof (Z.mod_pos_bound row 2 ltac:(lia)) as B1.
      pose proof (Z.mod_pos_bound (row + 1) 2 ltac:(lia)) as B2.
      pose proof (Z.div_mod row 2 ltac:(lia)) as D1.
      pose proof (Z.div_mod (row + 1) 2 ltac:(lia)) as D2.
      destruct (row mod 2 =? 0) eqn:E1; destruct ((row + 1) mod 2 =? 0) eqn:E2;
        try reflexivity; exfalso;
        [apply Z.eqb_eq in E1, E2 | apply Z.eqb_neq in E1, E2]; lia. }
    rewrite Hpar in IH. rewrite Hn.
    destruct (row mod 2 =? 0); cbn [negb] in IH;
      match goal with
      | |- In _ (track ?p _) =>
          match type of IH with
          | In _ (track ?q _) => replace p with q by (f_equal; ring)
          end
      end; exact IH.
Qed.

End MapScan.

Section GridCells.
Import LinkCollector CollectorSpec2.

Lemma grid_cells_elem step_px grid p :
  p ∈ grid_cells step_px grid
  <-> exists c r, 0 <= c < grid /\ 0 <= r < grid /\ p = cell step_px c r.
Proof.
  unfold grid_cells. rewrite list_elem_of_bind. split.
  - intros (r & Hp & Hr). apply list_elem_of_fmap in Hp as (c & -> & Hc).
    apply elem_of_seqZ in Hr, Hc. exists c, r. split; [lia|]. split; [lia | reflexivity].
  - intros (c & r & Hc & Hr & ->). exists r. split.
    + apply list_elem_of_fmap. exists c. split; [reflexivity|]. apply elem_of_seqZ. lia.
    + apply elem_of_seqZ. lia.
Qed.

Lemma cell_inj step_px c r c' r' :
  step_px <> 0 -> cell step_px c r = cell step_px c' r' -> c = c' /\ r = r'.
Proof.
  unfold cell. intros Hs H. inversion H as [[H1 H2]]. split; nia.
Qed.

Lemma grid_cells_NoDup step_px grid : step_px <> 0 -> NoDup (grid_cells step_px grid).
Proof.
  intros Hs. unfold grid_cells. apply NoDup_bind.
  - intros r1 r2 p _ _ H1 H2.
    apply list_elem_of_fmap in H1 as (c1 & -> & _).
    apply list_elem_of_fmap in H2 as (c2 & E & _).
    apply (cell_inj _ _ _ _ _ Hs) in E as [_ E]. exact E.
  - intros r _. apply NoDup_fmap_2_strong; [|apply NoDup_seqZ].
    intros c1 c2 _ _ E. apply (cell_inj _ _ _ _ _ Hs) in E as [E _]. exact E.
  - apply NoDup_seqZ.
Qed.

Lemma bind_length_const {A B} (f : A -> list B) (k : nat) (l : list A) :
  (forall x, length (f x) = k) -> length (l ≫= f) = (length l * k)%nat.
Proof.
  intros Hf. induction l as [|x l IH]; [reflexivity|].
  change ((x :: l) ≫= f) with (f x ++ (l ≫= f))%list.
  rewrite List.length_app, Hf, IH. simpl. lia.
Qed.

Lemma grid_cells_length step_px grid :
  length (grid_cells step_px grid) = (Z.to_nat grid * Z.to_nat grid)%nat.
Proof.
  unfold grid_cells.
  rewrite (bind_length_const _ (Z.to_nat grid)), length_seqZ; [reflexivity|].
  intros r. rewrite length_fmap, length_seqZ. reflexivity.
Qed.

End GridCells.

(** X17: [map_scan] sends no gesture when the grid is 1 or less, when no
    map container is displayed, or when the container is under 200 px in
    either dimension.  Otherwise it clicks the centre of the container
    once and then makes [grid * grid - 1] drags, each pressed at the
    centre; the map is thereby left at [grid * grid] offsets, and these
    are the cells of the [grid] x [grid] lattice of spacing [step_px],
    each visited exactly once. *)
Theorem X17_map_scan_visits_every_cell_once :
  forall (grid step_px : Z) (container : option (Z * Z)),
    (grid <= 1 -> LinkCollector.map_scan container grid step_px = [])
    /\ (container = None -> LinkCollector.map_scan container grid step_px = [])
    /\ (forall w h, container = Some (w, h) -> w < 200 \/ h < 200 ->
          LinkCollector.map_scan container grid step_px = [])
    /\ (forall w h,
          container = Some (w, h) -> 1 < grid -> 200 <= w -> 200 <= h ->
          (exists drags,
             LinkCollector.map_scan container grid step_px
             = LinkCollector.Click (w / 2) (h / 2) :: drags
             /\ Forall (fun g => CollectorSpec2.starts_at (w / 2) (h / 2) g
                                 /\ CollectorSpec2.is_drag g = true) drags
             /\ length drags = Z.to_nat (grid * grid - 1))
          /\ length (CollectorSpec2.track (0, 0)
                       (LinkCollector.map_scan container grid step_px))
             = Z.to_nat (grid * grid)
          /\ (forall c r, 0 <= c < grid -> 0 <= r < grid ->
                In (CollectorSpec2.cell step_px c r)
                   (CollectorSpec2.track (0, 0)
                      (LinkCollector.map_scan container grid step_px)))
          /\ (step_px <> 0 ->
                Permutation
                  (CollectorSpec2.track (0, 0)
                     (LinkCollector.map_scan container grid step_px))
                  (CollectorSpec2.grid_cells step_px grid))).
Proof.
  intros grid step_px container. unfold LinkCollector.map_scan.
  split; [|split; [|split]].
  - intros H. apply Z.leb_le in H. rewrite H. reflexivity.
  - intros ->. destruct (grid <=? 1); reflexivity.
  - intros w h -> H. destruct (grid <=? 1); [reflexivity|].
    assert (E : (w <? 200) || (h <? 200) = true).
    { apply orb_true_iff. destruct H; [left | right]; apply Z.ltb_lt; assumption. }
    rewrite E. reflexivity.
  - intros w h -> Hg Hw Hh.
    assert (E1 : (grid <=? 1) = false) by (apply Z.leb_gt; exact Hg).
    assert (E2 : (w <? 200) || (h <? 200) = false).
    { apply orb_false_iff. split; apply Z.ltb_ge; assumption. }
    rewrite E1, E2.
    destruct (scan_rows_shape grid step_px (w / 2) (h / 2) (Z.to_nat grid) 0)
      as [Hshape Hlen]; [lia | lia |].
    assert (Hn : Z.to_nat grid = S (Z.to_nat (grid - 1))) by lia.
    assert (Hsq : Z.to_nat (grid * grid) = (Z.to_nat grid * Z.to_nat grid)%nat)
      by (apply Z2Nat.inj_mul; lia).
    rewrite Hn in Hlen at 2. rewrite <- Hn in Hlen.
    assert (Hdrags : length (LinkCollector.scan_rows grid step_px (w / 2) (h / 2) 0
                               (Z.to_nat grid))
                     = Z.to_nat (grid * grid - 1)).
    { rewrite Z2Nat.inj_sub, Hsq by lia. change (Z.to_nat 1) with 1%nat. lia. }
    assert (Htrack : length (CollectorSpec2.track (0, 0)
                       (LinkCollector.Click (w / 2) (h / 2)
                        :: LinkCollector.scan_rows grid step_px (w / 2) (h / 2) 0
                             (Z.to_nat grid)))
                     = Z.to_nat (grid * grid)).
    { rewrite track_length. cbn [List.filter CollectorSpec2.is_drag].
      rewrite List.forallb_filter_id.
      - rewrite Hdrags, Z2Nat.inj_sub by lia. change (Z.to_nat 1) with 1%nat.
        assert (0 < Z.to_nat (grid * grid))%nat by lia. lia.
      - apply List.forallb_forall. intros g Hin. rewrite Forall_forall in Hshape.
        apply list_elem_of_In in Hin. apply (Hshape g Hin). }
    assert (Hcells : forall c r, 0 <= c < grid -> 0 <= r < grid ->
              In (CollectorSpec2.cell step_px c r)
                (CollectorSpec2.track (0, 0)
                   (LinkCollector.Click (w / 2) (h / 2)
                    :: LinkCollector.scan_rows grid step_px (w / 2) (h / 2) 0
                         (Z.to_nat grid)))).
    { intros c r Hc Hr. cbn [CollectorSpec2.track].
      apply (scan_rows_cells grid step_px (w / 2) (h / 2) (Z.to_nat grid) 0
               ltac:(lia) ltac:(lia) ltac:(lia) c r Hc ltac:(lia)). }
    split; [|split; [exact Htrack | split; [exact Hcells|]]].
    + eexists. split; [reflexivity|]. split; [exact Hshape | exact Hdrags].
    + intros Hs. symmetry. apply submseteq_length_Permutation.
      * apply NoDup_submseteq; [apply grid_cells_NoDup, Hs|].
        intros p Hp. apply grid_cells_elem in Hp as (c & r & Hc & Hr & ->).
        apply list_elem_of_In, Hcells; assumption.
      * rewrite Htrack, grid_cells_length, Hsq. reflexivity.
Qed.

(** An instance: the default scan, a 3 x 3 grid with steps of 420 px. *)
Lemma X17_map_scan_witness :
  Permutation
    (CollectorSpec2.track (0, 0) (LinkCollector.map_scan (Some (1280, 720)) 3 420))
    (CollectorSpec2.grid_cells 420 3).
Proof.
  destruct (X17_map_scan_visits_every_cell_once 3 420 (Some (1280, 720)))
    as (_ & _ & _ & H).
  apply (H 1280 720); [reflexivity | lia | lia | lia | lia].
Defined.

(** * The harvest of one task *)

Section TaskLinks.
Import LinkCollector CollectorSpec CollectorSpec2.

Variable str_lower : string -> string.
Variable url_base : string -> option string.
Variable urljoin : string -> string -> option string.

Lemma before_first_no_sep s : PyStr.contains "?" (PyStr.before_first "?" s) = false.
Proof.
  clear. induction s as [|a s IH]; [reflexivity|].
  cbn [PyStr.before_first]. destruct (Ascii.eqb a "?") eqn:E; [reflexivity|].
  cbn [PyStr.contains PyStr.starts_with]. rewrite Ascii.eqb_sym, E. exact IH.
Qed.

Lemma add_anchor_clean links it :
  (forall u, u ∈ links -> clean_url u) ->
  forall u, u ∈ add_anchor url_base urljoin links it -> clean_url u.
Proof.
  clear str_lower. intros H u. unfold add_anchor.
  destruct (a_href it) as [href|]; [|apply H].
  destruct (a_current_url it) as [cur|]; [|apply H].
  destruct (_normalize_org_url url_base urljoin (or_empty cur) (or_empty href))
    as [[norm|]|] eqn:En; [|apply H..].
  destruct (PyStr.is_empty norm) eqn:Ee; [apply H|].
  intros Hu. apply elem_of_union in Hu as [Hu|Hu]; [|apply H, Hu].
  apply elem_of_singleton in Hu. subst u. split.
  - intros ->. discriminate Ee.
  - unfold _normalize_org_url in En.
    destruct (PyStr.is_empty (or_empty href)); [discriminate|].
    destruct (url_base (or_empty cur)); [|discriminate].
    destruct (urljoin _ _) as [abs_url|]; [|discriminate].
    destruct (negb _); [discriminate|]. inversion En. apply before_first_no_sep.
Qed.

Lemma add_anchors_clean items : forall links,
  (forall u, u ∈ links -> clean_url u) ->
  forall u, u ∈ add_anchors url_base urljoin links items -> clean_url u.
Proof.
  clear str_lower. unfold add_anchors.
  induction items as [|it items IH]; intros links H; simpl; [exact H|].
  apply IH. apply add_anchor_clean, H.
Qed.

Lemma seen_clean d k : forall u, u ∈ seen url_base urljoin d k -> clean_url u.
Proof.
  clear str_lower. induction k as [|k IH]; simpl.
  - intros u Hu. apply elem_of_empty in Hu. destruct Hu.
  - destruct (p_anchors (d k)); [apply add_anchors_clean, IH | exact IH].
Qed.

(** What [collect_links_from_list] returns: the accumulated set, as a
    list without repetition, of clean URLs. *)
Lemma harvest_clean d m hrefs :
  fst (collect_links_from_list str_lower url_base urljoin d m) = Returned hrefs ->
  NoDup hrefs /\ forall u, In u hrefs -> clean_url u.
Proof.
  intros H.
  destruct (collect_links_from_list str_lower url_base urljoin d m) as [o k] eqn:E.
  simpl in H. subst o. rewrite collect_unfold in E.
  apply loop_returned in E as (-> & _ & _). split.
  - apply NoDup_elements.
  - intros u Hu. apply list_elem_of_In, elem_of_elements in Hu.
    apply (seen_clean d k u Hu).
Qed.

Lemma is_bad_spec excludes u :
  is_bad str_lower excludes u = true <-> excluded_by str_lower excludes u.
Proof.
  clear url_base urljoin. unfold is_bad, excluded_by. rewrite List.existsb_exists.
  split; intros (ex & Hin & H); exists ex; (split; [exact Hin|]).
  - apply andb_prop in H as [H1 H2]. split; [|exact H2].
    intros E. rewrite E in H1. discriminate H1.
  - destruct H as [H1 H2]. rewrite H2, andb_true_r.
    destruct (str_lower ex); [contradiction | reflexivity].
Qed.

Lemma exclude_filter_in excludes hrefs u :
  In u (exclude_filter str_lower excludes hrefs)
  <-> In u hrefs /\ ~ excluded_by str_lower excludes u.
Proof.
  clear url_base urljoin. unfold exclude_filter.
  rewrite List.filter_In, negb_true_iff, <- is_bad_spec.
  destruct (is_bad str_lower excludes u); intuition congruence.
Qed.

Lemma filter_sublist {A} (f : A -> bool) (l : list A) : sublist (List.filter f l) l.
Proof.
  clear. induction l as [|x l IH]; simpl; [constructor|].
  destruct (f x); [apply sublist_skip | apply sublist_cons]; exact IH.
Qed.

Lemma filter_NoDup {A} (f : A -> bool) (l : list A) : NoDup l -> NoDup (List.filter f l).
Proof.
  clear. induction 1 as [|x l Hx Hl IH]; simpl; [constructor|].
  destruct (f x); [|exact IH]. constructor; [|exact IH].
  intros Hin. apply Hx. apply list_elem_of_In in Hin. apply List.filter_In in Hin as [Hin _].
  apply list_elem_of_In, Hin.
Qed.

Lemma collect_task_links_spec build_category_url build_search_url city_base target d
    mode category_path query_ru excludes urls :
  collect_task_links str_lower url_base urljoin build_category_url build_search_url
    city_base target d mode category_path query_ru excludes = Done urls ->
  exists hrefs,
    fst (collect_links_from_list str_lower url_base urljoin d 12) = Returned hrefs
    /\ sublist urls hrefs
    /\ NoDup urls
    /\ (forall u, In u urls <-> In u hrefs /\ ~ excluded_by str_lower excludes u)
    /\ (forall u, In u urls -> clean_url u)
    /\ exists p title,
         target = Done p /\ p_title p = Returns title
         /\ PyStr.contains "404" (str_lower (or_empty title)) = false
         /\ is_captcha str_lower p = Returns false.
Proof.
  unfold collect_task_links. intros H.
  destruct city_base as [base|]; [|discriminate].
  destruct (if PyStr.contains "CATEGORY" mode then _ else _); [|discriminate].
  destruct target as [p|]; [|discriminate].
  destruct (p_title p) as [title|] eqn:Et; [|discriminate].
  destruct (PyStr.contains "404" _) eqn:E404; [discriminate|].
  destruct (is_captcha str_lower p) as [[|]|] eqn:Ec; try discriminate.
  destruct (fst (collect_links_from_list str_lower url_base urljoin d 12))
    as [hrefs|[|]] eqn:Eh; try discriminate.
  inversion H; subst; clear H. exists hrefs.
  destruct (harvest_clean d 12 hrefs Eh) as [Hnd Hclean].
  split; [reflexivity|]. split; [apply filter_sublist|].
  split; [apply filter_NoDup, Hnd|].
  split; [apply exclude_filter_in|].
  split.
  - intros u Hu. apply exclude_filter_in in Hu as [Hu _]. apply Hclean, Hu.
  - exists p, title. auto.
Qed.

End TaskLinks.

(** X18: when [collect_task_links] returns a list, the result page was
    neither a 404 page nor a captcha page and the harvesting loop returned;
    the list is the harvest in its order, without repetition, less every
    URL in which some non-empty exclude text occurs (case ignored), and no
    other URL is dropped; every URL in it is non-empty and carries no
    query string. *)
Theorem X18_collect_task_links_filters_the_harvest :
  forall (str_lower : string -> string) (url_base : string -> option string)
         (urljoin : string -> string -> option string)
         (build_category_url build_search_url :
            string -> string -> LinkCollector.attempt string)
         (city_base : LinkCollector.attempt string)
         (target : LinkCollector.attempt LinkCollector.page)
         (d : LinkCollector.session)
         (mode category_path query_ru : string) (excludes urls : list string),
    LinkCollector.collect_task_links str_lower url_base urljoin build_category_url
      build_search_url city_base target d mode category_path query_ru excludes
    = LinkCollector.Done urls ->
    exists hrefs,
      fst (LinkCollector.collect_links_from_list str_lower url_base urljoin d 12)
      = LinkCollector.Returned hrefs
      /\ sublist urls hrefs
      /\ NoDup urls
      /\ (forall u, In u urls
                    <-> In u hrefs /\ ~ CollectorSpec2.excluded_by str_lower excludes u)
      /\ (forall u, In u urls -> CollectorSpec2.clean_url u)
      /\ exists p title,
           target = LinkCollector.Done p
           /\ LinkCollector.p_title p = LinkCollector.Returns title
           /\ PyStr.contains "404" (str_lower (LinkCollector.or_empty title)) = false
           /\ LinkCollector.is_captcha str_lower p = LinkCollector.Returns false.
Proof.
  intros str_lower url_base urljoin bc bs city_base target d mode cat q excludes urls.
  apply collect_task_links_spec.
Qed.

(** An instance: three organisations harvested, one of them excluded. *)
Lemma X18_collect_task_links_witness :
  exists hrefs,
    fst (LinkCollector.collect_links_from_list PyStr.ascii_lower
           CollectorSpec.mock_url_base CollectorSpec.mock_urljoin
           CollectorSpec.mock_session 12)
    = LinkCollector.Returned hrefs
    /\ sublist ["https://yandex.by/maps/org/c/103/"; "https://yandex.by/maps/org/a/101/"]
         hrefs.
Proof.
  destruct (X18_collect_task_links_filters_the_harvest PyStr.ascii_lower
              CollectorSpec.mock_url_base CollectorSpec.mock_urljoin
              (fun b _ => LinkCollector.Done b) (fun b _ => LinkCollector.Done b)
              (LinkCollector.Done "https://yandex.by/maps/157/minsk/")
              (LinkCollector.Done (CollectorSpec.mock_session 0%nat))
              CollectorSpec.mock_session "LINKS_SEARCH" "" "cafe" [""; "ORG/B/"]
              ["https://yandex.by/maps/org/c/103/"; "https://yandex.by/maps/org/a/101/"])
    as (hrefs & H1 & H2 & _).
  - vm_compute. reflexivity.
  - exists hrefs. split; [exact H1 | exact H2].
Defined.

(** * From the configuration to the first claim *)

Section BuiltTasks.
Import Store StoreSpec2 ConfigLoader ConfigSpec.

Variable str_strip : string -> string.

Lemma search_task_ok dp ma c r t :
  search_task str_strip dp ma c r = Some t ->
  well_formed_task t /\ claimable_when_stored t.
Proof.
  unfold search_task. destruct (PyStr.is_empty _) eqn:E; [discriminate|].
  intros H. inversion H; subst; clear H. split.
  - left. destruct ma; (split; [reflexivity|]); (split; [reflexivity|]);
      (split; [|reflexivity]);
      (change (str_strip (dict_get r "query_ru" "") <> ""));
      intros E'; rewrite E' in E; discriminate E.
  - intros id now max Hmax. apply Z.ltb_lt in Hmax.
    unfold SQLiteDB.where_pick, PostgresDB.where_pick, claimable.
    cbn [t_status t_attempts new_task]. rewrite Hmax.
    destruct ma; split; reflexivity.
Qed.

Lemma category_task_ok dp ma c cat t :
  category_task str_strip dp ma c cat = Some t ->
  well_formed_task t /\ claimable_when_stored t.
Proof.
  unfold category_task. destruct (negb _); [discriminate|].
  destruct (PyStr.is_empty _) eqn:E; [discriminate|].
  intros H. inversion H; subst; clear H. split.
  - right. destruct ma; (split; [reflexivity|]); (split; [reflexivity|]);
      (split; [reflexivity|]);
      (change (strip_char "/" (str_strip (default "" (cat_category_path cat))) <> ""));
      intros E'; rewrite E' in E; discriminate E.
  - intros id now max Hmax. apply Z.ltb_lt in Hmax.
    unfold SQLiteDB.where_pick, PostgresDB.where_pick, claimable.
    cbn [t_status t_attempts new_task]. rewrite Hmax.
    destruct ma; split; reflexivity.
Qed.

Lemma build_tasks_ok cities reqs cats dp ma t :
  In t (build_tasks str_strip cities reqs cats dp ma) ->
  well_formed_task t /\ claimable_when_stored t.
Proof.
  unfold build_tasks. intros H. apply in_app_or in H as [H|H];
    apply in_flat_map in H as (c & _ & H); apply list_elem_of_In in H;
    apply list_elem_of_omap in H as (x & _ & H).
  - apply (search_task_ok _ _ _ _ _ H).
  - apply (category_task_ok _ _ _ _ _ H).
Qed.

End BuiltTasks.

Section FirstClaim.
Import Store StoreSpec2.

Lemma new_tasks_from_ids now ts : forall k r,
  In r (new_tasks_from k now ts) -> k <= t_id r.
Proof.
  induction ts as [|t ts IH]; intros k r H; simpl in H; [contradiction|].
  destruct H as [<-|H]; [simpl; lia|]. apply IH in H. lia.
Qed.

(** A pick over freshly stored tasks, the first of which is eligible,
    hands out the first. *)
Lemma first_claim pick (where_ : Z -> task_row -> bool) max now now' k s t ts :
  (forall s s' r, pick max now' s = (s', Some r) ->
     exists r0, In r0 (tasks s) /\ where_ max r0 = true /\ t_id r = t_id r0
       /\ (forall x, In x (tasks s) -> where_ max x = true -> t_id r0 <= t_id x)
       /\ s' = update_task_where_id (t_id r0) (set_running now') s) ->
  (forall s s', pick max now' s = (s', None) ->
     s' = s /\ forall r, In r (tasks s) -> where_ max r = false) ->
  tasks s = new_tasks_from k now (t :: ts) ->
  where_ max (new_task k now t) = true ->
  exists r, snd (pick max now' s) = Some r /\ t_id r = k.
Proof.
  intros Hsome Hnone Ht Hw.
  assert (Hin : In (new_task k now t) (tasks s)) by (rewrite Ht; left; reflexivity).
  destruct (pick max now' s) as [s' [r|]] eqn:Hp.
  - exists r. split; [reflexivity|].
    apply Hsome in Hp as (r0 & Hin0 & _ & -> & Hleast & _).
    pose proof (Hleast _ Hin Hw) as Hle. cbn [t_id new_task] in Hle.
    rewrite Ht in Hin0. apply new_tasks_from_ids in Hin0. lia.
  - apply Hnone in Hp as [_ Hno]. rewrite (Hno _ Hin) in Hw. discriminate Hw.
Qed.

End FirstClaim.

(** X19: every task [build_tasks] makes is either a search task (query
    key A, a non-empty query, no category) or a category task (query key
    B, a non-empty category path, no query), and its mode holds CATEGORY
    exactly in the second case; stored by [add_tasks], it passes the WHERE
    clause of [pick_next_task_for_links] in both backends for any positive
    attempt limit.  So when the built list is not empty and is added to a
    cleared store, the next pick hands out its first task: id 1 in
    PostgreSQL, the id after the last one ever used in SQLite. *)
Theorem X19_built_tasks_are_claimable :
  forall (str_strip : string -> string) (cities reqs : list (gmap string string))
         (cats : list ConfigLoader.category) (domain_pref : string)
         (mapscan_always : bool),
    (forall t,
       In t (ConfigLoader.build_tasks str_strip cities reqs cats domain_pref
               mapscan_always) ->
       ConfigSpec.well_formed_task t /\ ConfigSpec.claimable_when_stored t)
    /\ (ConfigLoader.build_tasks str_strip cities reqs cats domain_pref mapscan_always
        <> [] ->
        forall (s : Store.store) (now now' : Store.timestamp) (max : Z),
          0 < max ->
          (exists r,
             snd (PostgresDB.pick_next_task_for_links max now'
                    (fst (PostgresDB.add_tasks now
                            (ConfigLoader.build_tasks str_strip cities reqs cats
                               domain_pref mapscan_always)
                            (PostgresDB.clear_tasks s)))) = Some r
             /\ Store.t_id r = 1)
          /\ (exists r,
                snd (SQLiteDB.pick_next_task_for_links max now'
                       (fst (SQLiteDB.add_tasks now
                               (ConfigLoader.build_tasks str_strip cities reqs cats
                                  domain_pref mapscan_always)
                               (SQLiteDB.clear_tasks s)))) = Some r
                /\ Store.t_id r = Store.seq_tasks s + 1)).
Proof.
  intros str_strip cities reqs cats dp ma. split; [apply build_tasks_ok|].
  intros Hne s now now' max Hmax.
  destruct (ConfigLoader.build_tasks str_strip cities reqs cats dp ma) as [|t ts] eqn:Eb;
    [contradiction|].
  assert (Hc : ConfigSpec.claimable_when_stored t).
  { apply (build_tasks_ok str_strip cities reqs cats dp ma). rewrite Eb. left. reflexivity. }
  split.
  - apply (first_claim PostgresDB.pick_next_task_for_links PostgresDB.where_pick
             max now now' 1 _ t ts).
    + intros s0 s' r. apply pg_pick_least.
    + intros s0 s'. apply pg_pick_nothing.
    + destruct (pg_appends_tasks now (t :: ts) (PostgresDB.clear_tasks s)) as (_ & H & _).
      exact H.
    + apply (Hc 1 now max Hmax).
  - apply (first_claim SQLiteDB.pick_next_task_for_links SQLiteDB.where_pick
             max now now' (Store.seq_tasks s + 1) _ t ts).
    + intros s0 s' r. apply sqlite_pick_least.
    + intros s0 s'. apply sqlite_pick_nothing.
    + destruct (sqlite_appends_tasks now (t :: ts) (SQLiteDB.clear_tasks s)) as (_ & H & _).
      exact H.
    + apply (Hc (Store.seq_tasks s + 1) now max Hmax).
Qed.

(** An instance: one city, one usable request and one enabled category. *)
Lemma X19_built_tasks_witness :
  exists r,
    snd (PostgresDB.pick_next_task_for_links 30 210
           (fst (PostgresDB.add_tasks 200
                   (ConfigLoader.build_tasks (fun s => s) [ConfigSpec.minsk]
                      ConfigSpec.sample_requests ConfigSpec.sample_categories "auto" true)
                   (PostgresDB.clear_tasks StoreSpec2.store_with_link)))) = Some r
    /\ Store.t_id r = 1.
Proof.
  destruct (X19_built_tasks_are_claimable (fun s => s) [ConfigSpec.minsk]
              ConfigSpec.sample_requests ConfigSpec.sample_categories "auto" true)
    as [_ H].
  assert (Hne : ConfigLoader.build_tasks (fun s => s) [ConfigSpec.minsk]
                  ConfigSpec.sample_requests ConfigSpec.sample_categories "auto" true
                <> []).
  { intros E. apply (f_equal (@length _)) in E. vm_compute in E. discriminate E. }
  exact (proj1 (H Hne StoreSpec2.store_with_link 200 210 30 ltac:(lia))).
Defined.

(** * The two WHERE clauses of the claim *)

Section WhereClauses.
Import Store StoreSpec2.

Lemma starts_with_upper p : forall s,
  PyStr.starts_with p s = true ->
  PyStr.starts_with (PyStr.ascii_upper p) (PyStr.ascii_upper s) = true.
Proof.
  induction p as [|a p IH]; intros s H; [reflexivity|].
  destruct s as [|b s]; [discriminate|]. cbn [PyStr.starts_with PyStr.ascii_upper] in *.
  destruct (Ascii.eqb a b) eqn:E; [|discriminate].
  apply Ascii.eqb_eq in E. subst b. rewrite Ascii.eqb_refl. apply IH, H.
Qed.

Lemma contains_prefix p s : PyStr.starts_with p s = true -> PyStr.contains p s = true.
Proof. intros H. destruct s; simpl; rewrite H; reflexivity. Qed.

Lemma pg_where_implies_sqlite max r :
  PostgresDB.where_pick max r = true -> SQLiteDB.where_pick max r = true.
Proof.
  unfold PostgresDB.where_pick, SQLiteDB.where_pick. intros H.
  apply andb_prop in H as [Hm Hc]. rewrite Hc, andb_true_r.
  apply orb_true_iff. left. unfold SQLiteDB.like_infix.
  apply contains_prefix, (starts_with_upper "LINKS"), Hm.
Qed.

End WhereClauses.

(** X20: the WHERE clause of the PostgreSQL claim is the stricter one: a
    task PostgreSQL would claim (mode starting with LINKS) is one SQLite
    would claim too (mode holding LINKS or MAPSCAN, case of ASCII letters
    ignored), but not the other way round.  So whenever the PostgreSQL
    claim hands out a task of a store, the SQLite claim on the same store
    hands out a task with the same or a lower id. *)
Theorem X20_postgres_claims_less_than_sqlite :
  (forall max r, PostgresDB.where_pick max r = true -> SQLiteDB.where_pick max r = true)
  /\ (SQLiteDB.where_pick 30 ConfigSpec.mapscan_only_task = true
      /\ PostgresDB.where_pick 30 ConfigSpec.mapscan_only_task = false)
  /\ (forall max now s r,
        snd (PostgresDB.pick_next_task_for_links max now s) = Some r ->
        exists r',
          snd (SQLiteDB.pick_next_task_for_links max now s) = Some r'
          /\ Store.t_id r' <= Store.t_id r).
Proof.
  split; [apply pg_where_implies_sqlite|]. split; [split; vm_compute; reflexivity|].
  intros max now s r H.
  destruct (PostgresDB.pick_next_task_for_links max now s) as [s1 o] eqn:Hp.
  simpl in H. subst o. apply pg_pick_least in Hp as (r0 & Hin & Hw & Hid & _ & _).
  apply pg_where_implies_sqlite in Hw.
  destruct (SQLiteDB.pick_next_task_for_links max now s) as [s2 [r'|]] eqn:Hq.
  - exists r'. split; [reflexivity|].
    apply sqlite_pick_least in Hq as (r1 & _ & _ & -> & Hleast & _).
    rewrite Hid. apply (Hleast r0 Hin Hw).
  - apply sqlite_pick_nothing in Hq as [_ Hno]. rewrite (Hno r0 Hin) in Hw. discriminate Hw.
Qed.

(** An instance: a task both backends claim. *)
Lemma X20_postgres_claims_less_witness :
  SQLiteDB.where_pick 30 (Store.new_task 1 100 StoreSpec.cafe_task) = true.
Proof.
  destruct X20_postgres_claims_less_than_sqlite as [H _].
  apply (H 30 (Store.new_task 1 100 StoreSpec.cafe_task)).
  vm_compute. reflexivity.
Defined.
